(** * velero-integrator: reconciliation and merge logic

    A shallow embedding of the charm's core (src/core, src/events and the
    vendored k8s_backup_libs library) together with the properties of its
    design document that concern configuration validation, the merge of a
    backup target with the schedule configuration, and the reconciliation
    pass.

    Conventions.
    - A Python [str] is a [string]: a sequence of code points below 256.
      Character classes of the [re] module are given for that alphabet.
      A JSON text can name a character outside of it by an escape above
      [\u00ff]; the reader accepts the escape and keeps its six
      characters in place of the character (see [Json.unicode_escape]).
    - A Python [dict] whose iteration order is observable is an
      association list without repeated keys ([dict_set] keeps it so);
      relation databags, which are only looked up, are [gmap]s.
    - A raised exception is the [Raise] case of [result]; code that mutates
      the charm (unit status, databags) runs in the state monad [M]. *)

From Stdlib Require Import String Ascii List Bool Arith NArith Lia.
From stdpp Require Import base option list strings gmap.

Open Scope string_scope.
Open Scope list_scope.

(* ===================================================================== *)
(** * Python values and helpers *)
(* ===================================================================== *)

Module Py.

(** Exceptions that the modelled code raises or catches. *)
Record ErrorDetails := { loc : list string; msg : string }.

Inductive exn :=
| ValueError (message : string)
| AttributeError (message : string)
| ValidationError (errors : list ErrorDetails).

Inductive result (A : Type) :=
| Ok (a : A)
| Raise (e : exn).
Arguments Ok {A} a.
Arguments Raise {A} e.

Definition is_ok {A} (r : result A) : bool :=
  match r with Ok _ => true | Raise _ => false end.

(** Truthiness of an [Optional[str]]: [None] and [""] are falsy. *)
Definition truthy (v : option string) : bool :=
  match v with
  | None => false
  | Some s => negb (String.eqb s "")
  end.

(** [a or b] for an optional string [a] and a string [b]. *)
Definition or_else (a : option string) (b : string) : string :=
  match a with
  | Some s => if String.eqb s "" then b else s
  | None => b
  end.

(** [sep.join(parts)]. *)
Fixpoint join (sep : string) (parts : list string) : string :=
  match parts with
  | [] => ""
  | [p] => p
  | p :: ps => p +:+ sep +:+ join sep ps
  end.

(** [s.replace(a, b)] for one-character [a] and [b]. *)
Fixpoint replace (a b : ascii) (s : string) : string :=
  match s with
  | EmptyString => EmptyString
  | String c s' => String (if Ascii.eqb c a then b else c) (replace a b s')
  end.

(** [sorted(l)] for a list of strings (code point order). *)
Fixpoint insert_sorted (x : string) (l : list string) : list string :=
  match l with
  | [] => [x]
  | y :: l' => if String.leb x y then x :: l else y :: insert_sorted x l'
  end.

Definition sorted (l : list string) : list string :=
  foldr insert_sorted [] l.

(** [d[k] = v] on an insertion-ordered dictionary: an existing key keeps
    its place and takes the new value, a new key goes last. *)
Fixpoint dict_set {V} (k : string) (v : V) (d : list (string * V))
  : list (string * V) :=
  match d with
  | [] => [(k, v)]
  | (k', v') :: d' =>
      if String.eqb k k' then (k, v) :: d' else (k', v') :: dict_set k v d'
  end.

(** [d.get(k)]. *)
Fixpoint dict_get {V} (k : string) (d : list (string * V)) : option V :=
  match d with
  | [] => None
  | (k', v) :: d' => if String.eqb k k' then Some v else dict_get k d'
  end.

(** The dictionary built from key/value pairs in reading order. *)
Definition dict_of_pairs {V} (l : list (string * V)) : list (string * V) :=
  foldl (fun d kv => dict_set (fst kv) (snd kv) d) [] l.

End Py.
Import Py.

(* ===================================================================== *)
(** * Regular expressions of the [re] module *)
(* ===================================================================== *)

Module Re.

Definition word := list ascii.

Definition code (c : ascii) : N := N_of_ascii c.

Definition newline : ascii := "010"%char.

(** [\d]: the decimal digits below code point 256 are [0-9]. *)
Definition is_digit (c : ascii) : bool :=
  ((48 <=? code c) && (code c <=? 57))%N.

(** [\s] on a [str] pattern: tab, line feed, vertical tab, form feed,
    carriage return, the four information separators, space, NEL and the
    no-break space are the white space code points below 256. *)
Definition is_space (c : ascii) : bool :=
  (((9 <=? code c) && (code c <=? 13))
   || ((28 <=? code c) && (code c <=? 32))
   || (code c =? 133) || (code c =? 160))%N.

(** [.] without DOTALL: any character but a line feed. *)
Definition not_newline (c : ascii) : bool := negb (Ascii.eqb c newline).

Definition any_char (_ : ascii) : bool := true.

Inductive regex :=
| Void
| Eps
| Class (p : ascii -> bool)
| Cat (r1 r2 : regex)
| Alt (r1 r2 : regex)
| Star (r : regex)
| And (r1 r2 : regex).

(** Pattern syntax in terms of the core constructors. *)
Definition Lit (a : ascii) : regex := Class (Ascii.eqb a).
Definition Plus (r : regex) : regex := Cat r (Star r).
Definition Opt (r : regex) : regex := Alt r Eps.

Fixpoint Times (n : nat) (r : regex) : regex :=
  match n with
  | O => Eps
  | S n' => Cat r (Times n' r)
  end.

(** [r{m,n}]. *)
Definition Between (m n : nat) (r : regex) : regex :=
  Cat (Times m r) (Times (n - m) (Opt r)).

(** [$] closing a pattern: the end of the string, or just before a line
    feed that is the last character of the string. *)
Definition Dollar : regex := Opt (Lit newline).

(** [(?=a)r] opening a pattern: some prefix of the subject matches [a],
    and the subject matches [r]. *)
Definition Lookahead (a r : regex) : regex :=
  And (Cat a (Star (Class any_char))) r.

Fixpoint nullable (r : regex) : bool :=
  match r with
  | Void => false
  | Eps => true
  | Class _ => false
  | Cat r1 r2 => nullable r1 && nullable r2
  | Alt r1 r2 => nullable r1 || nullable r2
  | Star _ => true
  | And r1 r2 => nullable r1 && nullable r2
  end.

Fixpoint deriv (c : ascii) (r : regex) : regex :=
  match r with
  | Void => Void
  | Eps => Void
  | Class p => if p c then Eps else Void
  | Cat r1 r2 =>
      if nullable r1
      then Alt (Cat (deriv c r1) r2) (deriv c r2)
      else Cat (deriv c r1) r2
  | Alt r1 r2 => Alt (deriv c r1) (deriv c r2)
  | Star r1 => Cat (deriv c r1) (Star r1)
  | And r1 r2 => And (deriv c r1) (deriv c r2)
  end.

Fixpoint accepts (r : regex) (w : word) : bool :=
  match w with
  | [] => nullable r
  | c :: w' => accepts (deriv c r) w'
  end.

(** [re.match(pattern, s)] as a truth value, for a pattern closed by [$]
    (written with [Dollar]): the match starts at the first character and,
    because of the closing [$], extends over the whole subject. *)
Definition re_match (pattern : regex) (s : string) : bool :=
  accepts pattern (list_ascii_of_string s).

(** The language of a pattern. *)
Inductive matches : regex -> word -> Prop :=
| m_eps : matches Eps []
| m_class p c : p c = true -> matches (Class p) [c]
| m_cat r1 r2 w1 w2 :
    matches r1 w1 -> matches r2 w2 -> matches (Cat r1 r2) (w1 ++ w2)
| m_alt_l r1 r2 w : matches r1 w -> matches (Alt r1 r2) w
| m_alt_r r1 r2 w : matches r2 w -> matches (Alt r1 r2) w
| m_star_nil r : matches (Star r) []
| m_star_app r w1 w2 :
    matches r w1 -> matches (Star r) w2 -> matches (Star r) (w1 ++ w2)
| m_and r1 r2 w : matches r1 w -> matches r2 w -> matches (And r1 r2) w.

End Re.

(* ===================================================================== *)
(** * JSON text, as pydantic writes and reads it *)
(* ===================================================================== *)

(** [model_dump_json] and [model_validate_json] are inherited from
    pydantic's [BaseModel], which src/ does not contain. Their JSON layer is
    given here: the compact writer and a reader of RFC 8259 texts. A [\u]
    escape naming a code point outside the alphabet of [string] has no
    image and is refused. *)
Module Json.
Import Re.

#[warnings="-register-all"]
Inductive json :=
| JNull
| JBool (b : bool)
| JNum (lexeme : string)
| JStr (s : string)
| JArr (items : list json)
| JObj (members : list (string * json)).

Definition quote : ascii := "034"%char.
Definition backslash : ascii := "092"%char.

(** ** Writer *)

Definition hex_digit (n : N) : ascii :=
  if (n <? 10)%N then ascii_of_N (48 + n) else ascii_of_N (87 + n).

Definition escape_char (c : ascii) : word :=
  if Ascii.eqb c quote then [backslash; quote]
  else if Ascii.eqb c backslash then [backslash; backslash]
  else if (code c =? 8)%N then [backslash; "b"%char]
  else if (code c =? 9)%N then [backslash; "t"%char]
  else if (code c =? 10)%N then [backslash; "n"%char]
  else if (code c =? 12)%N then [backslash; "f"%char]
  else if (code c =? 13)%N then [backslash; "r"%char]
  else if (code c <? 32)%N then
    [backslash; "u"%char; "0"%char; "0"%char;
     hex_digit (code c / 16); hex_digit (code c mod 16)]
  else [c].

Definition write_string (s : string) : word :=
  quote :: concat (map escape_char (list_ascii_of_string s)) ++ [quote].

Definition comma_sep (parts : list word) : word :=
  match parts with
  | [] => []
  | p :: ps => p ++ concat (map (fun q => ","%char :: q) ps)
  end.

(** Modelled from the spec: the serializer behind [model_dump_json], part
    of pydantic and absent from src/. Section 6 gives the text: a JSON
    object, with [null] for what is absent; it is written without white
    space, control characters escaped. *)
Fixpoint write (v : json) : word :=
  match v with
  | JNull => list_ascii_of_string "null"
  | JBool true => list_ascii_of_string "true"
  | JBool false => list_ascii_of_string "false"
  | JNum lexeme => list_ascii_of_string lexeme
  | JStr s => write_string s
  | JArr items => "["%char :: comma_sep (map write items) ++ ["]"%char]
  | JObj members =>
      "{"%char
      :: comma_sep
           (map (fun kv => write_string (fst kv) ++ ":"%char :: write (snd kv))
              members)
      ++ ["}"%char]
  end.

(** Modelled from the spec: see [write]. *)
Definition dumps (v : json) : string := string_of_list_ascii (write v).

(** ** Reader *)

Definition is_ws (c : ascii) : bool :=
  (code c =? 32)%N || (code c =? 9)%N || (code c =? 10)%N || (code c =? 13)%N.

Fixpoint skip_ws (s : word) : word :=
  match s with
  | c :: r => if is_ws c then skip_ws r else s
  | [] => []
  end.

Definition hex_value (c : ascii) : option N :=
  let n := code c in
  if ((48 <=? n) && (n <=? 57))%N then Some (n - 48)%N
  else if ((97 <=? n) && (n <=? 102))%N then Some (n - 87)%N
  else if ((65 <=? n) && (n <=? 70))%N then Some (n - 55)%N
  else None.

(** The characters that the escape [\uXXXX] stands for; any four
    hexadecimal digits make a valid escape. The strings of this
    development are made of the code points below 256: an escape up to
    [\u00ff] stands for its character. The character of an escape above
    that has no place in this alphabet; the escape is accepted all the
    same and kept as its own six characters, the digits in lower case, so
    that two escapes give the same characters exactly when they name the
    same code point. *)
Definition unicode_escape (h1 h2 h3 h4 : ascii) : option word :=
  match hex_value h1, hex_value h2, hex_value h3, hex_value h4 with
  | Some a, Some b, Some c, Some d =>
      if ((a =? 0) && (b =? 0))%N then Some [ascii_of_N (16 * c + d)]
      else
        Some [backslash; "u"%char;
              hex_digit a; hex_digit b; hex_digit c; hex_digit d]
  | _, _, _, _ => None
  end.

Definition simple_escape (e : ascii) : option ascii :=
  if Ascii.eqb e quote then Some quote
  else if Ascii.eqb e backslash then Some backslash
  else if Ascii.eqb e "/"%char then Some "/"%char
  else if Ascii.eqb e "b"%char then Some (ascii_of_N 8)
  else if Ascii.eqb e "t"%char then Some (ascii_of_N 9)
  else if Ascii.eqb e "n"%char then Some (ascii_of_N 10)
  else if Ascii.eqb e "f"%char then Some (ascii_of_N 12)
  else if Ascii.eqb e "r"%char then Some (ascii_of_N 13)
  else None.

(** The characters of a string literal after its opening quote. *)
Fixpoint read_chars (s : word) : option (word * word) :=
  match s with
  | [] => None
  | c :: r =>
      if Ascii.eqb c quote then Some ([], r)
      else if Ascii.eqb c backslash then
        match r with
        | e :: r1 =>
            if Ascii.eqb e "u"%char then
              match r1 with
              | h1 :: h2 :: h3 :: h4 :: r2 =>
                  match unicode_escape h1 h2 h3 h4, read_chars r2 with
                  | Some xs, Some (cs, rest) => Some (xs ++ cs, rest)
                  | _, _ => None
                  end
              | _ => None
              end
            else
              match simple_escape e, read_chars r1 with
              | Some x, Some (cs, rest) => Some (x :: cs, rest)
              | _, _ => None
              end
        | [] => None
        end
      else if (code c <? 32)%N then None
      else
        match read_chars r with
        | Some (cs, rest) => Some (c :: cs, rest)
        | None => None
        end
  end.

Definition read_string (s : word) : option (string * word) :=
  match read_chars s with
  | Some (cs, rest) => Some (string_of_list_ascii cs, rest)
  | None => None
  end.

Fixpoint span_digits (s : word) : word * word :=
  match s with
  | c :: r =>
      if is_digit c then let (ds, rest) := span_digits r in (c :: ds, rest)
      else ([], s)
  | [] => ([], [])
  end.

(** A number lexeme: an optional minus sign, an integer part without a
    superfluous leading zero, an optional fraction and an optional
    exponent. *)
Definition read_number (s : word) : option (string * word) :=
  let (sign, s1) :=
    match s with
    | c :: r => if Ascii.eqb c "-"%char then ([c], r) else ([], s)
    | [] => ([], s)
    end in
  let (int, s2) := span_digits s1 in
  match int with
  | [] => None
  | d :: ds =>
      if Ascii.eqb d "0"%char && negb (Nat.eqb (length ds) 0) then None
      else
        let frac :=
          match s2 with
          | c :: r =>
              if Ascii.eqb c "."%char then
                let (fs, r') := span_digits r in
                match fs with
                | [] => None
                | _ => Some (c :: fs, r')
                end
              else Some ([], s2)
          | [] => Some ([], s2)
          end in
        match frac with
        | None => None
        | Some (fr, s3) =>
            let exp :=
              match s3 with
              | c :: r =>
                  if Ascii.eqb c "e"%char || Ascii.eqb c "E"%char then
                    let (sg, r1) :=
                      match r with
                      | x :: r' =>
                          if Ascii.eqb x "+"%char || Ascii.eqb x "-"%char
                          then ([x], r') else ([], r)
                      | [] => ([], r)
                      end in
                    let (es, r2) := span_digits r1 in
                    match es with
                    | [] => None
                    | _ => Some (c :: sg ++ es, r2)
                    end
                  else Some ([], s3)
              | [] => Some ([], s3)
              end in
            match exp with
            | None => None
            | Some (ex, s4) =>
                Some (string_of_list_ascii (sign ++ int ++ fr ++ ex), s4)
            end
        end
  end.

(** ** The value of a number

    A number of a JSON text is an integer when its lexeme has neither
    fraction nor exponent, and a float otherwise. *)

Record number := {
  negative : bool;
  mantissa : Z;
  exponent : Z;
  is_integer : bool
}.

Definition digits_value (ds : word) : Z :=
  fold_left (fun n c => (10 * n + Z.of_N (code c - 48))%Z) ds 0%Z.

(** The number [mantissa * 10 ^ exponent], negated when [negative], that a
    lexeme of [read_number] denotes. *)
Definition number_of_lexeme (lexeme : string) : number :=
  let s := list_ascii_of_string lexeme in
  let (neg, s1) :=
    match s with
    | c :: r => if Ascii.eqb c "-"%char then (true, r) else (false, s)
    | [] => (false, s)
    end in
  let (int, s2) := span_digits s1 in
  let '(has_frac, frac, s3) :=
    match s2 with
    | c :: r =>
        if Ascii.eqb c "."%char
        then let (fs, r') := span_digits r in (true, fs, r')
        else (false, [], s2)
    | [] => (false, [], s2)
    end in
  let (has_exp, ex) :=
    match s3 with
    | c :: r =>
        if Ascii.eqb c "e"%char || Ascii.eqb c "E"%char then
          match r with
          | x :: r' =>
              if Ascii.eqb x "-"%char
              then (true, (- digits_value (fst (span_digits r')))%Z)
              else if Ascii.eqb x "+"%char
              then (true, digits_value (fst (span_digits r')))
              else (true, digits_value (fst (span_digits r)))
          | [] => (true, 0%Z)
          end
        else (false, 0%Z)
    | [] => (false, 0%Z)
    end in
  {| negative := neg;
     mantissa := digits_value (int ++ frac);
     exponent := (ex - Z.of_nat (length frac))%Z;
     is_integer := negb has_frac && negb has_exp |}.

(** [|x| <= a / 2 ^ b] and [|x| >= a / 2 ^ b], in whole numbers. *)
Definition magnitude_le (x : number) (a b : Z) : bool :=
  if (0 <=? exponent x)%Z
  then (mantissa x * 10 ^ exponent x * 2 ^ b <=? a)%Z
  else (mantissa x * 2 ^ b <=? a * 10 ^ (- exponent x))%Z.

Definition magnitude_ge (x : number) (a b : Z) : bool :=
  if (0 <=? exponent x)%Z
  then (a <=? mantissa x * 10 ^ exponent x * 2 ^ b)%Z
  else (a * 10 ^ (- exponent x) <=? mantissa x * 2 ^ b)%Z.

(** The double nearest to [x] is zero: the magnitude of [x] is at most
    half the smallest positive double, [2 ^ -1074]. *)
Definition rounds_to_zero (x : number) : bool := magnitude_le x 1 1075.

(** The double nearest to [x] is one: [x] lies between the midpoints
    [1 - 2 ^ -54] and [1 + 2 ^ -53] to the neighbours of one, both
    included since ties go to the even significand, that of one. *)
Definition rounds_to_one (x : number) : bool :=
  negb (negative x)
  && magnitude_ge x (2 ^ 54 - 1) 54
  && magnitude_le x (2 ^ 53 + 1) 53.

(** Modelled from the spec: the parser behind [model_validate_json], part
    of pydantic and absent from src/. Section 4.2 asks that a text which
    "is not valid JSON" be refused; [fuel] bounds the number of nested
    calls. *)
Fixpoint read_value (fuel : nat) (s : word) : option (json * word) :=
  match fuel with
  | O => None
  | S fuel' =>
      match skip_ws s with
      | [] => None
      | c :: r =>
          if Ascii.eqb c quote then
            match read_string r with
            | Some (x, rest) => Some (JStr x, rest)
            | None => None
            end
          else if Ascii.eqb c "["%char then
            match skip_ws r with
            | c' :: r' =>
                if Ascii.eqb c' "]"%char then Some (JArr [], r')
                else
                  match read_items fuel' r with
                  | Some (xs, rest) => Some (JArr xs, rest)
                  | None => None
                  end
            | [] => None
            end
          else if Ascii.eqb c "{"%char then
            match skip_ws r with
            | c' :: r' =>
                if Ascii.eqb c' "}"%char then Some (JObj [], r')
                else
                  match read_members fuel' r with
                  | Some (kvs, rest) => Some (JObj (dict_of_pairs kvs), rest)
                  | None => None
                  end
            | [] => None
            end
          else if Ascii.eqb c "-"%char || is_digit c then
            match read_number (c :: r) with
            | Some (x, rest) => Some (JNum x, rest)
            | None => None
            end
          else
            match c :: r with
            | "n"%char :: "u"%char :: "l"%char :: "l"%char :: rest =>
                Some (JNull, rest)
            | "t"%char :: "r"%char :: "u"%char :: "e"%char :: rest =>
                Some (JBool true, rest)
            | "f"%char :: "a"%char :: "l"%char :: "s"%char :: "e"%char :: rest =>
                Some (JBool false, rest)
            | _ => None
            end
      end
  end

(** One value, then [,] and more values, or the closing bracket. *)
with read_items (fuel : nat) (s : word) : option (list json * word) :=
  match fuel with
  | O => None
  | S fuel' =>
      match read_value fuel' s with
      | Some (x, r) =>
          match skip_ws r with
          | c :: r' =>
              if Ascii.eqb c ","%char then
                match read_items fuel' r' with
                | Some (xs, rest) => Some (x :: xs, rest)
                | None => None
                end
              else if Ascii.eqb c "]"%char then Some ([x], r')
              else None
          | [] => None
          end
      | None => None
      end
  end

(** One ["key": value] pair, then [,] and more pairs, or the closing
    brace. *)
with read_members (fuel : nat) (s : word)
  : option (list (string * json) * word) :=
  match fuel with
  | O => None
  | S fuel' =>
      match skip_ws s with
      | c :: r =>
          if Ascii.eqb c quote then
            match read_string r with
            | Some (k, r1) =>
                match skip_ws r1 with
                | c1 :: r2 =>
                    if Ascii.eqb c1 ":"%char then
                      match read_value fuel' r2 with
                      | Some (x, r3) =>
                          match skip_ws r3 with
                          | c2 :: r4 =>
                              if Ascii.eqb c2 ","%char then
                                match read_members fuel' r4 with
                                | Some (kvs, rest) => Some ((k, x) :: kvs, rest)
                                | None => None
                                end
                              else if Ascii.eqb c2 "}"%char
                              then Some ([(k, x)], r4)
                              else None
                          | [] => None
                          end
                      | None => None
                      end
                    else None
                | [] => None
                end
            | None => None
            end
          else None
      | [] => None
      end
  end.

(** The values that dumping a model produces: no number, and no key
    twice in an object. *)
Fixpoint well_formed (v : json) : bool :=
  match v with
  | JNum _ => false
  | JArr items => forallb well_formed items
  | JObj members =>
      bool_decide (NoDup (map fst members))
      && forallb (fun kv => well_formed (snd kv)) members
  | _ => true
  end.

(** The number of nodes of a value, each item or member counted once
    more. *)
Fixpoint size (v : json) : nat :=
  match v with
  | JArr items => S (list_sum (map (fun x => S (size x)) items))
  | JObj members => S (list_sum (map (fun kv => S (size (snd kv))) members))
  | _ => 1
  end.

(** Modelled from the spec: see [read_value]. A whole text is one value,
    white space allowed around it. *)
Definition loads (s : string) : option json :=
  let w := list_ascii_of_string s in
  match read_value (S (length w)) w with
  | Some (v, rest) =>
      match skip_ws rest with
      | [] => Some v
      | _ :: _ => None
      end
  | None => None
  end.

End Json.

(* ===================================================================== *)
(** * src/core/charm_config.py *)
(* ===================================================================== *)

Module CharmConfig.
Import Re.

Definition digit : regex := Class is_digit.

(** [\d+(-\d+)?] *)
Definition CRON_NUMBERS : regex :=
  Cat (Plus digit) (Opt (Cat (Lit "-") (Plus digit))).

(** [(,\d+(-\d+)?)*] *)
Definition MORE_NUMBERS : regex := Star (Cat (Lit ",") CRON_NUMBERS).

(** [CRON_FIELD = r"(\*|(\*/\d+)|(\d+(-\d+)?)(,\d+(-\d+)?)*|\?)"] *)
Definition CRON_FIELD : regex :=
  Alt (Lit "*")
    (Alt (Cat (Lit "*") (Cat (Lit "/") (Plus digit)))
       (Alt (Cat CRON_NUMBERS MORE_NUMBERS) (Lit "?"))).

(** [\s+{CRON_FIELD}] *)
Definition NEXT_FIELD : regex := Cat (Plus (Class is_space)) CRON_FIELD.

(** [CRON_REGEX = rf"^{CRON_FIELD}(\s+{CRON_FIELD}){{4,5}}$"] *)
Definition CRON_REGEX : regex :=
  Cat CRON_FIELD (Cat (Between 4 5 NEXT_FIELD) Dollar).

Record t := {
  schedule : option string;
  paused : bool;
  skip_immediately : bool;
  use_owner_references_in_backup : bool
}.

(** [@field_validator("schedule", mode="before")] *)
Definition blank_string (value : option string) : option string :=
  match value with
  | Some s => if String.eqb s "" then None else Some s
  | None => None
  end.

Definition invalid_cron_message (s : string) : string :=
  "Invalid cron expression: " +:+ s +:+ ". "
  +:+ "Expected format: '* * * * *' (min hour day month weekday)".

(** [@model_validator(mode="after")] *)
Definition validate_schedule (self : t) : result t :=
  match schedule self with
  | Some s =>
      if truthy (Some s) && negb (re_match CRON_REGEX s)
      then Raise (ValueError (invalid_cron_message s))
      else Ok self
  | None => Ok self
  end.

(** [CharmConfig(schedule=..., paused=..., ...)]. The arguments already
    have their field types, so the field stage only applies
    [blank_string]; a [ValueError] of the model validator is reported by
    pydantic as one error whose location is the model itself (the empty
    tuple). *)
Definition new (schedule_arg : option string)
    (paused_arg skip_arg owner_arg : bool) : result t :=
  let self := {| schedule := blank_string schedule_arg;
                 paused := paused_arg;
                 skip_immediately := skip_arg;
                 use_owner_references_in_backup := owner_arg |} in
  match validate_schedule self with
  | Ok c => Ok c
  | Raise (ValueError m) =>
      Raise (ValidationError [ {| loc := []; msg := "Value error, " +:+ m |} ])
  | Raise e => Raise e
  end.

Definition is_scheduled (self : t) : bool :=
  match schedule self with Some _ => true | None => false end.

Definition is_paused (self : t) : bool :=
  paused self && is_scheduled self.

End CharmConfig.

(* ===================================================================== *)
(** * lib/charms/k8s_backup_libs/v0/backup_target.py *)
(* ===================================================================== *)

Module BackupTarget.
Import Re Json.

Definition digit : regex := Class is_digit.

(** [DURATION_REGEX = r"^(?=.*\d)(?:(\d+)h)?(?:(\d+)m)?(?:(\d+)s)?$"] *)
Definition DURATION_REGEX : regex :=
  Lookahead (Cat (Star (Class not_newline)) digit)
    (Cat (Opt (Cat (Plus digit) (Lit "h")))
       (Cat (Opt (Cat (Plus digit) (Lit "m")))
          (Cat (Opt (Cat (Plus digit) (Lit "s"))) Dollar))).

Definition SPEC_FIELD := "spec".
Definition APP_FIELD := "app".
Definition RELATION_FIELD := "relation_name".
Definition MODEL_FIELD := "model".

Record BackupTargetSpec := {
  include_namespaces : option (list string);
  include_resources : option (list string);
  exclude_namespaces : option (list string);
  exclude_resources : option (list string);
  label_selector : option (list (string * string));
  ttl : option string;
  include_cluster_resources : option bool
}.

(** A record stands for a specification when its label selector, a
    [dict], has no key twice. *)
Definition is_spec (x : BackupTargetSpec) : Prop :=
  match label_selector x with
  | Some d => NoDup (map fst d)
  | None => True
  end.

Definition invalid_ttl_message (s : string) : string :=
  "Invalid TTL format: " +:+ s
  +:+ ". Expected format: '24h', '10h10m10s', etc.".

(** The method the class defines to validate the specification. *)
Definition __post_init__ (self : BackupTargetSpec) : result unit :=
  match ttl self with
  | Some s =>
      if truthy (Some s) && negb (re_match DURATION_REGEX s)
      then Raise (ValueError (invalid_ttl_message s))
      else Ok tt
  | None => Ok tt
  end.

(** [BackupTargetSpec(include_namespaces=..., ...)]. The class derives
    from pydantic's [BaseModel], whose construction validates each field
    against its annotation and then returns the instance. It runs the
    hook [model_post_init]; [__post_init__] is the hook of dataclasses
    and [BaseModel] never calls it. The arguments below already have the
    field types, so nothing is left to fail. *)
Definition new
    (include_namespaces_arg include_resources_arg
     exclude_namespaces_arg exclude_resources_arg : option (list string))
    (label_selector_arg : option (list (string * string)))
    (ttl_arg : option string)
    (include_cluster_resources_arg : option bool)
  : result BackupTargetSpec :=
  Ok {| include_namespaces := include_namespaces_arg;
        include_resources := include_resources_arg;
        exclude_namespaces := exclude_namespaces_arg;
        exclude_resources := exclude_resources_arg;
        label_selector := label_selector_arg;
        ttl := ttl_arg;
        include_cluster_resources := include_cluster_resources_arg |}.

(** ** Field validation

    The validation of a field against its annotation is pydantic's; src/
    holds the annotations only. Section 4.2 of the design document asks
    that "fields [with] wrong shapes" be refused. *)

Definition validate_str (v : json) : option string :=
  match v with JStr s => Some s | _ => None end.

Fixpoint validate_list_str_items (l : list json) : option (list string) :=
  match l with
  | [] => Some []
  | v :: l' =>
      match validate_str v, validate_list_str_items l' with
      | Some s, Some ss => Some (s :: ss)
      | _, _ => None
      end
  end.

Definition validate_list_str (v : json) : option (list string) :=
  match v with JArr l => validate_list_str_items l | _ => None end.

Fixpoint validate_dict_str_items (l : list (string * json))
  : option (list (string * string)) :=
  match l with
  | [] => Some []
  | (k, v) :: l' =>
      match validate_str v, validate_dict_str_items l' with
      | Some s, Some kvs => Some ((k, s) :: kvs)
      | _, _ => None
      end
  end.

Definition validate_dict_str (v : json) : option (list (string * string)) :=
  match v with JObj l => validate_dict_str_items l | _ => None end.

Definition lower_char (c : ascii) : ascii :=
  if ((65 <=? code c) && (code c <=? 90))%N
  then ascii_of_N (code c + 32) else c.

Fixpoint lower (s : string) : string :=
  match s with
  | EmptyString => EmptyString
  | String c s' => String (lower_char c) (lower s')
  end.

Definition mem_string (s : string) (l : list string) : bool :=
  existsb (String.eqb s) l.

(** A boolean is read from [true] and [false], from the numbers zero and
    one, and from the usual words whatever their case. An integer counts
    by its value and a float by the double nearest to it, so that [1.0]
    and [0.0] are read as well. *)
Definition validate_bool (v : json) : option bool :=
  match v with
  | JBool b => Some b
  | JNum n =>
      let x := number_of_lexeme n in
      if is_integer x then
        if (mantissa x =? 0)%Z then Some false
        else if (mantissa x =? 1)%Z && (exponent x =? 0)%Z
                && negb (negative x)
        then Some true
        else None
      else if rounds_to_zero x then Some false
      else if rounds_to_one x then Some true
      else None
  | JStr s =>
      if mem_string (lower s) ["0"; "off"; "f"; "false"; "n"; "no"]
      then Some false
      else if mem_string (lower s) ["1"; "on"; "t"; "true"; "y"; "yes"]
      then Some true
      else None
  | _ => None
  end.

(** Modelled from the spec: one optional field of a model, the errors it
    contributes and its value. An absent key takes the default, [None]. *)
Definition optional_field {A} (name expected : string)
    (validate : json -> option A) (d : list (string * json))
  : list ErrorDetails * option A :=
  match dict_get name d with
  | None => ([], None)
  | Some JNull => ([], None)
  | Some v =>
      match validate v with
      | Some a => ([], Some a)
      | None =>
          ([ {| loc := [name];
                msg := "Input should be a valid " +:+ expected |} ], None)
      end
  end.

Definition fields_of_dict (d : list (string * json)) : result BackupTargetSpec :=
  let '(e1, v1) := optional_field "include_namespaces" "list" validate_list_str d in
  let '(e2, v2) := optional_field "include_resources" "list" validate_list_str d in
  let '(e3, v3) := optional_field "exclude_namespaces" "list" validate_list_str d in
  let '(e4, v4) := optional_field "exclude_resources" "list" validate_list_str d in
  let '(e5, v5) := optional_field "label_selector" "dictionary" validate_dict_str d in
  let '(e6, v6) := optional_field "ttl" "string" validate_str d in
  let '(e7, v7) := optional_field "include_cluster_resources" "boolean" validate_bool d in
  match e1 ++ e2 ++ e3 ++ e4 ++ e5 ++ e6 ++ e7 with
  | [] =>
      Ok {| include_namespaces := v1; include_resources := v2;
            exclude_namespaces := v3; exclude_resources := v4;
            label_selector := v5; ttl := v6;
            include_cluster_resources := v7 |}
  | errors => Raise (ValidationError errors)
  end.

(** Modelled from the spec: [BackupTargetSpec.model_validate(obj)], a
    method of pydantic's [BaseModel] absent from src/; each field is
    checked against its annotation, keys that name no field are ignored.
    The class hands pydantic no validator for [ttl] (its own check is
    [__post_init__], see [new]), so any string is a [ttl] here. *)
Definition model_validate (v : json) : result BackupTargetSpec :=
  match v with
  | JObj d => fields_of_dict d
  | _ =>
      Raise (ValidationError
               [ {| loc := []; msg := "Input should be an object" |} ])
  end.

(** Modelled from the spec: [BackupTargetSpec.model_validate_json(text)],
    the operation [parse] of section 4.2: the text is read as JSON, then
    validated. *)
Definition model_validate_json (text : string) : result BackupTargetSpec :=
  match loads text with
  | Some v => model_validate v
  | None => Raise (ValidationError [ {| loc := []; msg := "Invalid JSON" |} ])
  end.

Definition dump_option {A} (f : A -> json) (o : option A) : json :=
  match o with Some a => f a | None => JNull end.

Definition dump_list_str (l : list string) : json := JArr (map JStr l).

Definition dump_dict_str (d : list (string * string)) : json :=
  JObj (map (fun kv => (fst kv, JStr (snd kv))) d).

(** Modelled from the spec: [self.model_dump()], a method of pydantic's
    [BaseModel] absent from src/: every field, in declaration order,
    [None] for what is absent (section 6). *)
Definition model_dump (self : BackupTargetSpec) : list (string * json) :=
  [ ("include_namespaces", dump_option dump_list_str (include_namespaces self));
    ("include_resources", dump_option dump_list_str (include_resources self));
    ("exclude_namespaces", dump_option dump_list_str (exclude_namespaces self));
    ("exclude_resources", dump_option dump_list_str (exclude_resources self));
    ("label_selector", dump_option dump_dict_str (label_selector self));
    ("ttl", dump_option JStr (ttl self));
    ("include_cluster_resources",
      dump_option JBool (include_cluster_resources self)) ].

(** Modelled from the spec: [self.model_dump_json()], the operation
    [serialize] of section 4.2. *)
Definition model_dump_json (self : BackupTargetSpec) : string :=
  dumps (JObj (model_dump self)).

End BackupTarget.

(* ===================================================================== *)
(** * charms.velero_libs.v0.velero_backup_config *)
(* ===================================================================== *)

Module VeleroBackupConfig.
Import Json BackupTarget.

(** Modelled from the spec: the class [VeleroBackupSpec] of the vendored
    library velero_libs, which src/ does not contain. The design document
    gives its shape (section 6): the fields of the target specification,
    kept together here as [target], then [schedule: string|null],
    [paused: bool], [skip_immediately: bool] and
    [use_owner_references_in_backup: bool]; the three flags default to
    false. *)
Record VeleroBackupSpec := {
  target : BackupTargetSpec;
  schedule : option string;
  paused : bool;
  skip_immediately : bool;
  use_owner_references_in_backup : bool
}.

Definition flag_field (name : string) (d : list (string * json))
  : list ErrorDetails * bool :=
  match dict_get name d with
  | None => ([], false)
  | Some v =>
      match validate_bool v with
      | Some b => ([], b)
      | None =>
          ([ {| loc := [name]; msg := "Input should be a valid boolean" |} ],
           false)
      end
  end.

(** Modelled from the spec: [VeleroBackupSpec.model_validate(obj)] for a
    dictionary [obj], field by field as for the target specification. *)
Definition model_validate (d : list (string * json)) : result VeleroBackupSpec :=
  let '(e0, v0) :=
    match fields_of_dict d with
    | Ok t => ([], Some t)
    | Raise (ValidationError errors) => (errors, None)
    | Raise _ => ([], None)
    end in
  let '(e1, v1) := optional_field "schedule" "string" validate_str d in
  let '(e2, v2) := flag_field "paused" d in
  let '(e3, v3) := flag_field "skip_immediately" d in
  let '(e4, v4) := flag_field "use_owner_references_in_backup" d in
  match v0, e0 ++ e1 ++ e2 ++ e3 ++ e4 with
  | Some t, [] =>
      Ok {| target := t; schedule := v1; paused := v2;
            skip_immediately := v3; use_owner_references_in_backup := v4 |}
  | _, errors => Raise (ValidationError errors)
  end.

(** Modelled from the spec: [self.model_dump()], the fields in the order
    of section 6. *)
Definition model_dump (self : VeleroBackupSpec) : list (string * json) :=
  BackupTarget.model_dump (target self)
  ++ [ ("schedule", dump_option JStr (schedule self));
       ("paused", JBool (paused self));
       ("skip_immediately", JBool (skip_immediately self));
       ("use_owner_references_in_backup",
         JBool (use_owner_references_in_backup self)) ].

(** Modelled from the spec: [self.model_dump_json()]. *)
Definition model_dump_json (self : VeleroBackupSpec) : string :=
  dumps (JObj (model_dump self)).

End VeleroBackupConfig.

(* ===================================================================== *)
(** * The ops framework: relations, databags, unit status *)
(* ===================================================================== *)

Module Ops.

Inductive StatusBase :=
| UnknownStatus
| MaintenanceStatus (message : string)
| ActiveStatus (message : string)
| BlockedStatus (message : string)
| WaitingStatus (message : string).

(** A relation as the charm sees it: its endpoint [name], the remote
    application (absent while the relation is being torn down), the
    databag of the remote application and the databag this application
    owns. *)
Record Relation := {
  id : nat;
  name : string;
  app : option string;
  remote_app_data : option (gmap string string);
  local_app_data : gmap string string
}.

(** [databag[k] = v]: ops removes the key when the value is empty. *)
Definition databag_set (k v : string) (bag : gmap string string)
  : gmap string string :=
  if String.eqb v "" then delete k bag else <[k := v]> bag.

(** [databag.update(d)]: one assignment per item of [d], in order. *)
Definition databag_update (d : list (string * string))
    (bag : gmap string string) : gmap string string :=
  foldl (fun b kv => databag_set (fst kv) (snd kv) b) bag d.

(** What a pass does to databags, in order: reading the databag of the
    remote application of a relation, and updating the databag of this
    application on a relation. *)
Inductive access :=
| Read (relation_id : nat)
| Write (relation_id : nat) (items : list (string * string)).

(** The charm configuration, typed as the charm declares its options:
    [schedule] is a string, the three flags are booleans; an option
    without value is absent. *)
Record ConfigData := {
  cfg_schedule : option string;
  cfg_paused : option bool;
  cfg_skip_immediately : option bool;
  cfg_use_owner_references_in_backup : option bool
}.

(** The state a hook runs against. *)
Record Charm := {
  is_leader : bool;
  config : ConfigData;
  model_name : string;
  relations : gmap string (list Relation);
  unit_status : StatusBase;
  accesses : list access
}.

(** Hooks: state passing, with the exception that ends the hook. *)
Definition M (A : Type) : Type := Charm -> result A * Charm.

Definition ret {A} (a : A) : M A := fun c => (Ok a, c).

Definition bind {A B} (m : M A) (f : A -> M B) : M B :=
  fun c =>
    match m c with
    | (Ok a, c') => f a c'
    | (Raise e, c') => (Raise e, c')
    end.

Definition gets {A} (f : Charm -> A) : M A := fun c => (Ok (f c), c).

Definition modify (f : Charm -> Charm) : M unit := fun c => (Ok tt, f c).

Definition lift {A} (r : result A) : M A := fun c => (r, c).

(** [for x in l: body(x)] *)
Fixpoint for_each {A} (l : list A) (body : A -> M unit) : M unit :=
  match l with
  | [] => ret tt
  | x :: l' => bind (body x) (fun _ => for_each l' body)
  end.

Definition with_unit_status (s : StatusBase) (c : Charm) : Charm :=
  {| is_leader := is_leader c; config := config c;
     model_name := model_name c; relations := relations c;
     unit_status := s; accesses := accesses c |}.

Definition with_accesses (l : list access) (c : Charm) : Charm :=
  {| is_leader := is_leader c; config := config c;
     model_name := model_name c; relations := relations c;
     unit_status := unit_status c; accesses := l |}.

Definition with_relations (rs : gmap string (list Relation)) (c : Charm)
  : Charm :=
  {| is_leader := is_leader c; config := config c;
     model_name := model_name c; relations := rs;
     unit_status := unit_status c; accesses := accesses c |}.

(** [self.charm.unit.status = s] *)
Definition set_unit_status (s : StatusBase) : M unit :=
  modify (with_unit_status s).

Definition record (a : access) : M unit :=
  modify (fun c => with_accesses (accesses c ++ [a]) c).

Definition set_relations (rs : gmap string (list Relation)) : M unit :=
  modify (with_relations rs).

Definition with_local_app_data (r : Relation) (bag : gmap string string)
  : Relation :=
  {| id := id r; name := name r; app := app r;
     remote_app_data := remote_app_data r; local_app_data := bag |}.

(** [model.relations.get(endpoint, [])] *)
Definition relations_get (endpoint : string) (c : Charm) : list Relation :=
  default [] (relations c !! endpoint).

(** [dict(relation.data.get(relation.app, {}))] *)
Definition read_remote_app_data (relation : Relation)
  : M (gmap string string) :=
  bind (record (Read (id relation)))
    (fun _ => ret (default ∅ (remote_app_data relation))).

(** [relation.data[self.charm.app].update(items)] for the [i]-th relation
    of [endpoint]. *)
Definition update_local_app_data (endpoint : string) (i : nat)
    (items : list (string * string)) : M unit :=
  bind (gets (relations_get endpoint)) (fun rs =>
    match rs !! i with
    | Some r =>
        bind (record (Write (id r) items)) (fun _ =>
        bind (gets relations) (fun all =>
          set_relations
            (<[endpoint :=
                 <[i := with_local_app_data r
                          (databag_update items (local_app_data r))]> rs]>
               all)))
    | None => ret tt
    end).

End Ops.

Notation "'let*' x ':=' m 'in' k" := (Ops.bind m (fun x => k))
  (at level 10, x pattern, m at level 100, k at level 200).

(* ===================================================================== *)
(** * src/constants.py *)
(* ===================================================================== *)

Module Constants.
Definition K8S_BACKUP_TARGET_RELATION := "k8s-backup-target".
Definition VELERO_BACKUP_RELATION := "velero-backup".
Definition STATUS_PEERS_RELATION_NAME := "status-peers".
End Constants.

(* ===================================================================== *)
(** * src/core/domain.py *)
(* ===================================================================== *)

Module Domain.
Import BackupTarget Ops.

Definition SPEC_FIELD := "spec".
Definition APP_FIELD := "app".
Definition RELATION_FIELD := "relation_name".
Definition MODEL_FIELD := "model".

Record BackupTargetInfo := {
  spec : BackupTargetSpec;
  app_name : string;
  relation_name : string;
  model_name : string;
  relation : Relation
}.

(** [data.get(APP_FIELD) or relation.app.name]: the right operand is
    evaluated only when the left one is falsy, and fails on a relation
    without remote application. *)
Definition app_name_of (data : gmap string string) (relation : Relation)
  : result string :=
  if truthy (data !! APP_FIELD) then Ok (default "" (data !! APP_FIELD))
  else
    match app relation with
    | Some remote => Ok remote
    | None =>
        Raise (AttributeError "'NoneType' object has no attribute 'name'")
    end.

Definition from_relation_data (data : gmap string string)
    (relation : Relation) (default_model_name : string)
  : result (option BackupTargetInfo) :=
  let spec_json := data !! SPEC_FIELD in
  if negb (truthy spec_json) then Ok None
  else
    match model_validate_json (default "" spec_json) with
    | Raise _ => Ok None
    | Ok spec =>
        match app_name_of data relation with
        | Raise e => Raise e
        | Ok app_name_value =>
            Ok (Some
                  {| spec := spec;
                     app_name := app_name_value;
                     relation_name :=
                       or_else (data !! RELATION_FIELD) (name relation);
                     model_name :=
                       or_else (data !! MODEL_FIELD) default_model_name;
                     relation := relation |})
        end
    end.

Definition to_velero_spec (self : BackupTargetInfo) (config : CharmConfig.t)
  : result VeleroBackupConfig.VeleroBackupSpec :=
  let spec_dict := BackupTarget.model_dump (spec self) in
  let spec_dict :=
    match CharmConfig.schedule config with
    | Some s =>
        if truthy (Some s) then dict_set "schedule" (Json.JStr s) spec_dict
        else spec_dict
    | None => spec_dict
    end in
  let spec_dict :=
    dict_set "paused" (Json.JBool (CharmConfig.paused config)) spec_dict in
  let spec_dict :=
    dict_set "skip_immediately"
      (Json.JBool (CharmConfig.skip_immediately config)) spec_dict in
  let spec_dict :=
    dict_set "use_owner_references_in_backup"
      (Json.JBool (CharmConfig.use_owner_references_in_backup config))
      spec_dict in
  VeleroBackupConfig.model_validate spec_dict.

Definition to_databag_dict (self : BackupTargetInfo)
    (velero_spec : VeleroBackupConfig.VeleroBackupSpec)
  : list (string * string) :=
  [ (SPEC_FIELD, VeleroBackupConfig.model_dump_json velero_spec);
    (APP_FIELD, app_name self);
    (RELATION_FIELD, relation_name self);
    (MODEL_FIELD, model_name self) ].

End Domain.

(* ===================================================================== *)
(** * src/core/context.py *)
(* ===================================================================== *)

Module Context.
Import Ops Constants Domain.

(** [bool(self.charm.config.get(key))] *)
Definition flag (v : option bool) : bool := default false v.

Definition charm_config (c : Charm) : result CharmConfig.t :=
  CharmConfig.new (cfg_schedule (Ops.config c))
    (flag (cfg_paused (Ops.config c)))
    (flag (cfg_skip_immediately (Ops.config c)))
    (flag (cfg_use_owner_references_in_backup (Ops.config c))).

(** Property [config]: the validated configuration, [None] if invalid. *)
Definition config (c : Charm) : option CharmConfig.t :=
  match charm_config c with
  | Ok cfg => Some cfg
  | Raise _ => None
  end.

Definition error_field (err : ErrorDetails) : string :=
  join "." (map (replace "_" "-") (loc err)).

(** Property [config_errors]. *)
Definition config_errors (c : Charm) : list string :=
  match charm_config c with
  | Ok _ => []
  | Raise (ValidationError errors) => map error_field errors
  | Raise _ => []
  end.

Definition velero_relations (c : Charm) : list Relation :=
  relations_get VELERO_BACKUP_RELATION c.

Definition k8s_backup_relations (c : Charm) : list Relation :=
  relations_get K8S_BACKUP_TARGET_RELATION c.

Definition has_velero_relation (c : Charm) : bool :=
  (0 <? length (velero_relations c))%nat.

Definition has_k8s_backup_relation (c : Charm) : bool :=
  (0 <? length (k8s_backup_relations c))%nat.

(** The loop of [get_backup_targets] over the relations still to visit,
    [targets] being the list built so far. *)
Fixpoint collect_targets (todo : list Relation)
    (targets : list BackupTargetInfo) : M (list BackupTargetInfo) :=
  match todo with
  | [] => ret targets
  | relation :: todo' =>
      match app relation with
      | None => collect_targets todo' targets
      | Some _ =>
          let* remote_data := read_remote_app_data relation in
          let* default_model := gets Ops.model_name in
          let* target :=
            lift (from_relation_data remote_data relation default_model) in
          match target with
          | Some target => collect_targets todo' (targets ++ [target])
          | None => collect_targets todo' targets
          end
      end
  end.

Definition get_backup_targets : M (list BackupTargetInfo) :=
  let* todo := gets k8s_backup_relations in
  collect_targets todo [].

End Context.

(* ===================================================================== *)
(** * src/events/velero_backup.py and src/events/general.py *)
(* ===================================================================== *)

Module Events.
Import Ops Constants Domain.

(** [publish_to_relation(relation)]; the relation is named by its place
    in [velero_relations], [None] standing for the [None] argument. *)
Definition publish_to_relation (relation : option nat) : M unit :=
  let* leader := gets is_leader in
  match relation with
  | None => ret tt
  | Some i =>
      if negb leader then ret tt
      else
        let* config := gets Context.config in
        match config with
        | None => ret tt
        | Some cfg =>
            let* targets := Context.get_backup_targets in
            for_each targets (fun target =>
              let* velero_spec := lift (to_velero_spec target cfg) in
              update_local_app_data VELERO_BACKUP_RELATION i
                (to_databag_dict target velero_spec))
        end
  end.

Definition publish_to_all_relations : M unit :=
  let* leader := gets is_leader in
  if negb leader then ret tt
  else
    let* rs := gets Context.velero_relations in
    for_each (seq 0 (length rs)) (fun i => publish_to_relation (Some i)).

Definition quoted (field : string) : string := "'" +:+ field +:+ "'".

Definition _reconcile : M unit :=
  let* leader := gets is_leader in
  if negb leader then set_unit_status (ActiveStatus "Unit is ready (standby)")
  else
    let* config_errors := gets Context.config_errors in
    match config_errors with
    | _ :: _ =>
        let fields_str := join ", " (map quoted config_errors) in
        set_unit_status (BlockedStatus ("Invalid configuration: " +:+ fields_str))
    | [] =>
        let* has_velero := gets Context.has_velero_relation in
        if negb has_velero
        then set_unit_status (BlockedStatus "Missing relation: velero-backup")
        else
          let* _ := publish_to_all_relations in
          let* has_k8s := gets Context.has_k8s_backup_relation in
          if negb has_k8s
          then set_unit_status
                 (WaitingStatus "Waiting for k8s-backup-target relation")
          else
            let* config := gets Context.config in
            match config with
            | Some cfg =>
                if CharmConfig.is_scheduled cfg then
                  if CharmConfig.is_paused cfg
                  then set_unit_status (ActiveStatus "Schedule paused")
                  else set_unit_status
                         (ActiveStatus
                            ("Schedule: "
                             +:+ default "" (CharmConfig.schedule cfg)))
                else set_unit_status (ActiveStatus "Manual backup mode")
            | None => set_unit_status (ActiveStatus "Manual backup mode")
            end
    end.

End Events.

(* ===================================================================== *)
(** * Notions of the design document *)
(* ===================================================================== *)

Module Design.
Import Re.

(** [w.split(sep)] on a separator class: the pieces between separators,
    empty ones included. *)
Fixpoint split_by (sep : ascii -> bool) (w : word) : list word :=
  match w with
  | [] => [[]]
  | c :: w' =>
      if sep c then [] :: split_by sep w'
      else
        match split_by sep w' with
        | p :: ps => (c :: p) :: ps
        | [] => [[c]]
        end
  end.

Definition nonempty (w : word) : bool :=
  match w with [] => false | _ :: _ => true end.

Definition is_number (w : word) : bool := nonempty w && forallb is_digit w.

(** ** The cron grammar in the words of the design document

    "5 or 6 whitespace-separated fields, each field matching [*], [*/N],
    a number, a number range [A-B], or a comma-separated list of those,
    with [?] supported as an optional suffix for the day/weekday
    fields". The day and the weekday are the third and the fifth field;
    a bare [?] is let through there as well. *)

Definition spec_atom (w : word) : bool :=
  match w with
  | ["*"%char] => true
  | "*"%char :: "/"%char :: n => is_number n
  | _ =>
      match split_by (Ascii.eqb "-") w with
      | [a] => is_number a
      | [a; b] => is_number a && is_number b
      | _ => false
      end
  end.

Definition spec_list (w : word) : bool :=
  forallb spec_atom (split_by (Ascii.eqb ",") w).

Definition spec_field (day_or_weekday : bool) (w : word) : bool :=
  spec_list w
  || (day_or_weekday
      && match rev w with
         | "?"%char :: [] => true
         | "?"%char :: body => spec_list (rev body)
         | _ => false
         end).

Fixpoint spec_fields (position : nat) (fields : list word) : bool :=
  match fields with
  | [] => true
  | f :: fs =>
      spec_field (Nat.eqb position 2 || Nat.eqb position 4) f
      && spec_fields (S position) fs
  end.

Definition spec_cron_grammar (s : string) : bool :=
  let fields := filter (fun f => nonempty f = true)
                  (split_by is_space (list_ascii_of_string s)) in
  (Nat.eqb (length fields) 5 || Nat.eqb (length fields) 6)
  && spec_fields 0 fields.

(** ** The cron grammar the charm accepts

    A field is [*], [*/N], [?], or a comma-separated list of numbers and
    number ranges; an expression is a field followed by 4 or 5 more, each
    after a run of white space, and may be closed by one line feed. *)

Definition number (w : word) : Prop :=
  w <> [] /\ Forall (fun c => is_digit c = true) w.

Definition blank (w : word) : Prop :=
  w <> [] /\ Forall (fun c => is_space c = true) w.

Inductive cron_item : word -> Prop :=
| item_number n : number n -> cron_item n
| item_range a b : number a -> number b -> cron_item (a ++ "-"%char :: b).

Inductive cron_items : word -> Prop :=
| items_last i : cron_item i -> cron_items i
| items_more i l :
    cron_item i -> cron_items l -> cron_items (i ++ ","%char :: l).

Inductive cron_field : word -> Prop :=
| field_every : cron_field ["*"%char]
| field_step n : number n -> cron_field ("*"%char :: "/"%char :: n)
| field_items l : cron_items l -> cron_field l
| field_question : cron_field ["?"%char].

(** [cron_rest k w]: [w] is [k] further fields and the end of the text. *)
Inductive cron_rest : nat -> word -> Prop :=
| rest_end : cron_rest 0 []
| rest_line_feed : cron_rest 0 [newline]
| rest_field k sp f w :
    blank sp -> cron_field f -> cron_rest k w ->
    cron_rest (S k) (sp ++ f ++ w).

Definition cron_expression (s : string) : Prop :=
  exists f w k,
    cron_field f /\ cron_rest k w /\ (k = 4 \/ k = 5)
    /\ list_ascii_of_string s = f ++ w.

(** ** The duration grammar in the words of the design document

    "optional digits+h, optional digits+m, optional digits+s,
    concatenated in that order, at least one digit required
    somewhere". *)

(** Drops a leading group "digits, then [unit]" when there is one. *)
Definition drop_group (unit : ascii) (w : word) : word :=
  match Json.span_digits w with
  | (_ :: _, c :: rest) => if Ascii.eqb c unit then rest else w
  | _ => w
  end.

Definition duration_grammar (s : string) : bool :=
  let w := list_ascii_of_string s in
  existsb is_digit w
  && match drop_group "s" (drop_group "m" (drop_group "h" w)) with
     | [] => true
     | _ :: _ => false
     end.

End Design.

(* ===================================================================== *)
(** * A pass, described by what it reads and writes *)
(* ===================================================================== *)

Module Pass.
Import Ops Constants Domain.
Import VeleroBackupConfig.

(** The merge of section 4.3: the target specification as it is, the
    schedule of the configuration when there is one, and the three
    flags of the configuration. *)
Definition merged (t : BackupTargetInfo) (cfg : CharmConfig.t)
  : VeleroBackupSpec :=
  {| target := spec t;
     schedule :=
       if truthy (CharmConfig.schedule cfg) then CharmConfig.schedule cfg
       else None;
     paused := CharmConfig.paused cfg;
     skip_immediately := CharmConfig.skip_immediately cfg;
     use_owner_references_in_backup :=
       CharmConfig.use_owner_references_in_backup cfg |}.

(** The four databag items published for a target. *)
Definition payload (cfg : CharmConfig.t) (t : BackupTargetInfo)
  : list (string * string) :=
  to_databag_dict t (merged t cfg).

(** The records that a list of upstream relations yields, in order. *)
Fixpoint targets_of (default_model : string) (upstream : list Relation)
  : list BackupTargetInfo :=
  match upstream with
  | [] => []
  | r :: rs =>
      match app r with
      | None => targets_of default_model rs
      | Some _ =>
          match from_relation_data (default ∅ (remote_app_data r)) r
                  default_model with
          | Ok (Some t) => t :: targets_of default_model rs
          | _ => targets_of default_model rs
          end
      end
  end.

(** The reads that building those records takes. *)
Fixpoint reads_of (upstream : list Relation) : list access :=
  match upstream with
  | [] => []
  | r :: rs =>
      match app r with
      | None => reads_of rs
      | Some _ => Read (id r) :: reads_of rs
      end
  end.

(** A downstream relation after the records [ts] were published to it. *)
Definition published (cfg : CharmConfig.t) (ts : list BackupTargetInfo)
    (r : Relation) : Relation :=
  with_local_app_data r
    (foldl (fun bag t => databag_update (payload cfg t) bag)
       (local_app_data r) ts).

(** The accesses of publishing to one downstream relation. *)
Definition publish_accesses (cfg : CharmConfig.t)
    (upstream : list Relation) (ts : list BackupTargetInfo) (r : Relation)
  : list access :=
  reads_of upstream ++ map (fun t => Write (id r) (payload cfg t)) ts.


(** The state after a hook, whatever the hook returns. *)
Definition after {A} (hook : M A) (c : Charm) : Charm := snd (hook c).

(** All relations after the records [ts] were published to every
    downstream relation. *)
Definition published_relations (cfg : CharmConfig.t)
    (ts : list BackupTargetInfo) (all : gmap string (list Relation))
  : gmap string (list Relation) :=
  match all !! VELERO_BACKUP_RELATION with
  | Some rs => <[VELERO_BACKUP_RELATION := map (published cfg ts) rs]> all
  | None => all
  end.

(** The status that closes a pass which went through the publish step. *)
Definition closing_status (cfg : CharmConfig.t) (has_upstream : bool)
  : StatusBase :=
  if negb has_upstream
  then WaitingStatus "Waiting for k8s-backup-target relation"
  else if CharmConfig.is_scheduled cfg then
    if CharmConfig.is_paused cfg then ActiveStatus "Schedule paused"
    else ActiveStatus
           ("Schedule: " +:+ default "" (CharmConfig.schedule cfg))
  else ActiveStatus "Manual backup mode".

(** A state with new databags and a longer log of accesses. *)
Definition moved (rs : gmap string (list Relation)) (log : list access)
    (c : Charm) : Charm :=
  with_relations rs (with_accesses (accesses c ++ log) c).

End Pass.

(* ===================================================================== *)
(** * States taken from the unit tests *)
(* ===================================================================== *)

Module Scenario.
Import Ops Constants.

(** [dq s] is [s] between double quotes. *)
Definition dq (s : string) : string :=
  String Json.quote (s +:+ String Json.quote "").

(** The specification texts of the tests. *)
Definition namespaces_text (ns : string) : string :=
  "{" +:+ dq "include_namespaces" +:+ ": [" +:+ dq ns +:+ "]}".

Definition ttl_text (ttl : string) : string :=
  "{" +:+ dq "ttl" +:+ ": " +:+ dq ttl +:+ "}".

Definition velero_relation : Relation :=
  {| id := 1; name := VELERO_BACKUP_RELATION; app := Some "remote";
     remote_app_data := Some ∅; local_app_data := ∅ |}.

Definition k8s_relation1 : Relation :=
  {| id := 2; name := K8S_BACKUP_TARGET_RELATION; app := Some "app1";
     remote_app_data :=
       Some {[ "app" := "app1";
               "spec" := namespaces_text "ns1" ]};
     local_app_data := ∅ |}.

Definition k8s_relation2 : Relation :=
  {| id := 3; name := K8S_BACKUP_TARGET_RELATION; app := Some "app2";
     remote_app_data :=
       Some {[ "app" := "app2";
               "spec" := namespaces_text "ns2" ]};
     local_app_data := ∅ |}.

(** The relation of [test_get_backup_targets_skips_invalid_spec]. *)
Definition invalid_relation : Relation :=
  {| id := 4; name := K8S_BACKUP_TARGET_RELATION; app := Some "target-app";
     remote_app_data :=
       Some {[ "app" := "target-app"; "spec" := "invalid-json{" ]};
     local_app_data := ∅ |}.

Definition with_schedule (s : string) : ConfigData :=
  {| cfg_schedule := Some s; cfg_paused := Some false;
     cfg_skip_immediately := Some true;
     cfg_use_owner_references_in_backup := Some true |}.

Definition state (leader : bool) (cfg : ConfigData)
    (downstream upstream : list Relation) : Charm :=
  {| is_leader := leader; config := cfg; model_name := "test-model";
     relations :=
       {[ VELERO_BACKUP_RELATION := downstream;
          K8S_BACKUP_TARGET_RELATION := upstream ]};
     unit_status := UnknownStatus; accesses := [] |}.

Definition valid_config : CharmConfig.t :=
  {| CharmConfig.schedule := Some "0 2 * * *";
     CharmConfig.paused := false;
     CharmConfig.skip_immediately := true;
     CharmConfig.use_owner_references_in_backup := true |}.

End Scenario.

(* ===================================================================== *)
(** * backup_target.py: the requirer and the provider *)
(* ===================================================================== *)

Module LibraryCall.

(** How a call into the library ends: with a value, with an exception of
    pydantic, or with the [KeyError] of a mapping lookup. *)
Inductive outcome (A : Type) :=
| Returned (a : A)
| Raised (e : exn)
| RaisedKeyError.
Arguments Returned {A} a.
Arguments Raised {A} e.
Arguments RaisedKeyError {A}.

(** [relation.data.get(relation.app, {})]: the databag of the remote
    application, empty when the relation has none. *)
Definition remote_data (relation : Ops.Relation) : gmap string string :=
  match Ops.app relation with
  | Some _ => default ∅ (Ops.remote_app_data relation)
  | None => ∅
  end.

(** [data.get(SPEC_FIELD, "{}")] *)
Definition spec_text (data : gmap string string) : string :=
  default "{}" (data !! BackupTarget.SPEC_FIELD).

End LibraryCall.

Module BackupTargetRequier.
Import Ops BackupTarget LibraryCall.

Record t := { _relation_name : string }.

(** The condition of the [if] in [get_backup_spec]. *)
Definition names (data : gmap string string) (app_name endpoint model : string)
  : bool :=
  bool_decide (data !! APP_FIELD = Some app_name)
  && bool_decide (data !! MODEL_FIELD = Some model)
  && bool_decide (data !! RELATION_FIELD = Some endpoint).

(** The loop of [get_backup_spec] over the relations still to visit. *)
Fixpoint find_backup_spec (relations : list Relation)
    (app_name endpoint model : string)
  : outcome (option BackupTargetSpec) :=
  match relations with
  | [] => Returned None
  | relation :: rest =>
      let data := remote_data relation in
      if names data app_name endpoint model then
        match model_validate_json (spec_text data) with
        | Ok spec => Returned (Some spec)
        | Raise e => Raised e
        end
      else find_backup_spec rest app_name endpoint model
  end.

(** [self.model.relations[self._relation_name]] raises [KeyError] for an
    endpoint that the charm does not declare. *)
Definition get_backup_spec (self : t) (app_name endpoint model : string)
    (c : Charm) : outcome (option BackupTargetSpec) :=
  match relations c !! _relation_name self with
  | Some rs => find_backup_spec rs app_name endpoint model
  | None => RaisedKeyError
  end.

(** The loop of [get_all_backup_specs]; [relation.data[relation.app]] raises
    [KeyError] when the relation has no remote application. *)
Fixpoint collect_specs (relations : list Relation)
  : outcome (list BackupTargetSpec) :=
  match relations with
  | [] => Returned []
  | relation :: rest =>
      match app relation, remote_app_data relation with
      | Some _, Some data =>
          match model_validate_json (spec_text data) with
          | Ok spec =>
              match collect_specs rest with
              | Returned specs => Returned (spec :: specs)
              | Raised e => Raised e
              | RaisedKeyError => RaisedKeyError
              end
          | Raise e => Raised e
          end
      | _, _ => RaisedKeyError
      end
  end.

Definition get_all_backup_specs (self : t) (c : Charm)
  : outcome (list BackupTargetSpec) :=
  match relations c !! _relation_name self with
  | Some rs => collect_specs rs
  | None => RaisedKeyError
  end.

End BackupTargetRequier.

Module BackupTargetProvider.
Import Ops BackupTarget.

(** The attributes that [__init__] stores: the name of the application and
    of its model, the endpoint and the specification to send. *)
Record t := {
  _app_name : string;
  _model : string;
  _relation_name : string;
  _spec : BackupTargetSpec
}.

(** The dictionary that [_send_data] passes to [update]. *)
Definition sent_items (self : t) : list (string * string) :=
  [ (MODEL_FIELD, _model self);
    (APP_FIELD, _app_name self);
    (RELATION_FIELD, _relation_name self);
    (SPEC_FIELD, model_dump_json (_spec self)) ].

Definition _send_data (self : t) : M unit :=
  let* leader := gets is_leader in
  if negb leader then ret tt
  else
    let* found := gets (fun c => relations c !! _relation_name self) in
    match found with
    | None => ret tt
    | Some [] => ret tt
    | Some rs =>
        for_each (seq 0 (length rs))
          (fun i => update_local_app_data (_relation_name self) i
                      (sent_items self))
    end.

End BackupTargetProvider.

(* ===================================================================== *)
(** * tests/integration/test-app/src/charm.py *)
(* ===================================================================== *)

Module TestApp.
Import BackupTarget.

Definition RELATION_NAME := "backup-config".

(** The specification that [TestAppCharm.__init__] builds from its
    options [namespace] and [ttl]. *)
Definition spec (namespace ttl_option : string) : BackupTargetSpec :=
  {| include_namespaces := Some [namespace];
     include_resources := Some ["deployments"; "configmaps"; "secrets"];
     exclude_namespaces := None;
     exclude_resources := None;
     label_selector := None;
     ttl := Some ttl_option;
     include_cluster_resources := None |}.

(** [self._backup_provider] of the application [app_name] deployed in the
    model [model]. *)
Definition _backup_provider (app_name model namespace ttl_option : string)
  : BackupTargetProvider.t :=
  {| BackupTargetProvider._app_name := app_name;
     BackupTargetProvider._model := model;
     BackupTargetProvider._relation_name := RELATION_NAME;
     BackupTargetProvider._spec := spec namespace ttl_option |}.

End TestApp.

(* ===================================================================== *)
(** * Words for what a pass leaves behind *)
(* ===================================================================== *)

Module Observe.
Import Ops Re.

(** The four keys of a published record. *)
Definition record_keys : list string :=
  [ Domain.SPEC_FIELD; Domain.APP_FIELD; Domain.RELATION_FIELD;
    Domain.MODEL_FIELD ].

(** What a databag holds under a key after [v] was assigned to it. *)
Definition stored (v : string) : option string :=
  if String.eqb v "" then None else Some v.

Definition is_write (a : access) : bool :=
  match a with Write _ _ => true | Read _ => false end.

Definition is_read (a : access) : bool :=
  match a with Read _ => true | Write _ _ => false end.

Definition has_app (r : Relation) : bool :=
  match app r with Some _ => true | None => false end.

(** What of a relation is not its own application's databag. *)
Definition frame (r : Relation)
  : nat * string * option string * option (gmap string string) :=
  (id r, name r, app r, remote_app_data r).

(** The state that a pass leaves when it goes through the publish step:
    the databags of the downstream relations hold the records of the pass,
    the log has the accesses of each downstream relation in turn, and the
    status closes the pass. *)
Definition published_state (cfg : CharmConfig.t) (c : Charm) : Charm :=
  with_unit_status
    (Pass.closing_status cfg (Context.has_k8s_backup_relation c))
    (Pass.moved
       (Pass.published_relations cfg
          (Pass.targets_of (Ops.model_name c) (Context.k8s_backup_relations c))
          (relations c))
       (concat
          (map (Pass.publish_accesses cfg (Context.k8s_backup_relations c)
                  (Pass.targets_of (Ops.model_name c)
                     (Context.k8s_backup_relations c)))
             (Context.velero_relations c)))
       c).

(** A relation after [items] were assigned to the databag of its own
    application. *)
Definition updated (items : list (string * string)) (r : Relation)
  : Relation :=
  with_local_app_data r (databag_update items (local_app_data r)).

(** The specification with every field absent. *)
Definition empty_spec : BackupTarget.BackupTargetSpec :=
  {| BackupTarget.include_namespaces := None;
     BackupTarget.include_resources := None;
     BackupTarget.exclude_namespaces := None;
     BackupTarget.exclude_resources := None;
     BackupTarget.label_selector := None;
     BackupTarget.ttl := None;
     BackupTarget.include_cluster_resources := None |}.

(** The characters of the schedules that the configuration accepts. *)
Definition cron_char (c : ascii) : bool :=
  is_digit c || is_space c
  || Ascii.eqb c "*" || Ascii.eqb c "/" || Ascii.eqb c "-"
  || Ascii.eqb c "," || Ascii.eqb c "?".

Definition all_cron (w : word) : Prop :=
  Forall (fun c => cron_char c = true) w.

(** One group of a duration: digits, then the unit. *)
Definition duration_group (unit : ascii) (w : word) : Prop :=
  exists n, Design.number n /\ w = n ++ [unit].

(** [w] is [g] or empty. *)
Definition optional (g : word -> Prop) (w : word) : Prop := g w \/ w = [].

(** The texts that [DURATION_REGEX] matches: hours, minutes and seconds
    groups in that order, each optional but not all absent, and at most
    one closing line feed. *)
Definition duration_text (s : string) : Prop :=
  exists h m sec tail,
    optional (duration_group "h") h
    /\ optional (duration_group "m") m
    /\ optional (duration_group "s") sec
    /\ (tail = [] \/ tail = [newline])
    /\ h ++ m ++ sec <> []
    /\ list_ascii_of_string s = h ++ m ++ sec ++ tail.

End Observe.

(* ===================================================================== *)
(** * Facts about the matcher *)
(* ===================================================================== *)

Module ReFacts.
Import Re.

Lemma matches_cat r1 r2 w :
  matches (Cat r1 r2) w <->
  exists w1 w2, w = w1 ++ w2 /\ matches r1 w1 /\ matches r2 w2.
Proof.
  split.
  - inversion 1; subst. eauto.
  - intros (w1 & w2 & -> & H1 & H2). constructor; assumption.
Qed.

Lemma nullable_matches r : nullable r = true <-> matches r [].
Proof.
  induction r; simpl.
  - split; [discriminate | inversion 1].
  - split; [constructor | reflexivity].
  - split; [discriminate | inversion 1].
  - rewrite andb_true_iff, IHr1, IHr2, matches_cat. split.
    + intros [H1 H2]. exists [], []. auto.
    + intros (w1 & w2 & Heq & H1 & H2). symmetry in Heq.
      apply app_eq_nil in Heq as [-> ->]. auto.
  - rewrite orb_true_iff, IHr1, IHr2. split.
    + intros [H|H]; [apply m_alt_l | apply m_alt_r]; assumption.
    + inversion 1; subst; auto.
  - split; [constructor | reflexivity].
  - rewrite andb_true_iff, IHr1, IHr2. split.
    + intros [H1 H2]. constructor; assumption.
    + inversion 1; subst; auto.
Qed.

(** A non-empty match of a starred pattern begins with a non-empty match
    of its body. *)
Lemma star_cons_inv r c w :
  matches (Star r) (c :: w) ->
  exists w1 w2, w = w1 ++ w2 /\ matches r (c :: w1) /\ matches (Star r) w2.
Proof.
  intros H. remember (Star r) as sr eqn:Hsr. remember (c :: w) as cw eqn:Hcw.
  revert w Hcw. induction H as [ | | | | | |r' u1 u2 H1 _ H2 IH2| ];
    intros v Hcw; try discriminate.
  injection Hsr as ->. destruct u1 as [|c1 u1]; simpl in Hcw.
  - subst. apply IH2; reflexivity.
  - injection Hcw as Hc Hv. subst. exists u1, u2. auto.
Qed.

Lemma matches_alt_inv r1 r2 w :
  matches (Alt r1 r2) w -> matches r1 w \/ matches r2 w.
Proof. inversion 1; subst; auto. Qed.

Lemma deriv_matches c r w : matches (deriv c r) w <-> matches r (c :: w).
Proof.
  revert w. induction r; intros w; simpl.
  - split; inversion 1.
  - split; inversion 1.
  - destruct (p c) eqn:Hp; split; intros H.
    + inversion H; subst. constructor. assumption.
    + inversion H; subst. constructor.
    + inversion H.
    + inversion H; subst. congruence.
  - destruct (nullable r1) eqn:Hn; split; intros H.
    + apply matches_alt_inv in H as [H|H].
      * apply matches_cat in H as (w1 & w2 & -> & H1 & H2).
        apply (m_cat _ _ (c :: w1)); [apply IHr1 | ]; assumption.
      * apply (m_cat _ _ []); [apply nullable_matches; assumption | ].
        apply IHr2. assumption.
    + apply matches_cat in H as (w1 & w2 & Heq & H1 & H2).
      destruct w1 as [|c1 w1]; simpl in Heq.
      * subst. apply m_alt_r. apply IHr2. assumption.
      * injection Heq as -> ->. apply m_alt_l. constructor; [apply IHr1 | ];
          assumption.
    + apply matches_cat in H as (w1 & w2 & -> & H1 & H2).
      apply (m_cat _ _ (c :: w1)); [apply IHr1 | ]; assumption.
    + apply matches_cat in H as (w1 & w2 & Heq & H1 & H2).
      destruct w1 as [|c1 w1]; simpl in Heq.
      * apply nullable_matches in H1. congruence.
      * injection Heq as -> ->. constructor; [apply IHr1 | ]; assumption.
  - split; intros H; inversion H; subst.
    + apply m_alt_l, IHr1; assumption.
    + apply m_alt_r, IHr2; assumption.
    + apply m_alt_l, IHr1; assumption.
    + apply m_alt_r, IHr2; assumption.
  - split; intros H.
    + apply matches_cat in H as (w1 & w2 & -> & H1 & H2).
      apply (m_star_app _ (c :: w1)); [apply IHr | ]; assumption.
    + apply star_cons_inv in H as (w1 & w2 & -> & H1 & H2).
      constructor; [apply IHr | ]; assumption.
  - split; intros H; inversion H; subst; constructor;
      try (apply IHr1; assumption); apply IHr2; assumption.
Qed.

Lemma accepts_matches r w : accepts r w = true <-> matches r w.
Proof.
  revert r. induction w as [|c w IH]; intros r; simpl.
  - apply nullable_matches.
  - rewrite IH. apply deriv_matches.
Qed.

Lemma accepts_false r w : accepts r w = false <-> ~ matches r w.
Proof.
  rewrite <- accepts_matches. destruct (accepts r w); split; congruence.
Qed.

(** ** Pattern syntax *)

Lemma matches_eps w : matches Eps w <-> w = [].
Proof. split; [inversion 1; reflexivity | intros ->; constructor]. Qed.

Lemma matches_class p w :
  matches (Class p) w <-> exists c, w = [c] /\ p c = true.
Proof.
  split.
  - inversion 1; subst. eauto.
  - intros (c & -> & H). constructor. assumption.
Qed.

Lemma matches_lit a w : matches (Lit a) w <-> w = [a].
Proof.
  unfold Lit. rewrite matches_class. split.
  - intros (c & -> & H). apply Ascii.eqb_eq in H. congruence.
  - intros ->. exists a. split; [reflexivity | apply Ascii.eqb_refl].
Qed.

Lemma matches_alt r1 r2 w :
  matches (Alt r1 r2) w <-> matches r1 w \/ matches r2 w.
Proof.
  split; [apply matches_alt_inv | ].
  intros [H|H]; [apply m_alt_l | apply m_alt_r]; assumption.
Qed.

Lemma matches_and r1 r2 w :
  matches (And r1 r2) w <-> matches r1 w /\ matches r2 w.
Proof.
  split.
  - inversion 1; subst; auto.
  - intros [H1 H2]. constructor; assumption.
Qed.

Lemma matches_opt r w : matches (Opt r) w <-> matches r w \/ w = [].
Proof. unfold Opt. rewrite matches_alt, matches_eps. reflexivity. Qed.

Lemma matches_star_class p w :
  matches (Star (Class p)) w <-> Forall (fun c => p c = true) w.
Proof.
  split.
  - induction w as [|c w IH]; intros H; [constructor | ].
    apply star_cons_inv in H as (w1 & w2 & -> & H1 & H2).
    apply matches_class in H1 as (c' & Heq & Hp).
    injection Heq as -> ->. constructor; [assumption | ].
    apply IH. assumption.
  - induction 1 as [|c w Hc _ IH]; [constructor | ].
    apply (m_star_app _ [c]); [constructor | ]; assumption.
Qed.

Lemma matches_plus_class p w :
  matches (Plus (Class p)) w <->
  w <> [] /\ Forall (fun c => p c = true) w.
Proof.
  unfold Plus. rewrite matches_cat. split.
  - intros (w1 & w2 & -> & H1 & H2).
    apply matches_class in H1 as (c & -> & Hp).
    apply matches_star_class in H2. split; [discriminate | ].
    constructor; assumption.
  - intros [Hne H]. destruct H as [|c w Hc H]; [congruence | ].
    exists [c], w. repeat split.
    + constructor. assumption.
    + apply matches_star_class. assumption.
Qed.

(** The subject of a successful [re_match]. *)
Lemma re_match_matches pattern s :
  re_match pattern s = true <-> matches pattern (list_ascii_of_string s).
Proof. apply accepts_matches. Qed.

End ReFacts.

(* ===================================================================== *)
(** * The language of [CRON_REGEX] *)
(* ===================================================================== *)

Module CronFacts.
Import Re ReFacts CharmConfig Design.

Lemma digits_number w : matches (Plus digit) w <-> number w.
Proof. apply matches_plus_class. Qed.

Lemma spaces_blank w : matches (Plus (Class is_space)) w <-> blank w.
Proof. apply matches_plus_class. Qed.

Lemma cron_numbers_item w : matches CRON_NUMBERS w <-> cron_item w.
Proof.
  unfold CRON_NUMBERS. rewrite matches_cat. split.
  - intros (a & t & -> & Ha & Ht). apply digits_number in Ha.
    apply matches_opt in Ht as [Ht| ->].
    + apply matches_cat in Ht as (d & b & -> & Hd & Hb).
      apply matches_lit in Hd as ->. apply digits_number in Hb.
      apply item_range; assumption.
    + rewrite app_nil_r. apply item_number. assumption.
  - intros [n Hn|a b Ha Hb].
    + exists n, []. rewrite app_nil_r. repeat split.
      * apply digits_number. assumption.
      * apply matches_opt. right. reflexivity.
    + exists a, ("-"%char :: b). repeat split.
      * apply digits_number. assumption.
      * apply matches_opt. left. apply (m_cat _ _ ["-"%char] b).
        -- apply matches_lit. reflexivity.
        -- apply digits_number. assumption.
Qed.

Lemma more_numbers_items w :
  matches MORE_NUMBERS w ->
  forall i, cron_item i -> cron_items (i ++ w).
Proof.
  unfold MORE_NUMBERS. intros H.
  remember (Star (Cat (Lit ",") CRON_NUMBERS)) as sr eqn:Hsr.
  induction H as [ | | | | |r'|r' u1 u2 H1 _ H2 IH2| ]; try discriminate.
  - intros i Hi. rewrite app_nil_r. apply items_last. assumption.
  - injection Hsr as ->. intros i Hi.
    apply matches_cat in H1 as (d & j & -> & Hd & Hj).
    apply matches_lit in Hd as ->. apply cron_numbers_item in Hj.
    change (cron_items (i ++ ","%char :: j ++ u2)).
    apply items_more; [assumption | ]. apply IH2; [reflexivity | assumption].
Qed.

Lemma items_more_numbers l :
  cron_items l ->
  exists i w, l = i ++ w /\ cron_item i /\ matches MORE_NUMBERS w.
Proof.
  induction 1 as [i Hi|i l Hi _ (j & w & -> & Hj & Hw)].
  - exists i, []. rewrite app_nil_r. repeat split; [assumption | ].
    apply m_star_nil.
  - exists i, ((","%char :: j) ++ w). repeat split; [assumption | ].
    apply m_star_app; [ | assumption ].
    apply (m_cat _ _ [","%char] j).
    + apply matches_lit. reflexivity.
    + apply cron_numbers_item. assumption.
Qed.

Lemma cron_field_matches w : matches CRON_FIELD w <-> cron_field w.
Proof.
  unfold CRON_FIELD. rewrite !matches_alt. split.
  - intros [H|[H|[H|H]]].
    + apply matches_lit in H as ->. apply field_every.
    + apply matches_cat in H as (a & t & -> & Ha & Ht).
      apply matches_lit in Ha as ->.
      apply matches_cat in Ht as (b & n & -> & Hb & Hn).
      apply matches_lit in Hb as ->. apply digits_number in Hn.
      apply field_step. assumption.
    + apply matches_cat in H as (i & t & -> & Hi & Ht).
      apply cron_numbers_item in Hi. apply field_items.
      apply more_numbers_items; assumption.
    + apply matches_lit in H as ->. apply field_question.
  - intros [ |n Hn|l Hl| ].
    + left. apply matches_lit. reflexivity.
    + right. left. apply (m_cat _ _ ["*"%char] ("/"%char :: n)).
      * apply matches_lit. reflexivity.
      * apply (m_cat _ _ ["/"%char] n).
        -- apply matches_lit. reflexivity.
        -- apply digits_number. assumption.
    + right. right. left.
      apply items_more_numbers in Hl as (i & w' & -> & Hi & Hw).
      constructor; [apply cron_numbers_item | ]; assumption.
    + right. right. right. apply matches_lit. reflexivity.
Qed.

Lemma next_field_matches w :
  matches NEXT_FIELD w <->
  exists sp f, w = sp ++ f /\ blank sp /\ cron_field f.
Proof.
  unfold NEXT_FIELD. rewrite matches_cat.
  split; intros (sp & f & -> & Hsp & Hf); exists sp, f; repeat split;
    try (apply spaces_blank; assumption);
    apply cron_field_matches; assumption.
Qed.

Lemma dollar_rest w : matches Dollar w <-> cron_rest 0 w.
Proof.
  unfold Dollar. rewrite matches_opt, matches_lit. split.
  - intros [-> | ->]; constructor.
  - inversion 1; subst; auto.
Qed.

Lemma times_then_rest n w1 w2 k :
  matches (Times n NEXT_FIELD) w1 -> cron_rest k w2 ->
  cron_rest (n + k) (w1 ++ w2).
Proof.
  revert w1. induction n as [|n IH]; simpl; intros w1 H1 H2.
  - apply matches_eps in H1 as ->. assumption.
  - apply matches_cat in H1 as (a & b & -> & Ha & Hb).
    apply next_field_matches in Ha as (sp & f & -> & Hsp & Hf).
    rewrite <- !app_assoc. apply rest_field; auto.
Qed.

Lemma rest_times_then n k w :
  cron_rest (n + k) w ->
  exists w1 w2,
    w = w1 ++ w2 /\ matches (Times n NEXT_FIELD) w1 /\ cron_rest k w2.
Proof.
  revert w. induction n as [|n IH]; simpl; intros w H.
  - exists [], w. repeat split; [constructor | assumption].
  - inversion H as [ | |k' sp f w' Hsp Hf Hw' Hk Hw]; subst.
    apply IH in Hw' as (w1 & w2 & -> & H1 & H2).
    exists ((sp ++ f) ++ w1), w2. repeat split.
    + rewrite <- !app_assoc. reflexivity.
    + constructor; [ | assumption].
      apply next_field_matches. eauto.
    + assumption.
Qed.

Lemma fields_then_dollar w :
  matches (Cat (Between 4 5 NEXT_FIELD) Dollar) w <->
  exists k, (k = 4 \/ k = 5) /\ cron_rest k w.
Proof.
  unfold Between. change (5 - 4) with 1.
  change (Times 1 (Opt NEXT_FIELD)) with (Cat (Opt NEXT_FIELD) Eps).
  split.
  - intros H. apply matches_cat in H as (u & d & -> & Hu & Hd).
    apply dollar_rest in Hd.
    apply matches_cat in Hu as (a & t & -> & Ha & Ht).
    apply matches_cat in Ht as (b & e & -> & Hb & He).
    apply matches_eps in He as ->. rewrite app_nil_r.
    apply matches_opt in Hb as [Hb| ->].
    + exists 5. split; [auto | ]. rewrite <- app_assoc.
      apply (times_then_rest 4 a (b ++ d) 1); [assumption | ].
      apply next_field_matches in Hb as (sp & f & -> & Hsp & Hf).
      rewrite <- app_assoc. apply rest_field; assumption.
    + exists 4. split; [auto | ]. rewrite app_nil_r.
      apply (times_then_rest 4 a d 0); assumption.
  - intros (k & [-> | ->] & H).
    + apply (rest_times_then 4 0) in H as (w1 & w2 & -> & H1 & H2).
      constructor; [ | apply dollar_rest; assumption].
      rewrite <- (app_nil_r w1). constructor; [assumption | ].
      apply (m_cat _ _ [] []); [ | constructor].
      apply matches_opt. right. reflexivity.
    + apply (rest_times_then 4 1) in H as (w1 & w2 & -> & H1 & H2).
      inversion H2 as [ | |k' sp f w' Hsp Hf Hw' Hk Hw]; subst.
      replace (w1 ++ sp ++ f ++ w') with ((w1 ++ ((sp ++ f) ++ [])) ++ w')
        by (rewrite app_nil_r, <- !app_assoc; reflexivity).
      constructor; [ | apply dollar_rest; assumption].
      constructor; [assumption | ].
      constructor; [ | constructor].
      apply matches_opt. left. apply next_field_matches. eauto.
Qed.

(** [re.match(CRON_REGEX, s)] succeeds exactly on the cron expressions. *)
Lemma cron_regex_expression s :
  re_match CRON_REGEX s = true <-> cron_expression s.
Proof.
  rewrite re_match_matches. unfold CRON_REGEX, cron_expression.
  rewrite matches_cat. split.
  - intros (f & w & Heq & Hf & Hw).
    apply cron_field_matches in Hf.
    apply fields_then_dollar in Hw as (k & Hk & Hw).
    exists f, w, k. auto.
  - intros (f & w & k & Hf & Hw & Hk & Heq).
    exists f, w. repeat split; [assumption | | ].
    + apply cron_field_matches. assumption.
    + apply fields_then_dollar. eauto.
Qed.

End CronFacts.

(* ===================================================================== *)
(** * Schedule configuration *)
(* ===================================================================== *)

Module ConfigFacts.
Import Re ReFacts CharmConfig Design.

Lemma blank_string_nonempty s : s <> "" -> blank_string (Some s) = Some s.
Proof.
  intros Hs. unfold blank_string.
  destruct (String.eqb s "") eqn:E; [ | reflexivity].
  apply String.eqb_eq in E. contradiction.
Qed.

Lemma truthy_nonempty s : s <> "" -> truthy (Some s) = true.
Proof.
  intros Hs. unfold truthy.
  destruct (String.eqb s "") eqn:E; [ | reflexivity].
  apply String.eqb_eq in E. contradiction.
Qed.

(** The outcome of construction, by cases on the raw schedule. *)
Lemma new_absent p k o :
  new None p k o
  = Ok {| schedule := None; paused := p; skip_immediately := k;
          use_owner_references_in_backup := o |}.
Proof. reflexivity. Qed.

Lemma new_accepts s p k o :
  s <> "" -> re_match CRON_REGEX s = true ->
  new (Some s) p k o
  = Ok {| schedule := Some s; paused := p; skip_immediately := k;
          use_owner_references_in_backup := o |}.
Proof.
  intros Hs Hm. unfold new. rewrite (blank_string_nonempty s Hs).
  unfold validate_schedule. cbn [schedule].
  rewrite Hm, andb_false_r. reflexivity.
Qed.

Lemma new_refuses s p k o :
  s <> "" -> re_match CRON_REGEX s = false ->
  new (Some s) p k o
  = Raise (ValidationError
             [ {| loc := [];
                  msg := "Value error, " +:+ invalid_cron_message s |} ]).
Proof.
  intros Hs Hm. unfold new. rewrite (blank_string_nonempty s Hs).
  unfold validate_schedule. cbn [schedule].
  rewrite Hm, (truthy_nonempty s Hs). reflexivity.
Qed.

(** Construction only ever fails with the single error of the model
    validator. *)
Lemma new_raise_inv s p k o e :
  new s p k o = Raise e ->
  exists x, s = Some x /\ x <> ""
    /\ e = ValidationError
             [ {| loc := [];
                  msg := "Value error, " +:+ invalid_cron_message x |} ].
Proof.
  destruct s as [x|]; [ | rewrite new_absent; discriminate].
  destruct (String.eqb x "") eqn:E.
  - apply String.eqb_eq in E as ->. discriminate.
  - apply String.eqb_neq in E.
    destruct (re_match CRON_REGEX x) eqn:Hm.
    + rewrite (new_accepts x p k o E Hm). discriminate.
    + rewrite (new_refuses x p k o E Hm). intros [= <-]. eauto.
Qed.

(** A constructed configuration never holds the empty schedule. *)
Lemma new_schedule_truthy s p k o c :
  new s p k o = Ok c -> truthy (schedule c) = is_scheduled c.
Proof.
  destruct s as [x|]; [ | rewrite new_absent; intros [= <-]; reflexivity].
  destruct (String.eqb x "") eqn:E.
  - apply String.eqb_eq in E as ->. intros [= <-]. reflexivity.
  - apply String.eqb_neq in E.
    destruct (re_match CRON_REGEX x) eqn:Hm.
    + rewrite (new_accepts x p k o E Hm). intros [= <-].
      simpl. apply truthy_nonempty. assumption.
    + rewrite (new_refuses x p k o E Hm). discriminate.
Qed.

End ConfigFacts.

(** C5, as stated, fails: the schedule ["? * * * *"] puts [?] in the minute
    field, which the grammar of the design document does not allow, and
    the configuration is constructed all the same; and ["0 0 1? * *"],
    where [?] follows the day as a suffix, is in that grammar and is
    refused. *)
Lemma C5_question_mark_in_minute_field :
  ("? * * * *" <> ""
   /\ Design.spec_cron_grammar "? * * * *" = false
   /\ CharmConfig.new (Some "? * * * *") false false false
      = Ok {| CharmConfig.schedule := Some "? * * * *";
              CharmConfig.paused := false;
              CharmConfig.skip_immediately := false;
              CharmConfig.use_owner_references_in_backup := false |})
  /\ ("0 0 1? * *" <> ""
      /\ Design.spec_cron_grammar "0 0 1? * *" = true
      /\ is_ok (CharmConfig.new (Some "0 0 1? * *") false false false)
         = false).
Proof.
  split; (split; [discriminate | split; vm_compute; reflexivity]).
Qed.

(** C5 (amended): for every non-empty schedule string, construction
    succeeds, keeping the string, if and only if the string is a cron
    expression in the sense of [Design.cron_expression]: 5 or 6 fields, each
    [*], [*/N], [?] or a comma-separated list of numbers and ranges [A-B],
    the fields after the first each preceded by white space, with at most
    one closing line feed. Otherwise construction fails with a validation
    error whose message carries the offending value. *)
Theorem C5_schedule_accepted_iff_cron_expression (s : string) (p k o : bool) :
  s <> "" ->
  (Design.cron_expression s ->
   CharmConfig.new (Some s) p k o
   = Ok {| CharmConfig.schedule := Some s; CharmConfig.paused := p;
           CharmConfig.skip_immediately := k;
           CharmConfig.use_owner_references_in_backup := o |})
  /\ (~ Design.cron_expression s ->
      CharmConfig.new (Some s) p k o
      = Raise (ValidationError
                 [ {| loc := [];
                      msg := "Value error, Invalid cron expression: " +:+ s
                             +:+ ". Expected format: '* * * * *' "
                             +:+ "(min hour day month weekday)" |} ])).
Proof.
  intros Hs. split; intros H.
  - apply ConfigFacts.new_accepts; [assumption | ].
    apply CronFacts.cron_regex_expression. assumption.
  - rewrite ConfigFacts.new_refuses; [reflexivity | assumption | ].
    destruct (Re.re_match CharmConfig.CRON_REGEX s) eqn:E; [ | reflexivity].
    apply CronFacts.cron_regex_expression in E. contradiction.
Qed.

Lemma C5_schedule_accepted_witness :
  "0 2 * * *" <> ""
  /\ Design.cron_expression "0 2 * * *"
  /\ CharmConfig.new (Some "0 2 * * *") true false false
     = Ok {| CharmConfig.schedule := Some "0 2 * * *";
             CharmConfig.paused := true;
             CharmConfig.skip_immediately := false;
             CharmConfig.use_owner_references_in_backup := false |}.
Proof.
  assert (Hs : "0 2 * * *" <> "") by discriminate.
  assert (He : Design.cron_expression "0 2 * * *").
  { apply CronFacts.cron_regex_expression. vm_compute. reflexivity. }
  split; [exact Hs | split; [exact He | ]].
  exact (proj1 (C5_schedule_accepted_iff_cron_expression
                  "0 2 * * *" true false false Hs) He).
Defined.

(** C6: constructing a configuration with the empty string as schedule
    succeeds and leaves the schedule absent; and on every configuration
    [is_scheduled] holds exactly when the schedule is present, and
    [is_paused] exactly when it is scheduled and [paused] is set. *)
Theorem C6_empty_schedule_is_absent_and_derived_properties :
  (forall p k o,
      CharmConfig.new (Some "") p k o
      = Ok {| CharmConfig.schedule := None; CharmConfig.paused := p;
              CharmConfig.skip_immediately := k;
              CharmConfig.use_owner_references_in_backup := o |})
  /\ (forall c,
        CharmConfig.is_scheduled c = true <-> CharmConfig.schedule c <> None)
  /\ (forall c,
        CharmConfig.is_paused c
        = CharmConfig.is_scheduled c && CharmConfig.paused c).
Proof.
  split; [reflexivity | split].
  - intros [[s|] p k o]; simpl; split; intros H;
      [discriminate | reflexivity | discriminate | exfalso; apply H; reflexivity].
  - intros c. unfold CharmConfig.is_paused. apply andb_comm.
Qed.

(* ===================================================================== *)
(** * Target specifications and the merge *)
(* ===================================================================== *)

Module SpecFacts.
Import Json BackupTarget.

Lemma validate_list_str_dump l :
  validate_list_str (dump_list_str l) = Some l.
Proof.
  unfold dump_list_str. simpl.
  induction l as [|s l IH]; simpl; [reflexivity | ]. rewrite IH. reflexivity.
Qed.

Lemma validate_dict_str_dump d :
  validate_dict_str (dump_dict_str d) = Some d.
Proof.
  unfold dump_dict_str. simpl.
  induction d as [|[k v] d IH]; simpl; [reflexivity | ].
  rewrite IH. reflexivity.
Qed.

(** A field whose key holds the dump of [o] validates to [o]. *)
Lemma optional_field_dump {A} name expected validate (f : A -> json) d o :
  dict_get name d = Some (dump_option f o) ->
  (forall a, validate (f a) = Some a) ->
  (forall a, f a <> JNull) ->
  optional_field name expected validate d = ([], o).
Proof.
  intros Hget Hval Hnull. unfold optional_field. rewrite Hget.
  destruct o as [a|]; simpl; [ | reflexivity].
  specialize (Hnull a). rewrite Hval.
  destruct (f a); congruence.
Qed.

(** A dictionary that holds the dump of [x] under the seven field names
    validates to [x]. *)
Lemma fields_of_dict_dump d x :
  (forall k v, In (k, v) (model_dump x) -> dict_get k d = Some v) ->
  fields_of_dict d = Ok x.
Proof.
  intros H. unfold fields_of_dict.
  rewrite (optional_field_dump "include_namespaces" _ _ dump_list_str d
             (include_namespaces x));
    [ | apply H; simpl; tauto | apply validate_list_str_dump | discriminate].
  rewrite (optional_field_dump "include_resources" _ _ dump_list_str d
             (include_resources x));
    [ | apply H; simpl; tauto | apply validate_list_str_dump | discriminate].
  rewrite (optional_field_dump "exclude_namespaces" _ _ dump_list_str d
             (exclude_namespaces x));
    [ | apply H; simpl; tauto | apply validate_list_str_dump | discriminate].
  rewrite (optional_field_dump "exclude_resources" _ _ dump_list_str d
             (exclude_resources x));
    [ | apply H; simpl; tauto | apply validate_list_str_dump | discriminate].
  rewrite (optional_field_dump "label_selector" _ _ dump_dict_str d
             (label_selector x));
    [ | apply H; simpl; tauto | apply validate_dict_str_dump | discriminate].
  rewrite (optional_field_dump "ttl" _ _ JStr d (ttl x));
    [ | apply H; simpl; tauto | reflexivity | discriminate].
  rewrite (optional_field_dump "include_cluster_resources" _ _ JBool d
             (include_cluster_resources x));
    [ | apply H; simpl; tauto | reflexivity | discriminate].
  destruct x; reflexivity.
Qed.

End SpecFacts.

Module MergeFacts.
Import Json BackupTarget Domain Pass.

(** [to_velero_spec] never raises, and its result is the merge. *)
Lemma to_velero_spec_merged t cfg : to_velero_spec t cfg = Ok (merged t cfg).
Proof.
  unfold to_velero_spec, merged, VeleroBackupConfig.model_validate.
  set (d := dict_set "use_owner_references_in_backup" _ _).
  assert (Hd : fields_of_dict d = Ok (spec t)).
  { apply SpecFacts.fields_of_dict_dump. subst d.
    intros k v Hin. simpl in Hin.
    destruct (CharmConfig.schedule cfg) as [s|]; [destruct (truthy (Some s)) | ];
      repeat (destruct Hin as [[= <- <-]|Hin]; [reflexivity | ]);
      contradiction. }
  rewrite Hd. subst d.
  destruct (CharmConfig.schedule cfg) as [s|] eqn:Hs;
    [destruct (truthy (Some s)) eqn:Ht | ]; reflexivity.
Qed.

End MergeFacts.

(** C3: the code departs from the claim. The ttl ["abc"] is outside the
    duration grammar, and the check that the class defines for it,
    [__post_init__], raises on it; yet constructing the specification with
    that ttl, directly or from JSON text, succeeds, because the check is
    never run. *)
Theorem C3_invalid_ttl_is_accepted :
  let x := {| BackupTarget.include_namespaces := None;
              BackupTarget.include_resources := None;
              BackupTarget.exclude_namespaces := None;
              BackupTarget.exclude_resources := None;
              BackupTarget.label_selector := None;
              BackupTarget.ttl := Some "abc";
              BackupTarget.include_cluster_resources := None |} in
  Design.duration_grammar "abc" = false
  /\ BackupTarget.new None None None None None (Some "abc") None = Ok x
  /\ BackupTarget.model_validate_json (Scenario.ttl_text "abc") = Ok x
  /\ BackupTarget.__post_init__ x
     = Raise (ValueError
                "Invalid TTL format: abc. Expected format: '24h', '10h10m10s', etc.").
Proof. repeat split; vm_compute; reflexivity. Qed.

(** C4: for every target record and every constructed configuration, the
    merge succeeds; the target specification is carried over as it is, the
    schedule of the result is the schedule of the configuration (present
    only when the configuration has one), and the three flags are those of
    the configuration. *)
Theorem C4_merge_copies_spec_and_takes_schedule_settings
    (t : Domain.BackupTargetInfo)
    (s : option string) (p k o : bool) (cfg : CharmConfig.t) :
  CharmConfig.new s p k o = Ok cfg ->
  exists out,
    Domain.to_velero_spec t cfg = Ok out
    /\ VeleroBackupConfig.target out = Domain.spec t
    /\ VeleroBackupConfig.schedule out = CharmConfig.schedule cfg
    /\ (CharmConfig.schedule cfg = None -> VeleroBackupConfig.schedule out = None)
    /\ VeleroBackupConfig.paused out = CharmConfig.paused cfg
    /\ VeleroBackupConfig.skip_immediately out
       = CharmConfig.skip_immediately cfg
    /\ VeleroBackupConfig.use_owner_references_in_backup out
       = CharmConfig.use_owner_references_in_backup cfg.
Proof.
  intros Hnew. exists (Pass.merged t cfg).
  split; [apply MergeFacts.to_velero_spec_merged | ].
  assert (Hsched : VeleroBackupConfig.schedule (Pass.merged t cfg)
                   = CharmConfig.schedule cfg).
  { simpl. rewrite (ConfigFacts.new_schedule_truthy _ _ _ _ _ Hnew).
    unfold CharmConfig.is_scheduled.
    destruct (CharmConfig.schedule cfg); reflexivity. }
  repeat split; try reflexivity; try assumption.
  intros Hnone. rewrite Hsched. assumption.
Qed.

Lemma C4_merge_witness :
  let r := {| Ops.id := 1; Ops.name := "k8s-backup-target";
              Ops.app := Some "app1"; Ops.remote_app_data := None;
              Ops.local_app_data := ∅ |} in
  let x := {| BackupTarget.include_namespaces := Some ["ns1"; "ns2"];
              BackupTarget.include_resources := None;
              BackupTarget.exclude_namespaces := None;
              BackupTarget.exclude_resources := None;
              BackupTarget.label_selector := Some [("tier", "db")];
              BackupTarget.ttl := Some "24h";
              BackupTarget.include_cluster_resources := Some true |} in
  let t := {| Domain.spec := x; Domain.app_name := "app1";
              Domain.relation_name := "backup"; Domain.model_name := "m";
              Domain.relation := r |} in
  let cfg := {| CharmConfig.schedule := Some "0 2 * * *";
                CharmConfig.paused := true;
                CharmConfig.skip_immediately := false;
                CharmConfig.use_owner_references_in_backup := true |} in
  CharmConfig.new (Some "0 2 * * *") true false true = Ok cfg
  /\ exists out,
       Domain.to_velero_spec t cfg = Ok out
       /\ VeleroBackupConfig.target out = x
       /\ VeleroBackupConfig.schedule out = Some "0 2 * * *"
       /\ (CharmConfig.schedule cfg = None
           -> VeleroBackupConfig.schedule out = None)
       /\ VeleroBackupConfig.paused out = true
       /\ VeleroBackupConfig.skip_immediately out = false
       /\ VeleroBackupConfig.use_owner_references_in_backup out = true.
Proof.
  intros r x t cfg.
  assert (Hnew : CharmConfig.new (Some "0 2 * * *") true false true = Ok cfg)
    by (vm_compute; reflexivity).
  split; [exact Hnew | ].
  exact (C4_merge_copies_spec_and_takes_schedule_settings
           t (Some "0 2 * * *") true false true cfg Hnew).
Defined.

(* ===================================================================== *)
(** * Running the hooks *)
(* ===================================================================== *)

Module PassFacts.
Import Ops Constants Domain Context Events Pass.

Lemma bind_ok {A B} (m : M A) (f : A -> M B) c a c' :
  m c = (Ok a, c') -> bind m f c = f a c'.
Proof. intros H. unfold bind. rewrite H. reflexivity. Qed.

Lemma bind_gets {A B} (g : Charm -> A) (f : A -> M B) c :
  bind (gets g) f c = f (g c) c.
Proof. reflexivity. Qed.

(** ** Setters *)

Lemma with_accesses_same c : with_accesses (accesses c) c = c.
Proof. destruct c; reflexivity. Qed.

Lemma with_relations_same c : with_relations (relations c) c = c.
Proof. destruct c; reflexivity. Qed.

Lemma with_local_app_data_same r :
  with_local_app_data r (local_app_data r) = r.
Proof. destruct r; reflexivity. Qed.

Lemma moved_same c : moved (relations c) [] c = c.
Proof. unfold moved. rewrite app_nil_r. destruct c; reflexivity. Qed.

Lemma moved_moved rs1 log1 rs2 log2 c :
  moved rs2 log2 (moved rs1 log1 c) = moved rs2 (log1 ++ log2) c.
Proof.
  unfold moved, with_relations, with_accesses. simpl.
  rewrite app_assoc. reflexivity.
Qed.

Lemma relations_moved rs log c : relations (moved rs log c) = rs.
Proof. reflexivity. Qed.

Lemma accesses_moved rs log c :
  accesses (moved rs log c) = accesses c ++ log.
Proof. reflexivity. Qed.

Lemma unit_status_moved rs log c :
  unit_status (moved rs log c) = unit_status c.
Proof. reflexivity. Qed.

Lemma is_leader_moved rs log c : is_leader (moved rs log c) = is_leader c.
Proof. reflexivity. Qed.

Lemma model_name_moved rs log c :
  Ops.model_name (moved rs log c) = Ops.model_name c.
Proof. reflexivity. Qed.

Lemma config_moved rs log c :
  Context.config (moved rs log c) = Context.config c.
Proof. reflexivity. Qed.

(** ** Reading the upstream relations *)

(** Building a record does not fail on a relation that has a remote
    application. *)
Lemma from_relation_data_total data r m e :
  Ops.app r <> None -> from_relation_data data r m <> Raise e.
Proof.
  intros Happ. unfold from_relation_data.
  destruct (negb (truthy (data !! SPEC_FIELD))); [discriminate | ].
  destruct (BackupTarget.model_validate_json _); [ | discriminate].
  unfold app_name_of. destruct (truthy (data !! APP_FIELD)); [discriminate | ].
  destruct (Ops.app r); [discriminate | contradiction].
Qed.

Lemma collect_targets_run todo targets c :
  collect_targets todo targets c
  = (Ok (targets ++ targets_of (Ops.model_name c) todo),
     moved (relations c) (reads_of todo) c).
Proof.
  revert targets c. induction todo as [|r todo IH]; intros targets c.
  - simpl. rewrite app_nil_r, moved_same. reflexivity.
  - cbn [collect_targets targets_of reads_of].
    destruct (app r) as [a|] eqn:Ha; [ | apply IH].
    unfold read_remote_app_data, record, modify, bind, gets, ret.
    cbv beta iota.
    change (Ops.model_name
              (with_accesses (accesses c ++ [Read (id r)]) c))
      with (Ops.model_name c).
    unfold lift.
    destruct (from_relation_data _ r (Ops.model_name c)) as [[t|]|e] eqn:E.
    + rewrite IH. rewrite <- app_assoc. f_equal.
      unfold moved, with_relations, with_accesses. simpl.
      rewrite <- app_assoc. reflexivity.
    + rewrite IH. f_equal.
      unfold moved, with_relations, with_accesses. simpl.
      rewrite <- app_assoc. reflexivity.
    + exfalso. revert E. apply from_relation_data_total.
      rewrite Ha. discriminate.
Qed.

Lemma get_backup_targets_run c :
  get_backup_targets c
  = (Ok (targets_of (Ops.model_name c) (k8s_backup_relations c)),
     moved (relations c) (reads_of (k8s_backup_relations c)) c).
Proof.
  unfold get_backup_targets. rewrite bind_gets.
  apply collect_targets_run.
Qed.

(** ** Writing to a downstream relation *)

Lemma update_local_app_data_run e i items c rs r :
  relations c !! e = Some rs -> rs !! i = Some r ->
  update_local_app_data e i items c
  = (Ok tt,
     moved (<[e := <[i := with_local_app_data r
                           (databag_update items (local_app_data r))]> rs]>
              (relations c))
       [Write (id r) items] c).
Proof.
  intros He Hi. unfold update_local_app_data. rewrite bind_gets.
  unfold relations_get. rewrite He.
  change (default [] (Some rs)) with rs. rewrite Hi. reflexivity.
Qed.

Lemma published_cons cfg t ts r :
  published cfg (t :: ts) r
  = published cfg ts
      (with_local_app_data r
         (databag_update (payload cfg t) (local_app_data r))).
Proof. reflexivity. Qed.

(** The loop of [publish_to_relation] over the targets. *)
Lemma publish_targets_run cfg i ts c rs r :
  relations c !! VELERO_BACKUP_RELATION = Some rs -> rs !! i = Some r ->
  for_each ts (fun target =>
    let* velero_spec := lift (to_velero_spec target cfg) in
    update_local_app_data VELERO_BACKUP_RELATION i
      (to_databag_dict target velero_spec)) c
  = (Ok tt,
     moved (<[VELERO_BACKUP_RELATION := <[i := published cfg ts r]> rs]>
              (relations c))
       (map (fun t => Write (id r) (payload cfg t)) ts) c).
Proof.
  revert c rs r. induction ts as [|t ts IH]; intros c rs r He Hi.
  - cbn [for_each map]. unfold published. cbn [foldl].
    rewrite with_local_app_data_same, (list_insert_id _ _ _ Hi),
      (insert_id _ _ _ He), moved_same. reflexivity.
  - cbn [for_each].
    erewrite bind_ok; cycle 1.
    { erewrite bind_ok; cycle 1.
      { unfold lift. rewrite MergeFacts.to_velero_spec_merged. reflexivity. }
      apply (update_local_app_data_run _ _ _ _ rs r He Hi). }
    fold (payload cfg t).
    erewrite IH; cycle 1.
    { rewrite relations_moved. apply lookup_insert_eq. }
    { apply list_lookup_insert_eq. eapply lookup_lt_Some. eassumption. }
    rewrite moved_moved, relations_moved, insert_insert_eq,
      list_insert_insert_eq.
    reflexivity.
Qed.

Lemma publish_to_relation_run cfg i c rs r :
  is_leader c = true -> Context.config c = Some cfg ->
  relations c !! VELERO_BACKUP_RELATION = Some rs -> rs !! i = Some r ->
  publish_to_relation (Some i) c
  = (Ok tt,
     moved
       (<[VELERO_BACKUP_RELATION :=
            <[i := published cfg
                     (targets_of (Ops.model_name c) (k8s_backup_relations c))
                     r]> rs]>
          (relations c))
       (publish_accesses cfg (k8s_backup_relations c)
          (targets_of (Ops.model_name c) (k8s_backup_relations c)) r)
       c).
Proof.
  intros Hl Hc He Hi. unfold publish_to_relation.
  rewrite bind_gets, Hl. cbn [negb]. rewrite bind_gets, Hc.
  erewrite bind_ok by apply get_backup_targets_run.
  erewrite publish_targets_run; [ | rewrite relations_moved; exact He | exact Hi].
  rewrite moved_moved, relations_moved. reflexivity.
Qed.

Lemma k8s_backup_relations_moved rs rels log c :
  k8s_backup_relations
    (moved (<[VELERO_BACKUP_RELATION := rs]> rels) log c)
  = default [] (rels !! K8S_BACKUP_TARGET_RELATION).
Proof.
  unfold k8s_backup_relations, relations_get. rewrite relations_moved.
  rewrite lookup_insert_ne by discriminate. reflexivity.
Qed.

(** The loop of [publish_to_all_relations], [done] being the downstream
    relations already served. *)
Lemma publish_loop_run cfg todo : forall done c,
  is_leader c = true -> Context.config c = Some cfg ->
  relations c !! VELERO_BACKUP_RELATION = Some (done ++ todo) ->
  for_each (seq (length done) (length todo))
    (fun i => publish_to_relation (Some i)) c
  = (Ok tt,
     moved
       (<[VELERO_BACKUP_RELATION :=
            done
            ++ map (published cfg
                      (targets_of (Ops.model_name c) (k8s_backup_relations c)))
                 todo]>
          (relations c))
       (concat
          (map (publish_accesses cfg (k8s_backup_relations c)
                  (targets_of (Ops.model_name c) (k8s_backup_relations c)))
             todo))
       c).
Proof.
  induction todo as [|r todo IH]; intros done c Hl Hc He.
  - cbn [length seq for_each map concat]. rewrite app_nil_r in *.
    rewrite (insert_id _ _ _ He), moved_same. reflexivity.
  - cbn [length seq for_each].
    erewrite bind_ok; cycle 1.
    { apply (publish_to_relation_run cfg _ c _ r Hl Hc He).
      apply list_lookup_middle. reflexivity. }
    rewrite insert_app_r_alt by reflexivity.
    rewrite Nat.sub_diag. cbn [insert list_insert].
    set (x := published cfg _ r).
    replace (done ++ x :: todo) with ((done ++ [x]) ++ todo)
      by (rewrite <- app_assoc; reflexivity).
    replace (S (length done)) with (length (done ++ [x]))
      by (rewrite length_app; simpl; lia).
    erewrite IH; cycle 1.
    { rewrite is_leader_moved. exact Hl. }
    { rewrite config_moved. exact Hc. }
    { rewrite relations_moved. apply lookup_insert_eq. }
    rewrite moved_moved, relations_moved, insert_insert_eq.
    rewrite model_name_moved, k8s_backup_relations_moved.
    fold (relations_get K8S_BACKUP_TARGET_RELATION c).
    fold (k8s_backup_relations c).
    subst x. rewrite <- app_assoc. reflexivity.
Qed.

(** [publish_to_all_relations] on a leader with a valid configuration:
    every downstream relation receives the records of the pass, nothing
    else changes, and the log grows by the accesses of each relation. *)
Lemma publish_to_all_relations_run cfg c :
  is_leader c = true -> Context.config c = Some cfg ->
  publish_to_all_relations c
  = (Ok tt,
     moved
       (published_relations cfg
          (targets_of (Ops.model_name c) (k8s_backup_relations c))
          (relations c))
       (concat
          (map (publish_accesses cfg (k8s_backup_relations c)
                  (targets_of (Ops.model_name c) (k8s_backup_relations c)))
             (velero_relations c)))
       c).
Proof.
  intros Hl Hc. unfold publish_to_all_relations.
  rewrite bind_gets, Hl. cbn [negb]. rewrite bind_gets.
  unfold published_relations, velero_relations, relations_get.
  destruct (relations c !! VELERO_BACKUP_RELATION) as [rs|] eqn:He.
  - change (default [] (Some rs)) with rs.
    apply (publish_loop_run cfg rs [] c Hl Hc He).
  - change (default [] None) with (@nil Relation).
    cbn [length seq for_each map concat]. rewrite moved_same. reflexivity.
Qed.

End PassFacts.

Module ReconcileFacts.
Import Ops Constants Domain Context Events Pass PassFacts.

Lemma config_errors_valid c cfg :
  Context.config c = Some cfg -> config_errors c = [].
Proof.
  unfold Context.config, config_errors.
  destruct (charm_config c); [reflexivity | discriminate].
Qed.

(** The only error of an invalid configuration is that of the model
    validator, whose location is empty. *)
Lemma config_errors_invalid c :
  Context.config c = None -> config_errors c = [""].
Proof.
  unfold Context.config, config_errors, charm_config.
  destruct (CharmConfig.new _ _ _ _) as [cfg|e] eqn:E; [discriminate | ].
  apply ConfigFacts.new_raise_inv in E as (x & _ & _ & ->).
  reflexivity.
Qed.

Lemma reconcile_standby c :
  is_leader c = false ->
  _reconcile c
  = (Ok tt, with_unit_status (ActiveStatus "Unit is ready (standby)") c).
Proof.
  intros Hl. unfold _reconcile. rewrite bind_gets, Hl. reflexivity.
Qed.

Lemma reconcile_config_invalid c :
  is_leader c = true -> Context.config c = None ->
  _reconcile c
  = (Ok tt, with_unit_status (BlockedStatus "Invalid configuration: ''") c).
Proof.
  intros Hl Hc. unfold _reconcile. rewrite bind_gets, Hl. cbn [negb].
  rewrite bind_gets, (config_errors_invalid c Hc). reflexivity.
Qed.

Lemma reconcile_missing_velero c cfg :
  is_leader c = true -> Context.config c = Some cfg ->
  velero_relations c = [] ->
  _reconcile c
  = (Ok tt,
     with_unit_status (BlockedStatus "Missing relation: velero-backup") c).
Proof.
  intros Hl Hc Hv. unfold _reconcile. rewrite bind_gets, Hl. cbn [negb].
  rewrite bind_gets, (config_errors_valid c cfg Hc).
  rewrite bind_gets. unfold has_velero_relation. rewrite Hv. reflexivity.
Qed.

Lemma k8s_backup_relations_published cfg ts all log c :
  k8s_backup_relations (moved (published_relations cfg ts all) log c)
  = default [] (all !! K8S_BACKUP_TARGET_RELATION).
Proof.
  unfold published_relations.
  destruct (all !! VELERO_BACKUP_RELATION) as [rs|].
  - apply k8s_backup_relations_moved.
  - reflexivity.
Qed.

Lemma velero_relations_published cfg ts log c :
  velero_relations (moved (published_relations cfg ts (relations c)) log c)
  = map (published cfg ts) (velero_relations c).
Proof.
  unfold velero_relations, relations_get, published_relations.
  rewrite relations_moved.
  destruct (relations c !! VELERO_BACKUP_RELATION) as [rs|] eqn:He.
  - rewrite lookup_insert_eq. reflexivity.
  - rewrite He. reflexivity.
Qed.

(** A pass of the leader with a valid configuration and a downstream
    relation: the publish step, then the closing status. *)
Lemma reconcile_publishes c cfg :
  is_leader c = true -> Context.config c = Some cfg ->
  velero_relations c <> [] ->
  _reconcile c
  = (Ok tt,
     with_unit_status
       (closing_status cfg (has_k8s_backup_relation c))
       (moved
          (published_relations cfg
             (targets_of (Ops.model_name c) (k8s_backup_relations c))
             (relations c))
          (concat
             (map (publish_accesses cfg (k8s_backup_relations c)
                     (targets_of (Ops.model_name c) (k8s_backup_relations c)))
                (velero_relations c)))
          c)).
Proof.
  intros Hl Hc Hv. unfold _reconcile. rewrite bind_gets, Hl. cbn [negb].
  rewrite bind_gets, (config_errors_valid c cfg Hc).
  rewrite bind_gets. unfold has_velero_relation.
  destruct (velero_relations c) as [|v vs] eqn:Ev; [contradiction | ].
  cbn [length Nat.ltb Nat.leb negb].
  erewrite bind_ok by (apply (publish_to_all_relations_run cfg c Hl Hc)).
  rewrite bind_gets. unfold has_k8s_backup_relation.
  rewrite k8s_backup_relations_published.
  fold (relations_get K8S_BACKUP_TARGET_RELATION c).
  fold (k8s_backup_relations c).
  unfold closing_status. rewrite Ev.
  destruct (negb (0 <? length (k8s_backup_relations c))%nat); [reflexivity | ].
  rewrite bind_gets, config_moved, Hc.
  destruct (CharmConfig.is_scheduled cfg); [ | reflexivity].
  destruct (CharmConfig.is_paused cfg); reflexivity.
Qed.

(** ** Databags *)

Lemma lookup_databag_set k v (bag : gmap string string) k' :
  databag_set k v bag !! k'
  = if decide (k = k')
    then (if String.eqb v "" then None else Some v)
    else bag !! k'.
Proof.
  unfold databag_set.
  destruct (String.eqb v ""); case_decide; subst.
  - apply lookup_delete_eq.
  - apply lookup_delete_ne. assumption.
  - apply lookup_insert_eq.
  - apply lookup_insert_ne. assumption.
Qed.

(** Publishing a record hides the record published before it. *)
Lemma payload_absorbs cfg t1 t2 (bag : gmap string string) :
  databag_update (payload cfg t2) (databag_update (payload cfg t1) bag)
  = databag_update (payload cfg t2) bag.
Proof.
  apply map_eq. intros k.
  unfold payload, to_databag_dict, databag_update. cbn [foldl fst snd].
  rewrite !lookup_databag_set. repeat case_decide; reflexivity.
Qed.

Lemma payload_absorbs_all cfg t ts : forall bag : gmap string string,
  databag_update (payload cfg t)
    (foldl (fun b x => databag_update (payload cfg x) b) bag ts)
  = databag_update (payload cfg t) bag.
Proof.
  induction ts as [|x ts IH]; intros bag; cbn [foldl]; [reflexivity | ].
  rewrite IH. apply payload_absorbs.
Qed.

Lemma published_last cfg earlier t r :
  published cfg (earlier ++ [t]) r
  = with_local_app_data r
      (databag_update (payload cfg t) (local_app_data r)).
Proof.
  unfold published. rewrite foldl_app. cbn [foldl].
  rewrite payload_absorbs_all. reflexivity.
Qed.

Lemma published_nil cfg r : published cfg [] r = r.
Proof. apply with_local_app_data_same. Qed.

Lemma published_relations_nil cfg all : published_relations cfg [] all = all.
Proof.
  unfold published_relations.
  destruct (all !! VELERO_BACKUP_RELATION) as [rs|] eqn:He; [ | reflexivity].
  rewrite (List.map_ext (published cfg []) (fun r => r)), List.map_id
    by (intros r; apply published_nil).
  apply insert_id. assumption.
Qed.

Lemma no_accesses_without_upstream cfg vs :
  concat (map (publish_accesses cfg [] []) vs) = [].
Proof. induction vs as [|v vs IH]; [reflexivity | exact IH]. Qed.

(** ** Skipped links *)




End ReconcileFacts.

(* ===================================================================== *)
(** * The reconciliation pass *)
(* ===================================================================== *)

(** C1: whatever the configuration and the relations, the pass of a unit
    that is not the leader sets the standby status, leaves every databag as
    it was and accesses none: no read of an upstream payload and no write
    to a downstream one; the publish step on its own does nothing either. *)
Theorem C1_non_leader_standby (c : Ops.Charm) :
  Ops.is_leader c = false ->
  Ops.unit_status (Pass.after Events._reconcile c)
  = Ops.ActiveStatus "Unit is ready (standby)"
  /\ Ops.accesses (Pass.after Events._reconcile c) = Ops.accesses c
  /\ Ops.relations (Pass.after Events._reconcile c) = Ops.relations c
  /\ Pass.after Events.publish_to_all_relations c = c
  /\ forall relation, Pass.after (Events.publish_to_relation relation) c = c.
Proof.
  intros Hl. unfold Pass.after.
  rewrite (ReconcileFacts.reconcile_standby c Hl).
  repeat split; try reflexivity.
  - unfold Events.publish_to_all_relations.
    rewrite PassFacts.bind_gets, Hl. reflexivity.
  - intros [i|]; unfold Events.publish_to_relation;
      rewrite PassFacts.bind_gets; [rewrite Hl | ]; reflexivity.
Qed.

Lemma C1_non_leader_standby_witness :
  let c := Scenario.state false (Scenario.with_schedule "0 2 * * *")
             [Scenario.velero_relation]
             [Scenario.k8s_relation1; Scenario.k8s_relation2] in
  Ops.unit_status (Pass.after Events._reconcile c)
  = Ops.ActiveStatus "Unit is ready (standby)"
  /\ Ops.accesses (Pass.after Events._reconcile c) = Ops.accesses c
  /\ Ops.relations (Pass.after Events._reconcile c) = Ops.relations c
  /\ Pass.after Events.publish_to_all_relations c = c
  /\ forall relation, Pass.after (Events.publish_to_relation relation) c = c.
Proof.
  intros c. apply (C1_non_leader_standby c). reflexivity.
Defined.

(** C2: when the leader's schedule configuration is invalid, whatever the
    relations, the pass sets a blocked status and accesses or changes no
    databag; but the message does not name the invalid field. The one
    name that [config_errors] reports for the refused schedule is the
    empty string, not [schedule], and the message is
    ["Invalid configuration: ''"]. *)
Theorem C2_invalid_config_message_names_no_field (c : Ops.Charm) :
  Ops.is_leader c = true ->
  Context.config c = None ->
  Context.config_errors c = [""]
  /\ ~ In "schedule" (Context.config_errors c)
  /\ Ops.unit_status (Pass.after Events._reconcile c)
     = Ops.BlockedStatus "Invalid configuration: ''"
  /\ Ops.accesses (Pass.after Events._reconcile c) = Ops.accesses c
  /\ Ops.relations (Pass.after Events._reconcile c) = Ops.relations c.
Proof.
  intros Hl Hc. unfold Pass.after.
  rewrite (ReconcileFacts.reconcile_config_invalid c Hl Hc).
  rewrite (ReconcileFacts.config_errors_invalid c Hc).
  repeat split; try reflexivity.
  intros [H|[]]. discriminate.
Qed.

(** The state of [test_config_errors_returns_invalid_fields], with a
    downstream and an upstream relation besides. *)
Lemma C2_invalid_config_witness :
  let c := Scenario.state true (Scenario.with_schedule "bad-cron")
             [Scenario.velero_relation] [Scenario.k8s_relation1] in
  Ops.cfg_schedule (Ops.config c) = Some "bad-cron"
  /\ Context.config_errors c = [""]
  /\ ~ In "schedule" (Context.config_errors c)
  /\ Ops.unit_status (Pass.after Events._reconcile c)
     = Ops.BlockedStatus "Invalid configuration: ''"
  /\ Ops.accesses (Pass.after Events._reconcile c) = Ops.accesses c
  /\ Ops.relations (Pass.after Events._reconcile c) = Ops.relations c.
Proof.
  intros c. split; [reflexivity | ].
  apply (C2_invalid_config_message_names_no_field c).
  - reflexivity.
  - vm_compute. reflexivity.
Defined.

(** C7: the pass of the leader with a valid configuration, at least one
    downstream relation and no upstream relation sets the waiting status,
    accesses no databag (so writes none) and leaves every databag as it
    was. *)
Theorem C7_no_upstream_waits_without_writing
    (c : Ops.Charm) (cfg : CharmConfig.t) :
  Ops.is_leader c = true ->
  Context.config c = Some cfg ->
  Context.velero_relations c <> [] ->
  Context.k8s_backup_relations c = [] ->
  Ops.unit_status (Pass.after Events._reconcile c)
  = Ops.WaitingStatus "Waiting for k8s-backup-target relation"
  /\ Ops.accesses (Pass.after Events._reconcile c) = Ops.accesses c
  /\ Ops.relations (Pass.after Events._reconcile c) = Ops.relations c.
Proof.
  intros Hl Hc Hv Hk. unfold Pass.after.
  rewrite (ReconcileFacts.reconcile_publishes c cfg Hl Hc Hv).
  unfold Context.has_k8s_backup_relation. rewrite Hk.
  cbn [snd Pass.targets_of].
  rewrite ReconcileFacts.published_relations_nil,
    ReconcileFacts.no_accesses_without_upstream.
  repeat split; try reflexivity.
  cbn [Ops.accesses Ops.with_unit_status].
  rewrite PassFacts.accesses_moved. apply app_nil_r.
Qed.

Lemma C7_no_upstream_witness :
  let c := Scenario.state true (Scenario.with_schedule "0 2 * * *")
             [Scenario.velero_relation] [] in
  Ops.unit_status (Pass.after Events._reconcile c)
  = Ops.WaitingStatus "Waiting for k8s-backup-target relation"
  /\ Ops.accesses (Pass.after Events._reconcile c) = Ops.accesses c
  /\ Ops.relations (Pass.after Events._reconcile c) = Ops.relations c.
Proof.
  intros c.
  apply (C7_no_upstream_waits_without_writing c Scenario.valid_config).
  - reflexivity.
  - vm_compute. reflexivity.
  - vm_compute. discriminate.
  - vm_compute. reflexivity.
Defined.

Module PublishFacts.
Import Ops Constants Domain Context Events Pass.



Lemma velero_relations_after_status s c :
  velero_relations (with_unit_status s c) = velero_relations c.
Proof. reflexivity. Qed.

End PublishFacts.

(* ===================================================================== *)
(** * Reading back what was written *)
(* ===================================================================== *)

Module JsonFacts.
Import Re Json.

(** ** Strings *)

Lemma read_chars_escape c r :
  read_chars (escape_char c ++ r)
  = match read_chars r with
    | Some (cs, rest) => Some (c :: cs, rest)
    | None => None
    end.
Proof.
  destruct c as [b0 b1 b2 b3 b4 b5 b6 b7].
  destruct b0, b1, b2, b3, b4, b5, b6, b7; reflexivity.
Qed.

Lemma read_chars_written cs rest :
  read_chars (concat (map escape_char cs) ++ quote :: rest) = Some (cs, rest).
Proof.
  induction cs as [|c cs IH]; [reflexivity | ].
  cbn [map concat]. rewrite <- app_assoc, read_chars_escape, IH.
  reflexivity.
Qed.

Lemma read_string_written s rest :
  read_string (concat (map escape_char (list_ascii_of_string s))
               ++ quote :: rest)
  = Some (s, rest).
Proof.
  unfold read_string.
  rewrite read_chars_written, string_of_list_ascii_of_string. reflexivity.
Qed.

Lemma write_string_app s rest :
  write_string s ++ rest
  = quote :: concat (map escape_char (list_ascii_of_string s))
    ++ quote :: rest.
Proof.
  unfold write_string. rewrite <- app_comm_cons, <- app_assoc. reflexivity.
Qed.

(** ** Dictionaries *)

Lemma dict_set_fresh {V} k (v : V) d :
  ~ In k (map fst d) -> dict_set k v d = d ++ [(k, v)].
Proof.
  induction d as [|[k' v'] d IH]; intros Hk; [reflexivity | ].
  cbn [dict_set]. destruct (String.eqb k k') eqn:E.
  - apply String.eqb_eq in E as ->. exfalso. apply Hk. left. reflexivity.
  - rewrite IH; [reflexivity | ]. intros Hin. apply Hk. right. assumption.
Qed.

Lemma dict_of_pairs_from {V} (l : list (string * V)) : forall d,
  List.NoDup (map fst (d ++ l)) ->
  foldl (fun d kv => dict_set (fst kv) (snd kv) d) d l = d ++ l.
Proof.
  induction l as [|[k v] l IH]; intros d Hd.
  - rewrite app_nil_r. reflexivity.
  - cbn [foldl fst snd]. rewrite dict_set_fresh.
    + rewrite IH; rewrite <- app_assoc; [reflexivity | exact Hd].
    + rewrite map_app in Hd. cbn [map fst] in Hd.
      apply List.NoDup_remove_2 in Hd. intros Hin. apply Hd.
      apply in_or_app. left. assumption.
Qed.

Lemma dict_of_pairs_distinct {V} (l : list (string * V)) :
  NoDup (map fst l) -> dict_of_pairs l = l.
Proof.
  intros H. apply (dict_of_pairs_from l []). apply NoDup_ListNoDup. exact H.
Qed.

(** ** One step of the reader *)

Lemma skip_ws_head c w : is_ws c = false -> skip_ws (c :: w) = c :: w.
Proof. intros H. cbn [skip_ws]. rewrite H. reflexivity. Qed.

Lemma read_value_quote f w :
  read_value (S f) (quote :: w)
  = match read_string w with
    | Some (x, rest) => Some (JStr x, rest)
    | None => None
    end.
Proof. reflexivity. Qed.

Lemma read_value_bracket f w :
  read_value (S f) ("["%char :: w)
  = match skip_ws w with
    | c' :: r' =>
        if Ascii.eqb c' "]"%char then Some (JArr [], r')
        else
          match read_items f w with
          | Some (xs, rest) => Some (JArr xs, rest)
          | None => None
          end
    | [] => None
    end.
Proof. reflexivity. Qed.

Lemma read_value_brace f w :
  read_value (S f) ("{"%char :: w)
  = match skip_ws w with
    | c' :: r' =>
        if Ascii.eqb c' "}"%char then Some (JObj [], r')
        else
          match read_members f w with
          | Some (kvs, rest) => Some (JObj (dict_of_pairs kvs), rest)
          | None => None
          end
    | [] => None
    end.
Proof. reflexivity. Qed.

Lemma read_items_step f s :
  read_items (S f) s
  = match read_value f s with
    | Some (x, r) =>
        match skip_ws r with
        | c :: r' =>
            if Ascii.eqb c ","%char then
              match read_items f r' with
              | Some (xs, rest) => Some (x :: xs, rest)
              | None => None
              end
            else if Ascii.eqb c "]"%char then Some ([x], r')
            else None
        | [] => None
        end
    | None => None
    end.
Proof. reflexivity. Qed.

Lemma read_members_step f w :
  read_members (S f) (quote :: w)
  = match read_string w with
    | Some (k, r1) =>
        match skip_ws r1 with
        | c1 :: r2 =>
            if Ascii.eqb c1 ":"%char then
              match read_value f r2 with
              | Some (x, r3) =>
                  match skip_ws r3 with
                  | c2 :: r4 =>
                      if Ascii.eqb c2 ","%char then
                        match read_members f r4 with
                        | Some (kvs, rest) => Some ((k, x) :: kvs, rest)
                        | None => None
                        end
                      else if Ascii.eqb c2 "}"%char
                      then Some ([(k, x)], r4)
                      else None
                  | [] => None
                  end
              | None => None
              end
            else None
        | [] => None
        end
    | None => None
    end.
Proof. reflexivity. Qed.

(** ** Shape of written text *)

Lemma comma_sep_cons (p q : word) ps :
  comma_sep (p :: q :: ps) = p ++ ","%char :: comma_sep (q :: ps).
Proof. reflexivity. Qed.

Lemma comma_sep_one (p : word) : comma_sep [p] = p.
Proof. apply app_nil_r. Qed.

(** A written value starts with a character that is neither white space
    nor a closing bracket. *)
Lemma write_head v :
  well_formed v = true ->
  exists c w,
    write v = c :: w /\ is_ws c = false /\ Ascii.eqb c "]"%char = false.
Proof.
  destruct v as [ |[|]|n|s|items|members]; intros H; try discriminate;
    cbn [write]; eexists; eexists; (split; [reflexivity | split; reflexivity]).
Qed.

Lemma size_positive v : 1 <= size v.
Proof. destruct v; simpl; lia. Qed.

Lemma comma_sep_then (p : word) ps tail :
  comma_sep (p :: ps) ++ tail
  = p ++ match ps with
         | [] => tail
         | q :: qs => ","%char :: comma_sep (q :: qs) ++ tail
         end.
Proof.
  destruct ps as [|q qs].
  - rewrite comma_sep_one. reflexivity.
  - rewrite comma_sep_cons, <- app_assoc. reflexivity.
Qed.

(** ** Values *)

(** With fuel for its size, the reader gives back a written value and
    stops right after it; likewise for the items of an array up to the
    closing bracket and for the members of an object up to the closing
    brace. *)
Lemma read_written fuel :
  (forall v rest,
      well_formed v = true -> size v <= fuel ->
      read_value fuel (write v ++ rest) = Some (v, rest))
  /\ (forall v vs rest,
        forallb well_formed (v :: vs) = true ->
        list_sum (map (fun x => S (size x)) (v :: vs)) <= fuel ->
        read_items fuel (comma_sep (map write (v :: vs)) ++ "]"%char :: rest)
        = Some (v :: vs, rest))
  /\ (forall kv kvs rest,
        forallb (fun kv => well_formed (snd kv)) (kv :: kvs) = true ->
        list_sum (map (fun kv => S (size (snd kv))) (kv :: kvs)) <= fuel ->
        read_members fuel
          (comma_sep
             (map (fun kv => write_string (fst kv) ++ ":"%char :: write (snd kv))
                (kv :: kvs))
           ++ "}"%char :: rest)
        = Some (kv :: kvs, rest)).
Proof.
  induction fuel as [|f (IHv & IHi & IHm)].
  - repeat split.
    + intros v rest _ H. pose proof (size_positive v). lia.
    + intros v vs rest _ H. simpl in H. lia.
    + intros kv kvs rest _ H. simpl in H. lia.
  - repeat split.
    + (* a value *)
      intros v rest Hwf Hsize.
      destruct v as [ |[|]|n|s|items|members]; try reflexivity.
      * discriminate.
      * cbn [write]. rewrite write_string_app, read_value_quote,
          read_string_written. reflexivity.
      * cbn [write]. rewrite <- app_comm_cons, <- app_assoc.
        cbn [List.app]. rewrite read_value_bracket.
        destruct items as [|v vs]; [reflexivity | ].
        cbn [well_formed] in Hwf. cbn [size] in Hsize.
        assert (Hhead : exists c w,
                   comma_sep (map write (v :: vs)) ++ "]"%char :: rest
                   = c :: w
                   /\ is_ws c = false /\ Ascii.eqb c "]"%char = false).
        { cbn [forallb] in Hwf. apply andb_true_iff in Hwf as [Hv _].
          destruct (write_head v Hv) as (c & w & Hw & Hc1 & Hc2).
          cbn [map comma_sep]. rewrite Hw. eauto. }
        destruct Hhead as (c & w & Heq & Hc1 & Hc2).
        rewrite Heq at 1. rewrite (skip_ws_head c w Hc1), Hc2.
        rewrite IHi; [reflexivity | exact Hwf | lia].
      * cbn [write]. rewrite <- app_comm_cons, <- app_assoc.
        cbn [List.app]. rewrite read_value_brace.
        destruct members as [|kv kvs]; [reflexivity | ].
        cbn [well_formed] in Hwf. apply andb_true_iff in Hwf as [Hnd Hwf].
        apply bool_decide_eq_true in Hnd. cbn [size] in Hsize.
        assert (Hhead : exists w,
                   comma_sep
                     (map (fun kv => write_string (fst kv)
                                     ++ ":"%char :: write (snd kv))
                        (kv :: kvs))
                   ++ "}"%char :: rest
                   = quote :: w).
        { cbn [map comma_sep]. unfold write_string at 1. eauto. }
        destruct Hhead as (w & Heq).
        rewrite Heq at 1. rewrite (skip_ws_head quote w eq_refl).
        change (Ascii.eqb quote "}"%char) with false. cbv iota.
        rewrite IHm; [ | exact Hwf | lia].
        rewrite (dict_of_pairs_distinct _ Hnd). reflexivity.
    + (* the items of an array *)
      intros v vs rest Hwf Hsize. rewrite read_items_step.
      cbn [forallb] in Hwf. apply andb_true_iff in Hwf as [Hv Hvs].
      cbn [map]. rewrite comma_sep_then.
      assert (Hsv : size v <= f) by (simpl in Hsize; lia).
      rewrite (IHv v _ Hv Hsv).
      destruct vs as [|v' vs']; [reflexivity | ].
      cbn [map]. rewrite (skip_ws_head ","%char _ eq_refl).
      change (Ascii.eqb ","%char ","%char) with true. cbv iota.
      change (write v' :: map write vs') with (map write (v' :: vs')).
      rewrite IHi; [reflexivity | exact Hvs | ].
      pose proof (size_positive v). simpl in Hsize |- *. lia.
    + (* the members of an object *)
      intros [k x] kvs rest Hwf Hsize.
      cbn [forallb snd] in Hwf. apply andb_true_iff in Hwf as [Hx Hkvs].
      cbn [map fst snd]. rewrite comma_sep_then, <- app_assoc.
      rewrite write_string_app, read_members_step, read_string_written.
      rewrite <- app_comm_cons.
      rewrite (skip_ws_head ":"%char _ eq_refl).
      change (Ascii.eqb ":"%char ":"%char) with true. cbv iota.
      assert (Hsx : size x <= f) by (simpl in Hsize; lia).
      rewrite (IHv x _ Hx Hsx).
      destruct kvs as [|kv' kvs']; [reflexivity | ].
      cbn [map]. rewrite (skip_ws_head ","%char _ eq_refl).
      change (Ascii.eqb ","%char ","%char) with true. cbv iota.
      match goal with
      | |- context [comma_sep (?h :: map ?g kvs')] =>
          change (h :: map g kvs') with (map g (kv' :: kvs'))
      end.
      rewrite IHm; [reflexivity | exact Hkvs | ].
      pose proof (size_positive x). simpl in Hsize |- *. lia.
Qed.

(** ** Fuel *)

Lemma length_comma_sep (ps : list word) :
  list_sum (map (fun q => S (length q)) ps) <= S (length (comma_sep ps)).
Proof.
  destruct ps as [|p ps]; [simpl; lia | ].
  cbn [comma_sep map list_sum fold_right]. rewrite length_app.
  assert (H : list_sum (map (fun q => S (length q)) ps)
              = length (concat (map (fun q => ","%char :: q) ps))).
  { induction ps as [|q ps IH]; [reflexivity | ].
    cbn [map concat list_sum fold_right]. rewrite length_app.
    unfold list_sum in IH. rewrite IH. reflexivity. }
  unfold list_sum in H. rewrite H. lia.
Qed.

Lemma sum_le {A} (f g : A -> nat) l :
  (forall x, In x l -> f x <= g x) ->
  list_sum (map (fun x => S (f x)) l) <= list_sum (map (fun x => S (g x)) l).
Proof.
  induction l as [|x l IH]; intros H; [reflexivity | ].
  cbn [map list_sum fold_right].
  assert (f x <= g x) by (apply H; left; reflexivity).
  assert (list_sum (map (fun x => S (f x)) l)
          <= list_sum (map (fun x => S (g x)) l))
    by (apply IH; intros y Hy; apply H; right; assumption).
  unfold list_sum in *. lia.
Qed.

Lemma sum_bound {A} (f : A -> nat) l x :
  In x l -> f x < list_sum (map (fun x => S (f x)) l).
Proof.
  induction l as [|y l IH]; intros Hin; [contradiction | ].
  cbn [map list_sum fold_right]. destruct Hin as [->|Hin].
  - lia.
  - specialize (IH Hin). unfold list_sum in IH. lia.
Qed.

(** The text of a value is at least as long as the value is large. *)
Lemma size_le_length n : forall v,
  well_formed v = true -> size v <= n -> size v <= length (write v).
Proof.
  induction n as [|n IH]; intros v Hwf Hn.
  - pose proof (size_positive v). lia.
  - destruct v as [ |[|]|x|s|items|members]; try (simpl; lia).
    + discriminate.
    + cbn [size write]. cbn [size] in Hn. cbn [well_formed] in Hwf.
      cbn [length]. rewrite length_app. cbn [length].
      pose proof (length_comma_sep (map write items)) as Hlen.
      rewrite List.map_map in Hlen.
      assert (Hsum : list_sum (map (fun x => S (size x)) items)
                     <= list_sum (map (fun x => S (length (write x))) items)).
      { apply sum_le. intros x Hx. apply IH.
        - rewrite forallb_forall in Hwf. apply Hwf. assumption.
        - pose proof (sum_bound size items x Hx). lia. }
      lia.
    + cbn [size write]. cbn [size] in Hn. cbn [well_formed] in Hwf.
      apply andb_true_iff in Hwf as [_ Hwf].
      cbn [length]. rewrite length_app. cbn [length].
      pose proof (length_comma_sep
                    (map (fun kv => write_string (fst kv)
                                    ++ ":"%char :: write (snd kv)) members))
        as Hlen.
      rewrite List.map_map in Hlen.
      assert (Hsum : list_sum (map (fun kv => S (size (snd kv))) members)
                     <= list_sum
                          (map (fun kv =>
                                  S (length (write_string (fst kv)
                                             ++ ":"%char :: write (snd kv))))
                             members)).
      { apply (sum_le (fun kv => size (snd kv))). intros kv Hkv.
        rewrite length_app. cbn [length].
        enough (size (snd kv) <= length (write (snd kv))) by lia.
        apply IH.
        - rewrite forallb_forall in Hwf. apply Hwf. assumption.
        - pose proof (sum_bound (fun kv => size (snd kv)) members kv Hkv).
          lia. }
      lia.
Qed.

(** Reading a dumped value gives the value back. *)
Lemma loads_dumps v : well_formed v = true -> loads (dumps v) = Some v.
Proof.
  intros Hwf. unfold loads, dumps.
  rewrite list_ascii_of_string_of_list_ascii.
  destruct (read_written (S (length (write v)))) as [Hread _].
  specialize (Hread v [] Hwf). rewrite app_nil_r in Hread.
  rewrite Hread; [reflexivity | ].
  pose proof (size_le_length (size v) v Hwf (Nat.le_refl _)). lia.
Qed.

End JsonFacts.

Module RoundTripFacts.
Import Json BackupTarget JsonFacts.

Lemma well_formed_list_str l : well_formed (dump_list_str l) = true.
Proof.
  unfold dump_list_str. cbn [well_formed].
  induction l as [|s l IH]; [reflexivity | exact IH].
Qed.

Lemma well_formed_dict_str d :
  NoDup (map fst d) -> well_formed (dump_dict_str d) = true.
Proof.
  intros Hd. unfold dump_dict_str. cbn [well_formed].
  apply andb_true_iff. split.
  - apply bool_decide_eq_true. rewrite List.map_map.
    cbn [fst]. exact Hd.
  - induction d as [|kv d IH]; [reflexivity | ].
    cbn [map forallb snd well_formed].
    apply IH. inversion Hd; assumption.
Qed.

Lemma well_formed_option {A} (f : A -> json) o :
  (forall a, o = Some a -> well_formed (f a) = true) ->
  well_formed (dump_option f o) = true.
Proof. destruct o as [a|]; intros H; [apply H | ]; reflexivity. Qed.

Lemma well_formed_model_dump x :
  is_spec x -> well_formed (JObj (model_dump x)) = true.
Proof.
  intros Hx. cbn [well_formed]. apply andb_true_iff. split.
  - vm_compute. reflexivity.
  - cbn [model_dump forallb snd].
    rewrite !well_formed_option; try reflexivity;
      try (intros; apply well_formed_list_str).
    intros d Hd. apply well_formed_dict_str.
    unfold is_spec in Hx. rewrite Hd in Hx. exact Hx.
Qed.

Lemma model_validate_dump x : model_validate (JObj (model_dump x)) = Ok x.
Proof.
  cbn [model_validate]. apply SpecFacts.fields_of_dict_dump.
  intros k v Hin. cbn [model_dump] in Hin.
  repeat (destruct Hin as [[= <- <-]|Hin]; [reflexivity | ]).
  contradiction.
Qed.

End RoundTripFacts.

(** C9: for every target specification, parsing the text that serializes
    it succeeds and gives the same specification, field for field. *)
Theorem C9_parse_serialize_round_trip (x : BackupTarget.BackupTargetSpec) :
  BackupTarget.is_spec x ->
  BackupTarget.model_validate_json (BackupTarget.model_dump_json x) = Ok x.
Proof.
  intros Hx. unfold BackupTarget.model_validate_json, BackupTarget.model_dump_json.
  rewrite JsonFacts.loads_dumps
    by (apply RoundTripFacts.well_formed_model_dump; exact Hx).
  apply RoundTripFacts.model_validate_dump.
Qed.

Lemma C9_round_trip_witness :
  let x := {| BackupTarget.include_namespaces := Some ["ns1"; "ns2"];
              BackupTarget.include_resources := Some [];
              BackupTarget.exclude_namespaces := None;
              BackupTarget.exclude_resources := None;
              BackupTarget.label_selector :=
                Some [("tier", "db"); ("quote", Scenario.dq "a\b")];
              BackupTarget.ttl := Some "24h";
              BackupTarget.include_cluster_resources := Some false |} in
  BackupTarget.model_validate_json (BackupTarget.model_dump_json x) = Ok x.
Proof.
  intros x. apply (C9_parse_serialize_round_trip x).
  unfold BackupTarget.is_spec. simpl.
  apply (bool_decide_unpack _). vm_compute. reflexivity.
Defined.

(* ===================================================================== *)
(** * The pass as a whole *)
(* ===================================================================== *)

Module WholePassFacts.
Import Ops Constants Domain Context Events Pass PassFacts ReconcileFacts.
Import Observe.

(** The four ways a pass can go. *)
Lemma reconcile_cases c :
  (is_leader c = false
   /\ _reconcile c
      = (Ok tt, with_unit_status (ActiveStatus "Unit is ready (standby)") c))
  \/ (is_leader c = true /\ Context.config c = None
      /\ _reconcile c
         = (Ok tt,
            with_unit_status (BlockedStatus "Invalid configuration: ''") c))
  \/ (exists cfg,
        is_leader c = true /\ Context.config c = Some cfg
        /\ velero_relations c = []
        /\ _reconcile c
           = (Ok tt,
              with_unit_status
                (BlockedStatus "Missing relation: velero-backup") c))
  \/ (exists cfg,
        is_leader c = true /\ Context.config c = Some cfg
        /\ velero_relations c <> []
        /\ _reconcile c = (Ok tt, published_state cfg c)).
Proof.
  destruct (is_leader c) eqn:Hl.
  - destruct (Context.config c) as [cfg|] eqn:Hc.
    + destruct (velero_relations c) as [|v vs] eqn:Hv.
      * right. right. left. exists cfg. repeat split.
        apply (reconcile_missing_velero c cfg Hl Hc Hv).
      * right. right. right. exists cfg. repeat split; [discriminate | ].
        apply (reconcile_publishes c cfg Hl Hc). rewrite Hv. discriminate.
    + right. left. repeat split. apply (reconcile_config_invalid c Hl Hc).
  - left. split; [reflexivity | apply (reconcile_standby c Hl)].
Qed.

(** ** What stays the same in a published state *)

Lemma is_leader_published cfg c :
  is_leader (published_state cfg c) = is_leader c.
Proof. reflexivity. Qed.

Lemma config_published cfg c :
  Context.config (published_state cfg c) = Context.config c.
Proof. reflexivity. Qed.

Lemma model_name_published cfg c :
  Ops.model_name (published_state cfg c) = Ops.model_name c.
Proof. reflexivity. Qed.

Lemma relations_published cfg c :
  relations (published_state cfg c)
  = published_relations cfg
      (targets_of (Ops.model_name c) (k8s_backup_relations c)) (relations c).
Proof. reflexivity. Qed.

Lemma accesses_published cfg c :
  accesses (published_state cfg c)
  = accesses c
    ++ concat
         (map (publish_accesses cfg (k8s_backup_relations c)
                 (targets_of (Ops.model_name c) (k8s_backup_relations c)))
            (velero_relations c)).
Proof. reflexivity. Qed.

Lemma lookup_published_relations cfg ts all e :
  e <> VELERO_BACKUP_RELATION ->
  published_relations cfg ts all !! e = all !! e.
Proof.
  intros He. unfold published_relations.
  destruct (all !! VELERO_BACKUP_RELATION); [ | reflexivity].
  apply lookup_insert_ne. congruence.
Qed.

Lemma k8s_published cfg c :
  k8s_backup_relations (published_state cfg c) = k8s_backup_relations c.
Proof.
  unfold k8s_backup_relations, relations_get.
  rewrite relations_published, lookup_published_relations by discriminate.
  reflexivity.
Qed.

Lemma velero_published cfg c :
  velero_relations (published_state cfg c)
  = map (published cfg
           (targets_of (Ops.model_name c) (k8s_backup_relations c)))
      (velero_relations c).
Proof. apply (velero_relations_published cfg _ _ c). Qed.

(** ** Publishing twice *)

Lemma foldl_payload_twice cfg ts (bag : gmap string string) :
  foldl (fun b t => databag_update (payload cfg t) b)
    (foldl (fun b t => databag_update (payload cfg t) b) bag ts) ts
  = foldl (fun b t => databag_update (payload cfg t) b) bag ts.
Proof.
  destruct ts as [|t0 ts0] using rev_ind; [reflexivity | ].
  rewrite !foldl_app. cbn [foldl].
  rewrite payload_absorbs_all. apply payload_absorbs.
Qed.

Lemma published_twice cfg ts r :
  published cfg ts (published cfg ts r) = published cfg ts r.
Proof.
  unfold published, with_local_app_data. cbn [local_app_data id name app
    remote_app_data].
  rewrite foldl_payload_twice. reflexivity.
Qed.

Lemma published_relations_twice cfg ts all :
  published_relations cfg ts (published_relations cfg ts all)
  = published_relations cfg ts all.
Proof.
  unfold published_relations.
  destruct (all !! VELERO_BACKUP_RELATION) as [rs|] eqn:He.
  - rewrite lookup_insert_eq, insert_insert_eq, List.map_map.
    f_equal. apply List.map_ext. intros r. apply published_twice.
  - rewrite He. reflexivity.
Qed.

(** ** Keys that a record does not use *)

Lemma lookup_payload_other cfg t (bag : gmap string string) k :
  ~ In k record_keys ->
  databag_update (payload cfg t) bag !! k = bag !! k.
Proof.
  intros Hk. unfold payload, to_databag_dict, databag_update.
  cbn [foldl fst snd]. rewrite !lookup_databag_set.
  repeat case_decide; try reflexivity; subst; exfalso; apply Hk;
    unfold record_keys; simpl; tauto.
Qed.

Lemma lookup_published_other cfg ts r k :
  ~ In k record_keys ->
  local_app_data (published cfg ts r) !! k = local_app_data r !! k.
Proof.
  intros Hk. unfold published. cbn [local_app_data with_local_app_data].
  generalize (local_app_data r) as bag.
  induction ts as [|t ts IH]; intros bag; [reflexivity | ].
  cbn [foldl]. rewrite IH. apply lookup_payload_other. exact Hk.
Qed.

Lemma frame_published cfg ts r : frame (published cfg ts r) = frame r.
Proof. reflexivity. Qed.

End WholePassFacts.

(** Without a downstream relation the pass of the leader, its
    configuration being valid, ends blocked on the missing relation,
    whatever the upstream relations hold; it accesses no databag. *)
Theorem missing_downstream_blocks_without_access
    (c : Ops.Charm) (cfg : CharmConfig.t) :
  Ops.is_leader c = true ->
  Context.config c = Some cfg ->
  Context.velero_relations c = [] ->
  Ops.unit_status (Pass.after Events._reconcile c)
  = Ops.BlockedStatus "Missing relation: velero-backup"
  /\ Ops.accesses (Pass.after Events._reconcile c) = Ops.accesses c
  /\ Ops.relations (Pass.after Events._reconcile c) = Ops.relations c.
Proof.
  intros Hl Hc Hv. unfold Pass.after.
  rewrite (ReconcileFacts.reconcile_missing_velero c cfg Hl Hc Hv).
  repeat split; reflexivity.
Qed.

Lemma missing_downstream_witness :
  let c := Scenario.state true (Scenario.with_schedule "0 2 * * *")
             [] [Scenario.k8s_relation1; Scenario.k8s_relation2] in
  Ops.unit_status (Pass.after Events._reconcile c)
  = Ops.BlockedStatus "Missing relation: velero-backup"
  /\ Ops.accesses (Pass.after Events._reconcile c) = Ops.accesses c
  /\ Ops.relations (Pass.after Events._reconcile c) = Ops.relations c.
Proof.
  intros c.
  apply (missing_downstream_blocks_without_access c Scenario.valid_config).
  - reflexivity.
  - vm_compute. reflexivity.
  - vm_compute. reflexivity.
Defined.

(** With a downstream and an upstream relation the pass of the leader ends
    active, and the message depends on the configuration alone: manual
    mode without a schedule, paused when the schedule is paused, the
    schedule itself otherwise. Whether any upstream payload is usable
    plays no part. *)
Theorem active_status_follows_schedule
    (c : Ops.Charm) (cfg : CharmConfig.t) :
  Ops.is_leader c = true ->
  Context.config c = Some cfg ->
  Context.velero_relations c <> [] ->
  Context.k8s_backup_relations c <> [] ->
  Ops.unit_status (Pass.after Events._reconcile c)
  = match CharmConfig.schedule cfg with
    | None => Ops.ActiveStatus "Manual backup mode"
    | Some s =>
        if CharmConfig.paused cfg then Ops.ActiveStatus "Schedule paused"
        else Ops.ActiveStatus ("Schedule: " +:+ s)
    end.
Proof.
  intros Hl Hc Hv Hk. unfold Pass.after.
  rewrite (ReconcileFacts.reconcile_publishes c cfg Hl Hc Hv).
  cbn [snd Ops.unit_status Ops.with_unit_status].
  unfold Pass.closing_status, Context.has_k8s_backup_relation.
  destruct (Context.k8s_backup_relations c) as [|r rs]; [contradiction | ].
  cbn [length Nat.ltb Nat.leb negb].
  unfold CharmConfig.is_paused, CharmConfig.is_scheduled.
  destruct (CharmConfig.schedule cfg), (CharmConfig.paused cfg); reflexivity.
Qed.

Lemma active_status_witness :
  let c := Scenario.state true (Scenario.with_schedule "0 2 * * *")
             [Scenario.velero_relation] [Scenario.invalid_relation] in
  Ops.unit_status (Pass.after Events._reconcile c)
  = Ops.ActiveStatus "Schedule: 0 2 * * *".
Proof.
  intros c.
  apply (active_status_follows_schedule c Scenario.valid_config).
  - reflexivity.
  - vm_compute. reflexivity.
  - vm_compute. discriminate.
  - vm_compute. discriminate.
Defined.

(** A pass never ends in an exception, whatever the state it starts
    from. *)
Theorem reconcile_never_raises (c : Ops.Charm) :
  fst (Events._reconcile c) = Ok tt.
Proof.
  destruct (WholePassFacts.reconcile_cases c)
    as [[_ H]|[(_ & _ & H)|[(cfg & _ & _ & _ & H)|(cfg & _ & _ & _ & H)]]];
    rewrite H; reflexivity.
Qed.

(** A second pass right after a pass changes neither a databag nor the
    status. *)
Theorem reconcile_twice_changes_nothing (c : Ops.Charm) :
  Ops.relations (Pass.after Events._reconcile (Pass.after Events._reconcile c))
  = Ops.relations (Pass.after Events._reconcile c)
  /\ Ops.unit_status
       (Pass.after Events._reconcile (Pass.after Events._reconcile c))
     = Ops.unit_status (Pass.after Events._reconcile c).
Proof.
  unfold Pass.after.
  destruct (WholePassFacts.reconcile_cases c)
    as [[Hl H]|[(Hl & Hc & H)|[(cfg & Hl & Hc & Hv & H)
                               |(cfg & Hl & Hc & Hv & H)]]];
    rewrite H; cbn [snd].
  - rewrite ReconcileFacts.reconcile_standby by exact Hl.
    split; reflexivity.
  - rewrite ReconcileFacts.reconcile_config_invalid by assumption.
    split; reflexivity.
  - rewrite (ReconcileFacts.reconcile_missing_velero _ cfg) by assumption.
    split; reflexivity.
  - assert (Hv' : Context.velero_relations (Observe.published_state cfg c)
                  <> []).
    { rewrite WholePassFacts.velero_published.
      destruct (Context.velero_relations c); [contradiction | discriminate]. }
    rewrite (ReconcileFacts.reconcile_publishes
               (Observe.published_state cfg c) cfg Hl Hc Hv').
    cbn [snd Ops.relations Ops.unit_status Ops.with_unit_status].
    rewrite !PassFacts.relations_moved.
    rewrite WholePassFacts.model_name_published, WholePassFacts.k8s_published.
    rewrite WholePassFacts.relations_published.
    split; [apply WholePassFacts.published_relations_twice | ].
    unfold Context.has_k8s_backup_relation.
    rewrite WholePassFacts.k8s_published. reflexivity.
Qed.

(** A pass leaves leadership, configuration and model name alone, touches
    no relation of another endpoint, and of a downstream relation changes
    nothing but the databag of its own application. *)
Theorem reconcile_changes_only_downstream_databags (c : Ops.Charm) :
  Ops.is_leader (Pass.after Events._reconcile c) = Ops.is_leader c
  /\ Ops.config (Pass.after Events._reconcile c) = Ops.config c
  /\ Ops.model_name (Pass.after Events._reconcile c) = Ops.model_name c
  /\ (forall endpoint,
        endpoint <> Constants.VELERO_BACKUP_RELATION ->
        Ops.relations (Pass.after Events._reconcile c) !! endpoint
        = Ops.relations c !! endpoint)
  /\ map Observe.frame
       (Context.velero_relations (Pass.after Events._reconcile c))
     = map Observe.frame (Context.velero_relations c).
Proof.
  unfold Pass.after.
  destruct (WholePassFacts.reconcile_cases c)
    as [[Hl H]|[(Hl & Hc & H)|[(cfg & Hl & Hc & Hv & H)
                               |(cfg & Hl & Hc & Hv & H)]]];
    rewrite H; cbn [snd]; repeat split; try reflexivity.
  - intros e He. rewrite WholePassFacts.relations_published.
    apply WholePassFacts.lookup_published_relations. exact He.
  - rewrite WholePassFacts.velero_published, List.map_map.
    apply List.map_ext. intros r. apply WholePassFacts.frame_published.
Qed.

(** When the configuration is invalid the publish step does nothing, for
    the leader too: no databag is read or written. *)
Theorem publish_skips_invalid_config (c : Ops.Charm) :
  Context.config c = None ->
  Events.publish_to_all_relations c = (Ok tt, c)
  /\ forall relation, Events.publish_to_relation relation c = (Ok tt, c).
Proof.
  intros Hc.
  assert (Hone : forall relation,
             Events.publish_to_relation relation c = (Ok tt, c)).
  { intros [i|]; unfold Events.publish_to_relation;
      rewrite PassFacts.bind_gets; [ | reflexivity].
    destruct (Ops.is_leader c); [ | reflexivity].
    cbn [negb]. rewrite PassFacts.bind_gets, Hc. reflexivity. }
  split; [ | exact Hone].
  unfold Events.publish_to_all_relations. rewrite PassFacts.bind_gets.
  destruct (Ops.is_leader c); [ | reflexivity].
  cbn [negb]. rewrite PassFacts.bind_gets.
  generalize (seq 0 (length (Context.velero_relations c))) as l.
  induction l as [|i l IH]; [reflexivity | ].
  cbn [Ops.for_each]. rewrite (PassFacts.bind_ok _ _ _ _ _ (Hone (Some i))).
  exact IH.
Qed.

Lemma publish_skips_invalid_config_witness :
  let c := Scenario.state true (Scenario.with_schedule "invalid-cron")
             [Scenario.velero_relation] [Scenario.k8s_relation1] in
  Events.publish_to_all_relations c = (Ok tt, c)
  /\ forall relation, Events.publish_to_relation relation c = (Ok tt, c).
Proof.
  intros c. apply (publish_skips_invalid_config c).
  vm_compute. reflexivity.
Defined.

Module AccessFacts.
Import Ops Constants Domain Context Events Pass PassFacts ReconcileFacts.
Import Observe.

Lemma reads_of_filter upstream :
  reads_of upstream = map (fun r => Read (id r)) (List.filter has_app upstream).
Proof.
  induction upstream as [|r rs IH]; [reflexivity | ].
  cbn [reads_of List.filter]. unfold has_app at 1.
  destruct (Ops.app r); cbn [map]; rewrite IH; reflexivity.
Qed.

Lemma count_writes_app l1 l2 :
  length (List.filter is_write (l1 ++ l2))
  = length (List.filter is_write l1) + length (List.filter is_write l2).
Proof. rewrite List.filter_app, length_app. reflexivity. Qed.

Lemma count_reads_app l1 l2 :
  length (List.filter is_read (l1 ++ l2))
  = length (List.filter is_read l1) + length (List.filter is_read l2).
Proof. rewrite List.filter_app, length_app. reflexivity. Qed.

Lemma count_writes_reads upstream :
  length (List.filter is_write (reads_of upstream)) = 0.
Proof.
  induction upstream as [|r rs IH]; [reflexivity | ].
  cbn [reads_of]. destruct (Ops.app r); exact IH.
Qed.

Lemma count_reads_reads upstream :
  length (List.filter is_read (reads_of upstream))
  = length (List.filter has_app upstream).
Proof.
  induction upstream as [|r rs IH]; [reflexivity | ].
  cbn [reads_of List.filter]. unfold has_app at 1.
  destruct (Ops.app r); cbn [List.filter is_read length]; rewrite IH; reflexivity.
Qed.

Lemma count_writes_writes {A} (f : A -> access) l :
  (forall x, is_write (f x) = true) ->
  length (List.filter is_write (map f l)) = length l.
Proof.
  intros Hf. induction l as [|x l IH]; [reflexivity | ].
  cbn [map List.filter]. rewrite Hf. cbn [length]. rewrite IH. reflexivity.
Qed.

Lemma count_reads_writes {A} (f : A -> access) l :
  (forall x, is_read (f x) = false) ->
  length (List.filter is_read (map f l)) = 0.
Proof.
  intros Hf. induction l as [|x l IH]; [reflexivity | ].
  cbn [map List.filter]. rewrite Hf. exact IH.
Qed.

Lemma count_publish_accesses cfg upstream ts downstream :
  length (List.filter is_write
            (concat (map (publish_accesses cfg upstream ts) downstream)))
  = length ts * length downstream
  /\ length (List.filter is_read
               (concat (map (publish_accesses cfg upstream ts) downstream)))
     = length (List.filter has_app upstream) * length downstream.
Proof.
  induction downstream as [|r rs [IHw IHr]].
  - cbn [map concat List.filter length]. split; lia.
  - cbn [map concat]. rewrite count_writes_app, count_reads_app, IHw, IHr.
    unfold publish_accesses.
    rewrite count_writes_app, count_reads_app, count_writes_reads,
      count_reads_reads.
    rewrite count_writes_writes by reflexivity.
    rewrite count_reads_writes by reflexivity.
    cbn [length]. split; lia.
Qed.

Lemma lookup_map_inv {A B} (f : A -> B) (l : list A) i y :
  map f l !! i = Some y -> exists x, l !! i = Some x /\ y = f x.
Proof.
  revert i. induction l as [|x l IH]; intros i H; [destruct i; discriminate | ].
  destruct i as [|i]; cbn in H.
  - injection H as <-. exists x. split; reflexivity.
  - apply IH. exact H.
Qed.

End AccessFacts.

(** The accesses of a publishing pass, in order: for each downstream
    relation in turn, one read of every upstream relation that has a
    remote application, then one write per record of the pass. With M
    downstream relations and N records that makes N times M writes, and
    the upstream databags are read once per downstream relation. *)
Theorem publish_step_accesses
    (c : Ops.Charm) (cfg : CharmConfig.t)
    (ts : list Domain.BackupTargetInfo) :
  Ops.is_leader c = true ->
  Context.config c = Some cfg ->
  Context.velero_relations c <> [] ->
  fst (Context.get_backup_targets c) = Ok ts ->
  let upstream := List.filter Observe.has_app (Context.k8s_backup_relations c) in
  let downstream := Context.velero_relations c in
  exists added,
    Ops.accesses (Pass.after Events._reconcile c) = Ops.accesses c ++ added
    /\ added
       = concat
           (map (fun r =>
                   map (fun u => Ops.Read (Ops.id u)) upstream
                   ++ map (fun t => Ops.Write (Ops.id r) (Pass.payload cfg t)) ts)
              downstream)
    /\ length (List.filter Observe.is_write added) = length ts * length downstream
    /\ length (List.filter Observe.is_read added)
       = length upstream * length downstream.
Proof.
  intros Hl Hc Hv Hts upstream downstream.
  rewrite PassFacts.get_backup_targets_run in Hts. cbn [fst] in Hts.
  injection Hts as Hts.
  exists (concat
            (map (Pass.publish_accesses cfg (Context.k8s_backup_relations c) ts)
               downstream)).
  split; [ | split].
  - unfold Pass.after.
    rewrite (ReconcileFacts.reconcile_publishes c cfg Hl Hc Hv), Hts.
    reflexivity.
  - f_equal. apply List.map_ext. intros r. unfold Pass.publish_accesses.
    rewrite AccessFacts.reads_of_filter. reflexivity.
  - apply AccessFacts.count_publish_accesses.
Qed.

Lemma publish_step_accesses_witness :
  let c := Scenario.state true (Scenario.with_schedule "0 2 * * *")
             [Scenario.velero_relation; Scenario.velero_relation]
             [Scenario.k8s_relation1; Scenario.invalid_relation;
              Scenario.k8s_relation2] in
  exists added,
    Ops.accesses (Pass.after Events._reconcile c) = Ops.accesses c ++ added
    /\ length (List.filter Observe.is_write added) = 2 * 2
    /\ length (List.filter Observe.is_read added) = 3 * 2.
Proof.
  intros c.
  pose (ts := Pass.targets_of (Ops.model_name c)
                (Context.k8s_backup_relations c)).
  assert (Hts : fst (Context.get_backup_targets c) = Ok ts)
    by (vm_compute; reflexivity).
  assert (Hl : Ops.is_leader c = true) by reflexivity.
  assert (Hc : Context.config c = Some Scenario.valid_config)
    by (vm_compute; reflexivity).
  assert (Hv : Context.velero_relations c <> [])
    by (vm_compute; discriminate).
  destruct (publish_step_accesses c Scenario.valid_config ts Hl Hc Hv Hts)
    as (added & Ha & _ & Hw & Hr).
  exists added. split; [exact Ha | split].
  - rewrite Hw. vm_compute. reflexivity.
  - rewrite Hr. vm_compute. reflexivity.
Defined.

(** A pass never removes or changes a key of a downstream databag other
    than the four keys of a record. *)
Theorem reconcile_keeps_other_keys
    (c : Ops.Charm) (i : nat) (r' : Ops.Relation) (k : string) :
  Context.velero_relations (Pass.after Events._reconcile c) !! i = Some r' ->
  ~ In k Observe.record_keys ->
  exists r,
    Context.velero_relations c !! i = Some r
    /\ Ops.local_app_data r' !! k = Ops.local_app_data r !! k.
Proof.
  unfold Pass.after. intros Hi Hk.
  destruct (WholePassFacts.reconcile_cases c)
    as [[Hl H]|[(Hl & Hc & H)|[(cfg & Hl & Hc & Hv & H)
                               |(cfg & Hl & Hc & Hv & H)]]];
    rewrite H in Hi; cbn [snd] in Hi.
  - exists r'. split; [exact Hi | reflexivity].
  - exists r'. split; [exact Hi | reflexivity].
  - exists r'. split; [exact Hi | reflexivity].
  - rewrite WholePassFacts.velero_published in Hi.
    apply AccessFacts.lookup_map_inv in Hi as (r & Hr & ->).
    exists r. split; [exact Hr | ].
    apply WholePassFacts.lookup_published_other. exact Hk.
Qed.

Lemma reconcile_keeps_other_keys_witness :
  let kept := {| Ops.id := 1; Ops.name := Constants.VELERO_BACKUP_RELATION;
                 Ops.app := Some "remote"; Ops.remote_app_data := Some ∅;
                 Ops.local_app_data := {[ "note" := "kept" ]} |} in
  let c := Scenario.state true (Scenario.with_schedule "0 2 * * *")
             [kept] [Scenario.k8s_relation1] in
  exists r' r,
    Context.velero_relations (Pass.after Events._reconcile c) !! 0 = Some r'
    /\ Context.velero_relations c !! 0 = Some r
    /\ Ops.local_app_data r' !! "note" = Ops.local_app_data r !! "note".
Proof.
  intros kept c.
  pose (r' := Pass.published Scenario.valid_config
                (Pass.targets_of (Ops.model_name c)
                   (Context.k8s_backup_relations c)) kept).
  assert (Hi : Context.velero_relations (Pass.after Events._reconcile c) !! 0
               = Some r') by (vm_compute; reflexivity).
  assert (Hk : ~ In "note" Observe.record_keys).
  { simpl. intros [H|[H|[H|[H|[]]]]]; discriminate. }
  destruct (reconcile_keeps_other_keys c 0 r' "note" Hi Hk) as (r & Hr & E).
  exists r', r. auto.
Defined.

Module RecordFacts.
Import Ops Constants Domain Context Events Pass PassFacts ReconcileFacts.
Import Observe.

Lemma dumps_object_nonempty members :
  String.eqb (Json.dumps (Json.JObj members)) "" = false.
Proof. reflexivity. Qed.

(** What a databag holds under the four keys once a record was
    published. *)
Lemma lookup_payload cfg t (bag : gmap string string) :
  databag_update (payload cfg t) bag !! SPEC_FIELD
  = Some (VeleroBackupConfig.model_dump_json (merged t cfg))
  /\ databag_update (payload cfg t) bag !! APP_FIELD = stored (app_name t)
  /\ databag_update (payload cfg t) bag !! RELATION_FIELD
     = stored (relation_name t)
  /\ databag_update (payload cfg t) bag !! MODEL_FIELD
     = stored (Domain.model_name t).
Proof.
  unfold payload, to_databag_dict, databag_update, stored.
  cbn [foldl fst snd]. rewrite !lookup_databag_set.
  unfold VeleroBackupConfig.model_dump_json.
  rewrite dumps_object_nonempty.
  repeat split; repeat case_decide; try reflexivity; try discriminate;
    congruence.
Qed.

Lemma relation_of_record data r m t :
  from_relation_data data r m = Ok (Some t) -> relation t = r.
Proof.
  unfold from_relation_data.
  destruct (negb (truthy (data !! SPEC_FIELD))); [discriminate | ].
  destruct (BackupTarget.model_validate_json _); [ | discriminate].
  destruct (app_name_of data r); [ | discriminate].
  intros [= <-]. reflexivity.
Qed.

(** The records of some upstream relations stem from them, in order. *)
Lemma targets_of_sublist m upstream :
  sublist (map relation (targets_of m upstream))
    (List.filter has_app upstream)
  /\ Forall (fun t =>
               from_relation_data
                 (default ∅ (remote_app_data (relation t))) (relation t) m
               = Ok (Some t))
       (targets_of m upstream).
Proof.
  induction upstream as [|r rs [IHs IHf]]; [split; constructor | ].
  cbn [targets_of List.filter]. unfold has_app at 1.
  destruct (Ops.app r) as [a|]; [ | split; assumption].
  destruct (from_relation_data _ r m) as [[t|]|e] eqn:E.
  - pose proof (relation_of_record _ _ _ _ E) as Hr.
    cbn [map]. split.
    + rewrite Hr. apply sublist_skip. exact IHs.
    + constructor; [rewrite Hr; exact E | exact IHf].
  - split; [apply sublist_cons; exact IHs | exact IHf].
  - split; [apply sublist_cons; exact IHs | exact IHf].
Qed.

Lemma from_relation_data_raise_inv data r m e :
  from_relation_data data r m = Raise e ->
  Ops.app r = None /\ truthy (data !! APP_FIELD) = false
  /\ truthy (data !! SPEC_FIELD) = true
  /\ is_ok (BackupTarget.model_validate_json (default "" (data !! SPEC_FIELD)))
     = true
  /\ e = AttributeError "'NoneType' object has no attribute 'name'".
Proof.
  unfold from_relation_data, app_name_of.
  destruct (truthy (data !! SPEC_FIELD)); cbn [negb]; [ | discriminate].
  destruct (BackupTarget.model_validate_json _); [ | discriminate].
  destruct (truthy (data !! APP_FIELD)); [discriminate | ].
  destruct (Ops.app r); [discriminate | ].
  intros [= <-]. repeat split.
Qed.

End RecordFacts.

(** After a pass with at least one record, each downstream databag holds
    the last record: under [spec] the text of its merged specification,
    and under [app], [relation_name] and [model] its provenance, a key
    being absent when the value is the empty string. *)
Theorem downstream_databag_holds_last_record
    (c : Ops.Charm) (cfg : CharmConfig.t)
    (ts : list Domain.BackupTargetInfo) (t : Domain.BackupTargetInfo)
    (r' : Ops.Relation) :
  Ops.is_leader c = true ->
  Context.config c = Some cfg ->
  fst (Context.get_backup_targets c) = Ok ts ->
  last ts = Some t ->
  In r' (Context.velero_relations (Pass.after Events._reconcile c)) ->
  exists v,
    Domain.to_velero_spec t cfg = Ok v
    /\ Ops.local_app_data r' !! Domain.SPEC_FIELD
       = Some (VeleroBackupConfig.model_dump_json v)
    /\ Ops.local_app_data r' !! Domain.APP_FIELD
       = Observe.stored (Domain.app_name t)
    /\ Ops.local_app_data r' !! Domain.RELATION_FIELD
       = Observe.stored (Domain.relation_name t)
    /\ Ops.local_app_data r' !! Domain.MODEL_FIELD
       = Observe.stored (Domain.model_name t).
Proof.
  intros Hl Hc Hts Hlast Hin.
  rewrite PassFacts.get_backup_targets_run in Hts. cbn [fst] in Hts.
  injection Hts as Hts.
  apply last_Some in Hlast as [earlier ->].
  exists (Pass.merged t cfg).
  split; [apply MergeFacts.to_velero_spec_merged | ].
  unfold Pass.after in Hin.
  destruct (Context.velero_relations c) as [|v0 vs] eqn:Hv.
  - rewrite (ReconcileFacts.reconcile_missing_velero c cfg Hl Hc Hv) in Hin.
    cbn [snd] in Hin.
    rewrite PublishFacts.velero_relations_after_status, Hv in Hin.
    contradiction.
  - rewrite (ReconcileFacts.reconcile_publishes c cfg Hl Hc) in Hin
      by (rewrite Hv; discriminate).
    cbn [snd] in Hin.
    rewrite PublishFacts.velero_relations_after_status,
      ReconcileFacts.velero_relations_published, Hts in Hin.
    apply in_map_iff in Hin as (r & <- & _).
    rewrite ReconcileFacts.published_last.
    cbn [Ops.local_app_data Ops.with_local_app_data].
    apply RecordFacts.lookup_payload.
Qed.

Lemma downstream_databag_witness :
  let c := Scenario.state true (Scenario.with_schedule "0 2 * * *")
             [Scenario.velero_relation]
             [Scenario.k8s_relation1; Scenario.k8s_relation2] in
  exists t r' v,
    In r' (Context.velero_relations (Pass.after Events._reconcile c))
    /\ Domain.to_velero_spec t Scenario.valid_config = Ok v
    /\ Ops.local_app_data r' !! Domain.APP_FIELD = Some "app2"
    /\ Ops.local_app_data r' !! Domain.MODEL_FIELD = Some "test-model".
Proof.
  intros c.
  pose (ts := Pass.targets_of (Ops.model_name c)
                (Context.k8s_backup_relations c)).
  assert (Hts : fst (Context.get_backup_targets c) = Ok ts)
    by (vm_compute; reflexivity).
  assert (Hshape : exists t1 t2, ts = [t1; t2]
                                 /\ Domain.app_name t2 = "app2"
                                 /\ Domain.model_name t2 = "test-model")
    by (vm_compute; eexists; eexists; repeat split; reflexivity).
  destruct Hshape as (t1 & t2 & E & Ha & Hm).
  pose (r' := Pass.published Scenario.valid_config ts Scenario.velero_relation).
  assert (Hall : Context.velero_relations (Pass.after Events._reconcile c)
                 = [r']) by (vm_compute; reflexivity).
  assert (Hin : In r' (Context.velero_relations
                         (Pass.after Events._reconcile c)))
    by (rewrite Hall; left; reflexivity).
  assert (Hl : Ops.is_leader c = true) by reflexivity.
  assert (Hc : Context.config c = Some Scenario.valid_config)
    by (vm_compute; reflexivity).
  assert (Hlast : last ts = Some t2) by (rewrite E; reflexivity).
  destruct (downstream_databag_holds_last_record
              c Scenario.valid_config ts t2 r' Hl Hc Hts Hlast Hin)
    as (v & Hv & _ & Happ & _ & Hmodel).
  exists t2, r', v. rewrite Ha in Happ. rewrite Hm in Hmodel.
  split; [exact Hin | ]. split; [exact Hv | ]. split; assumption.
Defined.

(** Building a record from a payload fails, with an [AttributeError], in
    one case only: the payload has a usable specification and no
    application name, and the relation has no remote application. *)
Theorem from_relation_data_raises_iff
    (data : gmap string string) (r : Ops.Relation) (m : string) :
  (exists e, Domain.from_relation_data data r m = Raise e)
  <-> (Ops.app r = None
       /\ truthy (data !! Domain.APP_FIELD) = false
       /\ truthy (data !! Domain.SPEC_FIELD) = true
       /\ is_ok (BackupTarget.model_validate_json
                   (default "" (data !! Domain.SPEC_FIELD))) = true).
Proof.
  split.
  - intros [e He].
    apply RecordFacts.from_relation_data_raise_inv in He
      as (H1 & H2 & H3 & H4 & _).
    auto.
  - intros (H1 & H2 & H3 & H4).
    unfold Domain.from_relation_data, Domain.app_name_of.
    rewrite H3. cbn [negb].
    destruct (BackupTarget.model_validate_json _); [ | discriminate].
    rewrite H2, H1. eauto.
Qed.

(** Collecting the records never fails and changes no databag. It reads
    once, in order, each upstream relation that has a remote application
    and no other; the records come in the order of the relations they stem
    from, at most one per relation, and each is what its relation's
    payload yields. *)
Theorem get_backup_targets_reads_each_upstream_once (c : Ops.Charm) :
  exists ts,
    fst (Context.get_backup_targets c) = Ok ts
    /\ Ops.relations (Pass.after Context.get_backup_targets c)
       = Ops.relations c
    /\ Ops.accesses (Pass.after Context.get_backup_targets c)
       = Ops.accesses c
         ++ map (fun r => Ops.Read (Ops.id r))
              (List.filter Observe.has_app (Context.k8s_backup_relations c))
    /\ sublist (map Domain.relation ts)
         (List.filter Observe.has_app (Context.k8s_backup_relations c))
    /\ Forall (fun t =>
                 Domain.from_relation_data
                   (default ∅ (Ops.remote_app_data (Domain.relation t)))
                   (Domain.relation t) (Ops.model_name c)
                 = Ok (Some t))
         ts.
Proof.
  exists (Pass.targets_of (Ops.model_name c) (Context.k8s_backup_relations c)).
  unfold Pass.after. rewrite PassFacts.get_backup_targets_run.
  cbn [fst snd].
  rewrite PassFacts.relations_moved, PassFacts.accesses_moved,
    AccessFacts.reads_of_filter.
  repeat split; apply RecordFacts.targets_of_sublist.
Qed.

(* ===================================================================== *)
(** * Records that are skipped, written and overwritten *)
(* ===================================================================== *)

Module OverwriteFacts.
Import Ops Constants Domain Context Events Pass PassFacts ReconcileFacts.
Import Observe.



(** The four items of a published record, key by key. *)
Lemma payload_items cfg t :
  payload cfg t
  = [ ("spec", VeleroBackupConfig.model_dump_json (merged t cfg));
      ("app", app_name t);
      ("relation_name", relation_name t);
      ("model", Domain.model_name t) ].
Proof. reflexivity. Qed.


(** Every write of the publish step carries the four keys of a record. *)
Lemma publish_accesses_keys cfg upstream ts downstream :
  Forall (fun a =>
            match a with
            | Write _ items =>
                map fst items = ["spec"; "app"; "relation_name"; "model"]
            | Read _ => True
            end)
    (concat (map (publish_accesses cfg upstream ts) downstream)).
Proof.
  apply Forall_concat, Forall_map, Forall_forall. intros r _.
  unfold publish_accesses. apply Forall_app. split.
  - rewrite AccessFacts.reads_of_filter. apply Forall_map, Forall_forall.
    intros u _. exact I.
  - apply Forall_map, Forall_forall. intros t _. reflexivity.
Qed.

(** The pass of the leader that has a valid configuration, seen from a
    downstream relation it leaves. *)
Lemma downstream_after_pass c cfg r' :
  is_leader c = true -> Context.config c = Some cfg ->
  In r' (velero_relations (after _reconcile c)) ->
  exists r,
    In r (velero_relations c)
    /\ r' = published cfg
              (targets_of (Ops.model_name c) (k8s_backup_relations c)) r
    /\ accesses (after _reconcile c)
       = accesses c
         ++ concat
              (map (publish_accesses cfg (k8s_backup_relations c)
                      (targets_of (Ops.model_name c)
                         (k8s_backup_relations c)))
                 (velero_relations c)).
Proof.
  intros Hl Hc Hin. unfold after in *.
  assert (Hne : velero_relations c <> []).
  { intros Hv.
    rewrite (reconcile_missing_velero c cfg Hl Hc Hv) in Hin.
    cbn [snd] in Hin.
    rewrite PublishFacts.velero_relations_after_status, Hv in Hin.
    contradiction. }
  rewrite (reconcile_publishes c cfg Hl Hc Hne) in Hin |- *.
  cbn [snd] in Hin |- *.
  rewrite PublishFacts.velero_relations_after_status,
    velero_relations_published in Hin.
  apply in_map_iff in Hin as (r & <- & Hr).
  exists r. split; [exact Hr | ]. split; reflexivity.
Qed.

End OverwriteFacts.



(** C10: every write of a pass carries the same four keys, [spec], [app],
    [relation_name] and [model]; hence after a pass with two or more
    records each downstream databag holds under them the last record,
    the text of its merged specification and its provenance: the records
    written before it in the pass are overwritten, and the databag is what
    writing the last record alone leaves. *)
Theorem C10_last_target_overwrites_earlier_ones
    (c : Ops.Charm) (cfg : CharmConfig.t)
    (ts : list Domain.BackupTargetInfo) (t_last : Domain.BackupTargetInfo)
    (r' : Ops.Relation) :
  Ops.is_leader c = true ->
  Context.config c = Some cfg ->
  fst (Context.get_backup_targets c) = Ok ts ->
  2 <= length ts ->
  last ts = Some t_last ->
  In r' (Context.velero_relations (Pass.after Events._reconcile c)) ->
  (exists added,
     Ops.accesses (Pass.after Events._reconcile c) = Ops.accesses c ++ added
     /\ Forall (fun a =>
                  match a with
                  | Ops.Write _ items =>
                      map fst items
                      = ["spec"; "app"; "relation_name"; "model"]
                  | Ops.Read _ => True
                  end) added
     /\ length (List.filter Observe.is_write added)
        = length ts * length (Context.velero_relations c))
  /\ (exists v,
        Domain.to_velero_spec t_last cfg = Ok v
        /\ Ops.local_app_data r' !! "spec"
           = Some (VeleroBackupConfig.model_dump_json v))
  /\ Ops.local_app_data r' !! "app" = Observe.stored (Domain.app_name t_last)
  /\ Ops.local_app_data r' !! "relation_name"
     = Observe.stored (Domain.relation_name t_last)
  /\ Ops.local_app_data r' !! "model"
     = Observe.stored (Domain.model_name t_last)
  /\ (forall t,
        In t ts -> Domain.app_name t <> Domain.app_name t_last ->
        Ops.local_app_data r' !! "app" <> Some (Domain.app_name t))
  /\ exists r,
       In r (Context.velero_relations c)
       /\ r' = Ops.with_local_app_data r
                 (Ops.databag_update
                    [ ("spec",
                       VeleroBackupConfig.model_dump_json
                         (Pass.merged t_last cfg));
                      ("app", Domain.app_name t_last);
                      ("relation_name", Domain.relation_name t_last);
                      ("model", Domain.model_name t_last) ]
                    (Ops.local_app_data r)).
Proof.
  intros Hl Hc Hts _ Hlast Hin.
  rewrite PassFacts.get_backup_targets_run in Hts. cbn [fst] in Hts.
  injection Hts as Hts.
  destruct (OverwriteFacts.downstream_after_pass c cfg r' Hl Hc Hin)
    as (r & Hr & Er & Hlog).
  rewrite Hts in Er, Hlog.
  apply last_Some in Hlast as [earlier E].
  rewrite E, ReconcileFacts.published_last in Er.
  destruct (RecordFacts.lookup_payload cfg t_last (Ops.local_app_data r))
    as (Hspec & Happ & Hrel & Hmodel).
  assert (Hbag : Ops.local_app_data r'
                 = Ops.databag_update (Pass.payload cfg t_last)
                     (Ops.local_app_data r))
    by (rewrite Er; reflexivity).
  split; [ | split; [ | split; [ | split; [ | split; [ | split]]]]].
  - eexists. split; [exact Hlog | ]. split.
    + apply OverwriteFacts.publish_accesses_keys.
    + apply AccessFacts.count_publish_accesses.
  - exists (Pass.merged t_last cfg).
    split; [apply MergeFacts.to_velero_spec_merged | ].
    rewrite Hbag. exact Hspec.
  - rewrite Hbag. exact Happ.
  - rewrite Hbag. exact Hrel.
  - rewrite Hbag. exact Hmodel.
  - intros t _ Hdiff Heq. rewrite Hbag in Heq.
    change (Ops.databag_update (Pass.payload cfg t_last)
              (Ops.local_app_data r) !! Domain.APP_FIELD
            = Some (Domain.app_name t)) in Heq.
    rewrite Happ in Heq. unfold Observe.stored in Heq.
    destruct (String.eqb (Domain.app_name t_last) ""); [discriminate | ].
    injection Heq as Heq. congruence.
  - exists r. split; [exact Hr | ].
    rewrite <- (OverwriteFacts.payload_items cfg t_last). exact Er.
Qed.

Lemma C10_last_target_witness :
  let c := Scenario.state true (Scenario.with_schedule "0 2 * * *")
             [Scenario.velero_relation]
             [Scenario.k8s_relation1; Scenario.k8s_relation2] in
  let s2 := {| BackupTarget.include_namespaces := Some ["ns2"];
               BackupTarget.include_resources := None;
               BackupTarget.exclude_namespaces := None;
               BackupTarget.exclude_resources := None;
               BackupTarget.label_selector := None;
               BackupTarget.ttl := None;
               BackupTarget.include_cluster_resources := None |} in
  let v2 := {| VeleroBackupConfig.target := s2;
               VeleroBackupConfig.schedule := Some "0 2 * * *";
               VeleroBackupConfig.paused := false;
               VeleroBackupConfig.skip_immediately := true;
               VeleroBackupConfig.use_owner_references_in_backup := true |} in
  exists r',
    Context.velero_relations (Pass.after Events._reconcile c) = [r']
    /\ Ops.local_app_data r' !! "spec"
       = Some (VeleroBackupConfig.model_dump_json v2)
    /\ Ops.local_app_data r' !! "app" = Some "app2"
    /\ Ops.local_app_data r' !! "relation_name" = Some "k8s-backup-target"
    /\ Ops.local_app_data r' !! "model" = Some "test-model"
    /\ Ops.local_app_data r' !! "app" <> Some "app1".
Proof.
  intros c s2 v2.
  pose (t2 := {| Domain.spec := s2;
                 Domain.app_name := "app2";
                 Domain.relation_name := "k8s-backup-target";
                 Domain.model_name := "test-model";
                 Domain.relation := Scenario.k8s_relation2 |}).
  pose (ts := Pass.targets_of (Ops.model_name c)
                (Context.k8s_backup_relations c)).
  assert (Hts : fst (Context.get_backup_targets c) = Ok ts)
    by (vm_compute; reflexivity).
  assert (Hshape : exists t1, ts = [t1; t2] /\ Domain.app_name t1 = "app1")
    by (vm_compute; eexists; split; reflexivity).
  destruct Hshape as (t1 & E & Ha1).
  assert (Hv2 : Domain.to_velero_spec t2 Scenario.valid_config = Ok v2)
    by (vm_compute; reflexivity).
  pose (r' := Pass.published Scenario.valid_config ts Scenario.velero_relation).
  assert (Hall : Context.velero_relations (Pass.after Events._reconcile c)
                 = [r']) by (vm_compute; reflexivity).
  assert (Hin : In r' (Context.velero_relations
                         (Pass.after Events._reconcile c)))
    by (rewrite Hall; left; reflexivity).
  assert (Hl : Ops.is_leader c = true) by reflexivity.
  assert (Hc : Context.config c = Some Scenario.valid_config)
    by (vm_compute; reflexivity).
  assert (Hlen : 2 <= length ts) by (rewrite E; simpl; lia).
  assert (Hlast : last ts = Some t2) by (rewrite E; reflexivity).
  destruct (C10_last_target_overwrites_earlier_ones
              c Scenario.valid_config ts t2 r' Hl Hc Hts Hlen Hlast Hin)
    as (_ & (v & Hv & Hspec) & Happ & Hrel & Hmodel & Hover & _).
  exists r'.
  assert (Ev : v = v2) by congruence. rewrite Ev in Hspec.
  split; [exact Hall | ]. split; [exact Hspec | ].
  split; [exact Happ | ]. split; [exact Hrel | ]. split; [exact Hmodel | ].
  rewrite <- Ha1. apply Hover.
  - rewrite E. left. reflexivity.
  - rewrite Ha1. discriminate.
Defined.

Module ScheduleFacts.
Import Re ReFacts CharmConfig Design CronFacts Observe.

Lemma list_ascii_of_string_append s1 s2 :
  list_ascii_of_string (s1 +:+ s2)
  = list_ascii_of_string s1 ++ list_ascii_of_string s2.
Proof.
  induction s1 as [|c s1 IH]; [reflexivity | ].
  simpl. rewrite IH. reflexivity.
Qed.

(** The characters of [sep.join(parts)] for a one-character separator. *)
Lemma join_chars (sep : ascii) f fs :
  list_ascii_of_string (join (String sep "") (f :: fs))
  = list_ascii_of_string f
    ++ concat (map (fun x => sep :: list_ascii_of_string x) fs).
Proof.
  revert f. induction fs as [|g fs IH]; intros f.
  - cbn [join map concat]. rewrite app_nil_r. reflexivity.
  - change (join (String sep "") (f :: g :: fs))
      with (f +:+ String sep "" +:+ join (String sep "") (g :: fs)).
    rewrite !list_ascii_of_string_append, IH. reflexivity.
Qed.

Lemma is_number_number w : is_number w = true -> number w.
Proof.
  unfold is_number, number. intros H.
  apply andb_true_iff in H as [Hne Hall]. split.
  - destruct w; [discriminate | discriminate].
  - apply Forall_forall. intros c Hc.
    rewrite forallb_forall in Hall. apply Hall.
    apply list_elem_of_In. exact Hc.
Qed.

Lemma number_field w : number w -> cron_field w.
Proof. intros H. apply field_items, items_last, item_number. exact H. Qed.

Lemma spaced_fields_rest fs :
  Forall (fun f => is_number (list_ascii_of_string f) = true) fs ->
  cron_rest (length fs)
    (concat (map (fun x => " "%char :: list_ascii_of_string x) fs)).
Proof.
  induction 1 as [|f fs Hf _ IH]; [constructor | ].
  cbn [length map concat].
  apply (rest_field _ [" "%char] (list_ascii_of_string f)).
  3: exact IH.
  2: apply number_field, is_number_number; exact Hf.
  split; [discriminate | ]. constructor; [reflexivity | constructor].
Qed.

(** ** The characters of a cron expression *)

Lemma all_cron_app w1 w2 : all_cron w1 -> all_cron w2 -> all_cron (w1 ++ w2).
Proof. apply Forall_app_2. Qed.

Lemma all_cron_digits w :
  Forall (fun c => is_digit c = true) w -> all_cron w.
Proof.
  intros Hw. eapply Forall_impl; [exact Hw | ].
  intros c H. unfold cron_char. rewrite H. reflexivity.
Qed.

Lemma all_cron_spaces w :
  Forall (fun c => is_space c = true) w -> all_cron w.
Proof.
  intros Hw. eapply Forall_impl; [exact Hw | ].
  intros c H. unfold cron_char. rewrite H.
  apply orb_true_iff. left. apply orb_true_iff. left.
  apply orb_true_iff. left. apply orb_true_iff. left.
  apply orb_true_iff. left. apply orb_true_r.
Qed.

Lemma all_cron_item w : cron_item w -> all_cron w.
Proof.
  intros [n [_ Hn]|a b [_ Ha] [_ Hb]].
  - apply all_cron_digits. exact Hn.
  - apply all_cron_app; [apply all_cron_digits; exact Ha | ].
    constructor; [reflexivity | apply all_cron_digits; exact Hb].
Qed.

Lemma all_cron_items w : cron_items w -> all_cron w.
Proof.
  induction 1 as [i Hi|i l Hi _ IH].
  - apply all_cron_item. exact Hi.
  - apply all_cron_app; [apply all_cron_item; exact Hi | ].
    constructor; [reflexivity | exact IH].
Qed.

Lemma all_cron_field w : cron_field w -> all_cron w.
Proof.
  intros [ |n [_ Hn]|l Hl| ].
  - constructor; [reflexivity | constructor].
  - constructor; [reflexivity | ].
    constructor; [reflexivity | apply all_cron_digits; exact Hn].
  - apply all_cron_items. exact Hl.
  - constructor; [reflexivity | constructor].
Qed.

Lemma all_cron_rest k w : cron_rest k w -> all_cron w.
Proof.
  induction 1 as [ | |k sp f w [_ Hsp] Hf _ IH].
  - constructor.
  - constructor; [reflexivity | constructor].
  - apply all_cron_app; [apply all_cron_spaces; exact Hsp | ].
    apply all_cron_app; [apply all_cron_field; exact Hf | exact IH].
Qed.

Lemma all_cron_expression s :
  cron_expression s -> all_cron (list_ascii_of_string s).
Proof.
  intros (f & w & k & Hf & Hw & _ & ->).
  apply all_cron_app; [apply all_cron_field; exact Hf | ].
  apply (all_cron_rest k). exact Hw.
Qed.

(** What construction leaves in the schedule field. *)
Lemma new_schedule_inv s p k o c x :
  new s p k o = Ok c -> schedule c = Some x ->
  s = Some x /\ x <> "" /\ re_match CRON_REGEX x = true.
Proof.
  destruct s as [y|]; [ | rewrite ConfigFacts.new_absent; intros [= <-]; discriminate].
  destruct (String.eqb y "") eqn:E.
  - apply String.eqb_eq in E as ->. intros [= <-]. discriminate.
  - apply String.eqb_neq in E.
    destruct (re_match CRON_REGEX y) eqn:Hm.
    + rewrite (ConfigFacts.new_accepts y p k o E Hm).
      intros [= <-]. cbn [schedule]. intros [= <-]. auto.
    + rewrite (ConfigFacts.new_refuses y p k o E Hm). discriminate.
Qed.

Lemma new_fields s p k o c :
  new s p k o = Ok c ->
  schedule c = blank_string s /\ paused c = p /\ skip_immediately c = k
  /\ use_owner_references_in_backup c = o.
Proof.
  unfold new, validate_schedule. cbn [schedule].
  destruct (blank_string s) as [y|].
  - destruct (truthy (Some y) && negb (re_match CRON_REGEX y));
      [discriminate | ].
    intros [= <-]. repeat split.
  - intros [= <-]. repeat split.
Qed.

End ScheduleFacts.

(** The configuration is invalid exactly when it reports an error, and
    that is exactly when the schedule option is a non-empty string that
    [CRON_REGEX] does not match: the flags, set or not, never make it
    invalid. *)
Theorem config_invalid_iff_schedule_refused (c : Ops.Charm) :
  (Context.config c = None <-> Context.config_errors c <> [])
  /\ (Context.config c = None
      <-> exists s,
            Ops.cfg_schedule (Ops.config c) = Some s /\ s <> ""
            /\ Re.re_match CharmConfig.CRON_REGEX s = false).
Proof.
  split.
  - split.
    + intros H. rewrite (ReconcileFacts.config_errors_invalid c H).
      discriminate.
    + intros H. destruct (Context.config c) as [cfg|] eqn:E; [ | reflexivity].
      rewrite (ReconcileFacts.config_errors_valid c cfg E) in H.
      contradiction.
  - unfold Context.config, Context.charm_config. split.
    + destruct (CharmConfig.new _ _ _ _) as [cfg|e] eqn:E; [discriminate | ].
      intros _.
      destruct (ConfigFacts.new_raise_inv _ _ _ _ _ E) as (x & Hx & Hne & _).
      exists x. repeat split; try assumption.
      destruct (Re.re_match CharmConfig.CRON_REGEX x) eqn:Hm; [ | reflexivity].
      exfalso. revert E. rewrite Hx.
      rewrite (ConfigFacts.new_accepts x _ _ _ Hne Hm). discriminate.
    + intros (s & Hs & Hne & Hm). rewrite Hs.
      rewrite (ConfigFacts.new_refuses s _ _ _ Hne Hm). reflexivity.
Qed.

(** A constructed configuration keeps the flags it was given; its schedule
    is absent exactly when none or the empty string was given, and a
    schedule that is present is the given string, non-empty and matched by
    [CRON_REGEX]. *)
Theorem constructed_config_invariant
    (s : option string) (p k o : bool) (c : CharmConfig.t) :
  CharmConfig.new s p k o = Ok c ->
  CharmConfig.paused c = p
  /\ CharmConfig.skip_immediately c = k
  /\ CharmConfig.use_owner_references_in_backup c = o
  /\ (CharmConfig.schedule c = None <-> s = None \/ s = Some "")
  /\ forall x,
       CharmConfig.schedule c = Some x ->
       s = Some x /\ x <> ""
       /\ Re.re_match CharmConfig.CRON_REGEX x = true.
Proof.
  intros Hnew.
  destruct (ScheduleFacts.new_fields s p k o c Hnew) as (Hs & Hp & Hk & Ho).
  repeat split; try assumption.
  - rewrite Hs. destruct s as [y|]; [ | auto]. unfold CharmConfig.blank_string.
    destruct (String.eqb y "") eqn:E; [ | discriminate].
    apply String.eqb_eq in E as ->. auto.
  - intros [E | E]; rewrite Hs, E; reflexivity.
  - apply (ScheduleFacts.new_schedule_inv s p k o c x Hnew H).
  - apply (ScheduleFacts.new_schedule_inv s p k o c x Hnew H).
  - apply (ScheduleFacts.new_schedule_inv s p k o c x Hnew H).
Qed.

Lemma constructed_config_witness :
  let c := {| CharmConfig.schedule := Some "*/15 * * * ?";
              CharmConfig.paused := true;
              CharmConfig.skip_immediately := false;
              CharmConfig.use_owner_references_in_backup := false |} in
  CharmConfig.new (Some "*/15 * * * ?") true false false = Ok c
  /\ CharmConfig.paused c = true
  /\ forall x,
       CharmConfig.schedule c = Some x ->
       Some "*/15 * * * ?" = Some x /\ x <> ""
       /\ Re.re_match CharmConfig.CRON_REGEX x = true.
Proof.
  intros c.
  assert (Hnew : CharmConfig.new (Some "*/15 * * * ?") true false false = Ok c)
    by (vm_compute; reflexivity).
  destruct (constructed_config_invariant _ _ _ _ _ Hnew)
    as (Hp & _ & _ & _ & Hx).
  split; [exact Hnew | split; [exact Hp | exact Hx]].
Defined.

(** The schedule check looks at the shape only: 5 or 6 numbers separated
    by single spaces make a valid schedule whatever their values, so no
    field is checked against the range of minutes, hours, days, months or
    weekdays. *)
Theorem schedule_numbers_are_not_range_checked
    (fields : list string) (p k o : bool) :
  length fields = 5 \/ length fields = 6 ->
  Forall (fun f => Design.is_number (list_ascii_of_string f) = true) fields ->
  CharmConfig.new (Some (join " " fields)) p k o
  = Ok {| CharmConfig.schedule := Some (join " " fields);
          CharmConfig.paused := p;
          CharmConfig.skip_immediately := k;
          CharmConfig.use_owner_references_in_backup := o |}.
Proof.
  intros Hlen Hall.
  destruct fields as [|f fs]; [destruct Hlen; discriminate | ].
  inversion Hall as [|? ? Hf Hfs]; subst.
  assert (Hchars := ScheduleFacts.join_chars " "%char f fs).
  change (String " "%char "") with " " in Hchars.
  apply ConfigFacts.new_accepts.
  - intros E. rewrite E in Hchars.
    apply ScheduleFacts.is_number_number in Hf as [Hne _].
    destruct (list_ascii_of_string f); [contradiction | discriminate].
  - apply CronFacts.cron_regex_expression.
    exists (list_ascii_of_string f),
      (concat (map (fun x => " "%char :: list_ascii_of_string x) fs)),
      (length fs).
    repeat split.
    + apply ScheduleFacts.number_field, ScheduleFacts.is_number_number.
      exact Hf.
    + apply ScheduleFacts.spaced_fields_rest. exact Hfs.
    + cbn [length] in Hlen. lia.
    + exact Hchars.
Qed.

Lemma schedule_numbers_witness :
  CharmConfig.new (Some (join " " ["99"; "99"; "99"; "99"; "99"]))
    false false false
  = Ok {| CharmConfig.schedule := Some (join " " ["99"; "99"; "99"; "99"; "99"]);
          CharmConfig.paused := false;
          CharmConfig.skip_immediately := false;
          CharmConfig.use_owner_references_in_backup := false |}.
Proof.
  apply (schedule_numbers_are_not_range_checked
           ["99"; "99"; "99"; "99"; "99"] false false false).
  - left. reflexivity.
  - repeat constructor.
Defined.

(** A constructed configuration's schedule is made of digits, white space
    and the characters [*], [/], [-], [,] and [?] only: names of months or
    weekdays and nicknames such as [@daily] are never accepted. *)
Theorem constructed_schedule_alphabet
    (s : option string) (p k o : bool) (c : CharmConfig.t) (x : string) :
  CharmConfig.new s p k o = Ok c ->
  CharmConfig.schedule c = Some x ->
  forallb Observe.cron_char (list_ascii_of_string x) = true.
Proof.
  intros Hnew Hx.
  destruct (ScheduleFacts.new_schedule_inv s p k o c x Hnew Hx)
    as (_ & _ & Hm).
  apply CronFacts.cron_regex_expression in Hm.
  apply ScheduleFacts.all_cron_expression in Hm.
  apply forallb_forall. intros ch Hch.
  unfold Observe.all_cron in Hm. rewrite Forall_forall in Hm.
  apply Hm. apply list_elem_of_In. exact Hch.
Qed.

Lemma constructed_schedule_alphabet_witness :
  forallb Observe.cron_char (list_ascii_of_string "0-30 2,14 * * 1-5") = true.
Proof.
  assert (Hnew : CharmConfig.new (Some "0-30 2,14 * * 1-5") false false false
                 = Ok {| CharmConfig.schedule := Some "0-30 2,14 * * 1-5";
                         CharmConfig.paused := false;
                         CharmConfig.skip_immediately := false;
                         CharmConfig.use_owner_references_in_backup := false |})
    by (vm_compute; reflexivity).
  exact (constructed_schedule_alphabet _ _ _ _ _ _ Hnew eq_refl).
Defined.

(* ===================================================================== *)
(** * The requirer and the provider of the library *)
(* ===================================================================== *)

Module LibraryFacts.
Import Ops BackupTarget LibraryCall PassFacts Observe.

(** Parsing the text of a dumped specification gives it back. *)
Lemma validate_dump_json x :
  is_spec x -> model_validate_json (model_dump_json x) = Ok x.
Proof.
  intros Hx. unfold model_validate_json, model_dump_json.
  rewrite JsonFacts.loads_dumps
    by (apply RoundTripFacts.well_formed_model_dump; exact Hx).
  apply RoundTripFacts.model_validate_dump.
Qed.

Lemma model_dump_json_nonempty x : String.eqb (model_dump_json x) "" = false.
Proof. reflexivity. Qed.

(** The loop of [_send_data], [done] being the relations already
    served. *)
Lemma send_loop_run e items todo : forall done c,
  relations c !! e = Some (done ++ todo) ->
  for_each (seq (length done) (length todo))
    (fun i => update_local_app_data e i items) c
  = (Ok tt,
     Pass.moved (<[e := done ++ map (updated items) todo]> (relations c))
       (map (fun r => Write (id r) items) todo) c).
Proof.
  induction todo as [|r todo IH]; intros done c He.
  - cbn [length seq for_each map]. rewrite app_nil_r in *.
    rewrite (insert_id _ _ _ He), moved_same. reflexivity.
  - cbn [length seq for_each].
    erewrite bind_ok; cycle 1.
    { apply (update_local_app_data_run e _ items c _ r He).
      apply list_lookup_middle. reflexivity. }
    rewrite insert_app_r_alt by reflexivity.
    rewrite Nat.sub_diag. cbn [insert list_insert].
    fold (updated items r).
    replace (done ++ updated items r :: todo)
      with ((done ++ [updated items r]) ++ todo)
      by (rewrite <- app_assoc; reflexivity).
    replace (S (length done)) with (length (done ++ [updated items r]))
      by (rewrite length_app; simpl; lia).
    erewrite IH; cycle 1.
    { rewrite relations_moved. apply lookup_insert_eq. }
    rewrite moved_moved, relations_moved, insert_insert_eq.
    rewrite <- app_assoc. reflexivity.
Qed.

(** What the four assignments of [_send_data] leave in a databag. *)
Lemma lookup_sent_items (self : BackupTargetProvider.t)
    (bag : gmap string string) k :
  databag_update (BackupTargetProvider.sent_items self) bag !! k
  = if decide (k = SPEC_FIELD)
    then Some (model_dump_json (BackupTargetProvider._spec self))
    else if decide (k = RELATION_FIELD)
    then stored (BackupTargetProvider._relation_name self)
    else if decide (k = APP_FIELD)
    then stored (BackupTargetProvider._app_name self)
    else if decide (k = MODEL_FIELD)
    then stored (BackupTargetProvider._model self)
    else bag !! k.
Proof.
  unfold databag_update, BackupTargetProvider.sent_items, stored.
  cbn [foldl fst snd]. rewrite !ReconcileFacts.lookup_databag_set.
  rewrite model_dump_json_nonempty.
  unfold SPEC_FIELD, RELATION_FIELD, APP_FIELD, MODEL_FIELD.
  repeat case_decide; subst; try discriminate; try congruence; reflexivity.
Qed.

Lemma stored_nonempty v : v <> "" -> stored v = Some v.
Proof.
  intros Hv. unfold stored. destruct (String.eqb v "") eqn:E;
    [apply String.eqb_eq in E; contradiction | reflexivity].
Qed.

(** The databag that the provider filled names the provider. *)
Lemma names_sent_items self bag :
  BackupTargetProvider._app_name self <> "" ->
  BackupTargetProvider._relation_name self <> "" ->
  BackupTargetProvider._model self <> "" ->
  BackupTargetRequier.names
    (databag_update (BackupTargetProvider.sent_items self) bag)
    (BackupTargetProvider._app_name self)
    (BackupTargetProvider._relation_name self)
    (BackupTargetProvider._model self) = true.
Proof.
  intros Ha He Hm. unfold BackupTargetRequier.names.
  rewrite !lookup_sent_items.
  unfold SPEC_FIELD, RELATION_FIELD, APP_FIELD, MODEL_FIELD.
  repeat (case_decide; [discriminate | ]).
  repeat (case_decide; [ | congruence]).
  rewrite !stored_nonempty by assumption.
  rewrite !bool_decide_eq_true_2 by reflexivity. reflexivity.
Qed.

Lemma find_backup_spec_skip skipped : forall rest a e m,
  Forall (fun r => BackupTargetRequier.names (remote_data r) a e m = false)
    skipped ->
  BackupTargetRequier.find_backup_spec (skipped ++ rest) a e m
  = BackupTargetRequier.find_backup_spec rest a e m.
Proof.
  induction skipped as [|r skipped IH]; intros rest a e m H; [reflexivity | ].
  inversion H as [|? ? Hr Hrest]; subst.
  rewrite <- app_comm_cons. cbn [BackupTargetRequier.find_backup_spec].
  rewrite Hr. apply IH. assumption.
Qed.

Lemma empty_object_is_empty_spec : model_validate_json "{}" = Ok empty_spec.
Proof. vm_compute. reflexivity. Qed.

Lemma find_backup_spec_none rs a e m :
  BackupTargetRequier.find_backup_spec rs a e m = Returned None
  <-> Forall (fun r => BackupTargetRequier.names (remote_data r) a e m = false)
        rs.
Proof.
  induction rs as [|r rs IH]; cbn [BackupTargetRequier.find_backup_spec].
  - split; [constructor | reflexivity].
  - destruct (BackupTargetRequier.names (remote_data r) a e m) eqn:Hn.
    + split.
      * destruct (model_validate_json _); discriminate.
      * inversion 1; congruence.
    + rewrite IH. split.
      * intros H. constructor; assumption.
      * inversion 1; assumption.
Qed.

Lemma find_backup_spec_no_key_error rs a e m :
  BackupTargetRequier.find_backup_spec rs a e m <> RaisedKeyError.
Proof.
  induction rs as [|r rs IH]; cbn [BackupTargetRequier.find_backup_spec].
  - discriminate.
  - destruct (BackupTargetRequier.names (remote_data r) a e m); [ | exact IH].
    destruct (model_validate_json _); discriminate.
Qed.

(** What [get_backup_spec] makes of the relation that names the triple. *)
Lemma find_backup_spec_here r rest a e m :
  BackupTargetRequier.names (remote_data r) a e m = true ->
  BackupTargetRequier.find_backup_spec (r :: rest) a e m
  = match remote_data r !! SPEC_FIELD with
    | None => Returned (Some empty_spec)
    | Some text =>
        match model_validate_json text with
        | Ok s => Returned (Some s)
        | Raise x => Raised x
        end
    end.
Proof.
  intros Hn. cbn [BackupTargetRequier.find_backup_spec]. rewrite Hn.
  unfold spec_text. destruct (remote_data r !! SPEC_FIELD) as [text|].
  - reflexivity.
  - change (default "{}" None) with "{}".
    rewrite empty_object_is_empty_spec. reflexivity.
Qed.

(** A relation without remote application names no triple. *)
Lemma names_without_app r a e m :
  app r = None -> BackupTargetRequier.names (remote_data r) a e m = false.
Proof.
  intros Hr. unfold remote_data. rewrite Hr.
  unfold BackupTargetRequier.names. rewrite lookup_empty.
  rewrite bool_decide_eq_false_2 by discriminate. reflexivity.
Qed.

Lemma find_backup_spec_without before : forall r after a e m,
  BackupTargetRequier.names (remote_data r) a e m = false ->
  BackupTargetRequier.find_backup_spec (before ++ r :: after) a e m
  = BackupTargetRequier.find_backup_spec (before ++ after) a e m.
Proof.
  induction before as [|b before IH]; intros r after a e m Hr.
  - rewrite !app_nil_l. cbn [BackupTargetRequier.find_backup_spec].
    rewrite Hr. reflexivity.
  - rewrite <- !app_comm_cons. cbn [BackupTargetRequier.find_backup_spec].
    rewrite (IH r after a e m Hr). reflexivity.
Qed.

Lemma collect_specs_returned rs : forall specs,
  BackupTargetRequier.collect_specs rs = Returned specs
  <-> Forall2
        (fun r s => exists a data,
           app r = Some a /\ remote_app_data r = Some data
           /\ model_validate_json (spec_text data) = Ok s)
        rs specs.
Proof.
  induction rs as [|r rs IH]; intros specs;
    cbn [BackupTargetRequier.collect_specs].
  - split.
    + intros [= <-]. constructor.
    + inversion 1. reflexivity.
  - split.
    + destruct (app r) as [a|] eqn:Ha; [ | discriminate].
      destruct (remote_app_data r) as [data|] eqn:Hd; [ | discriminate].
      destruct (model_validate_json (spec_text data)) as [s|x] eqn:Hv;
        [ | discriminate].
      destruct (BackupTargetRequier.collect_specs rs) as [l| |] eqn:Hc;
        try discriminate.
      intros [= <-]. constructor.
      * exists a, data. auto.
      * apply IH. reflexivity.
    + inversion 1 as [|? s ? l (a & data & Ha & Hd & Hv) Hrest]; subst.
      rewrite Ha, Hd, Hv.
      apply IH in Hrest. rewrite Hrest. reflexivity.
Qed.

End LibraryFacts.

(** [_send_data] never raises and leaves the status alone. On the leader
    it assigns the four items to the databag of this application on every
    relation of the provider's endpoint, one write per relation in the
    order of the relations; on another unit it writes nothing. Relations
    of other endpoints keep their state. *)
Theorem send_data_writes_every_relation
    (self : BackupTargetProvider.t) (c : Ops.Charm) :
  let e := BackupTargetProvider._relation_name self in
  let items := BackupTargetProvider.sent_items self in
  let c' := snd (BackupTargetProvider._send_data self c) in
  fst (BackupTargetProvider._send_data self c) = Py.Ok tt
  /\ Ops.unit_status c' = Ops.unit_status c
  /\ (forall e', e' <> e -> Ops.relations c' !! e' = Ops.relations c !! e')
  /\ Ops.relations_get e c'
     = (if Ops.is_leader c
        then map (Observe.updated items) (Ops.relations_get e c)
        else Ops.relations_get e c)
  /\ Ops.accesses c'
     = Ops.accesses c
       ++ (if Ops.is_leader c
           then map (fun r => Ops.Write (Ops.id r) items)
                  (Ops.relations_get e c)
           else []).
Proof.
  cbv zeta. unfold BackupTargetProvider._send_data.
  rewrite PassFacts.bind_gets.
  destruct (Ops.is_leader c) eqn:Hl; cbn [negb].
  2: { cbn [Ops.ret fst snd]. rewrite app_nil_r. auto. }
  rewrite PassFacts.bind_gets. unfold Ops.relations_get.
  destruct (Ops.relations c !! BackupTargetProvider._relation_name self)
    as [[|r rs]|] eqn:He.
  - cbn [Ops.ret fst snd]. rewrite He. cbn. rewrite app_nil_r. auto.
  - rewrite (LibraryFacts.send_loop_run _ _ (r :: rs) [] c He).
    cbn [fst snd app]. rewrite PassFacts.relations_moved.
    rewrite PassFacts.unit_status_moved, PassFacts.accesses_moved.
    rewrite lookup_insert_eq.
    repeat split; try reflexivity.
    intros e' Hne. apply lookup_insert_ne. congruence.
  - cbn [Ops.ret fst snd]. rewrite He. cbn. rewrite app_nil_r. auto.
Qed.

(** The integrator reads the databag that a provider filled as the record
    of that provider: its specification, application, endpoint and model,
    whatever the databag held before and whatever the names of the relation
    and of the integrator's model are. *)
Theorem provider_record_is_read_back
    (self : BackupTargetProvider.t) (bag : gmap string string)
    (relation : Ops.Relation) (default_model_name : string) :
  BackupTarget.is_spec (BackupTargetProvider._spec self) ->
  BackupTargetProvider._app_name self <> "" ->
  BackupTargetProvider._relation_name self <> "" ->
  BackupTargetProvider._model self <> "" ->
  Domain.from_relation_data
    (Ops.databag_update (BackupTargetProvider.sent_items self) bag)
    relation default_model_name
  = Py.Ok (Some {| Domain.spec := BackupTargetProvider._spec self;
                   Domain.app_name := BackupTargetProvider._app_name self;
                   Domain.relation_name :=
                     BackupTargetProvider._relation_name self;
                   Domain.model_name := BackupTargetProvider._model self;
                   Domain.relation := relation |}).
Proof.
  intros Hs Ha He Hm.
  set (data := Ops.databag_update (BackupTargetProvider.sent_items self) bag).
  assert (Hspec : data !! Domain.SPEC_FIELD
                  = Some (BackupTarget.model_dump_json
                            (BackupTargetProvider._spec self))).
  { unfold data. rewrite LibraryFacts.lookup_sent_items. reflexivity. }
  assert (Happ : data !! Domain.APP_FIELD
                 = Some (BackupTargetProvider._app_name self)).
  { unfold data. rewrite LibraryFacts.lookup_sent_items.
    cbn. apply LibraryFacts.stored_nonempty. assumption. }
  assert (Hrel : data !! Domain.RELATION_FIELD
                 = Some (BackupTargetProvider._relation_name self)).
  { unfold data. rewrite LibraryFacts.lookup_sent_items.
    cbn. apply LibraryFacts.stored_nonempty. assumption. }
  assert (Hmod : data !! Domain.MODEL_FIELD
                 = Some (BackupTargetProvider._model self)).
  { unfold data. rewrite LibraryFacts.lookup_sent_items.
    cbn. apply LibraryFacts.stored_nonempty. assumption. }
  unfold Domain.from_relation_data, Domain.app_name_of.
  rewrite Hspec, Happ, Hrel, Hmod.
  rewrite (ConfigFacts.truthy_nonempty _ Ha).
  unfold Py.truthy. rewrite LibraryFacts.model_dump_json_nonempty.
  cbn [negb].
  change (default "" (Some ?x)) with x.
  rewrite (LibraryFacts.validate_dump_json _ Hs).
  unfold Py.or_else.
  destruct (String.eqb (BackupTargetProvider._relation_name self) "") eqn:E1;
    [apply String.eqb_eq in E1; contradiction | ].
  destruct (String.eqb (BackupTargetProvider._model self) "") eqn:E2;
    [apply String.eqb_eq in E2; contradiction | ].
  reflexivity.
Qed.

Lemma provider_record_witness :
  let self := TestApp._backup_provider "test-app" "apps" "velero" "24h" in
  Domain.from_relation_data
    (Ops.databag_update (BackupTargetProvider.sent_items self)
       {[ "app" := "stale" ]})
    Scenario.k8s_relation1 "test-model"
  = Py.Ok (Some {| Domain.spec := TestApp.spec "velero" "24h";
                   Domain.app_name := "test-app";
                   Domain.relation_name := "backup-config";
                   Domain.model_name := "apps";
                   Domain.relation := Scenario.k8s_relation1 |}).
Proof.
  intros self.
  apply (provider_record_is_read_back self {[ "app" := "stale" ]}
           Scenario.k8s_relation1 "test-model");
    [exact I | discriminate..].
Defined.

(** [get_backup_spec] returns [None] exactly when the endpoint is declared
    and no relation of it names the application, the endpoint and the
    model asked for; it raises [KeyError] exactly when the endpoint is not
    declared. *)
Theorem get_backup_spec_none_iff
    (self : BackupTargetRequier.t) (app_name endpoint model : string)
    (c : Ops.Charm) :
  (BackupTargetRequier.get_backup_spec self app_name endpoint model c
   = LibraryCall.Returned None
   <-> exists rs,
         Ops.relations c !! BackupTargetRequier._relation_name self = Some rs
         /\ Forall (fun r => BackupTargetRequier.names
                               (LibraryCall.remote_data r)
                               app_name endpoint model = false) rs)
  /\ (BackupTargetRequier.get_backup_spec self app_name endpoint model c
      = LibraryCall.RaisedKeyError
      <-> Ops.relations c !! BackupTargetRequier._relation_name self = None).
Proof.
  unfold BackupTargetRequier.get_backup_spec.
  destruct (Ops.relations c !! BackupTargetRequier._relation_name self)
    as [rs|]; split.
  - rewrite LibraryFacts.find_backup_spec_none. split.
    + intros H. exists rs. auto.
    + intros (rs' & [= <-] & H). exact H.
  - split; [ | discriminate].
    intros H. exfalso. revert H.
    apply LibraryFacts.find_backup_spec_no_key_error.
  - split; [discriminate | intros (rs & E & _); discriminate].
  - split; reflexivity.
Qed.

(** The first relation that names the triple decides the call, whatever
    the later relations hold: without a specification in its databag the
    result is the specification with every field absent, with a text that
    validates it is the parsed specification, and with a text that does
    not the call raises the validation error. *)
Theorem get_backup_spec_first_match_decides
    (self : BackupTargetRequier.t) (app_name endpoint model : string)
    (c : Ops.Charm) (skipped : list Ops.Relation) (r : Ops.Relation)
    (rest : list Ops.Relation) :
  Ops.relations c !! BackupTargetRequier._relation_name self
  = Some (skipped ++ r :: rest) ->
  Forall (fun r' => BackupTargetRequier.names (LibraryCall.remote_data r')
                      app_name endpoint model = false) skipped ->
  BackupTargetRequier.names (LibraryCall.remote_data r)
    app_name endpoint model = true ->
  BackupTargetRequier.get_backup_spec self app_name endpoint model c
  = match LibraryCall.remote_data r !! BackupTarget.SPEC_FIELD with
    | None => LibraryCall.Returned (Some Observe.empty_spec)
    | Some text =>
        match BackupTarget.model_validate_json text with
        | Py.Ok s => LibraryCall.Returned (Some s)
        | Py.Raise x => LibraryCall.Raised x
        end
    end.
Proof.
  intros Hc Hskip Hr. unfold BackupTargetRequier.get_backup_spec.
  rewrite Hc, (LibraryFacts.find_backup_spec_skip _ _ _ _ _ Hskip).
  apply LibraryFacts.find_backup_spec_here. exact Hr.
Qed.

Lemma get_backup_spec_first_match_witness :
  let self := {| BackupTargetRequier._relation_name :=
                   Constants.K8S_BACKUP_TARGET_RELATION |} in
  let named := {| Ops.id := 5; Ops.name := Constants.K8S_BACKUP_TARGET_RELATION;
                  Ops.app := Some "app2";
                  Ops.remote_app_data :=
                    Some {[ "app" := "app2"; "model" := "apps";
                            "relation_name" := "backup" ]};
                  Ops.local_app_data := ∅ |} in
  let c := Scenario.state true (Scenario.with_schedule "0 2 * * *") []
             [Scenario.k8s_relation1; named; Scenario.invalid_relation] in
  BackupTargetRequier.get_backup_spec self "app2" "backup" "apps" c
  = LibraryCall.Returned (Some Observe.empty_spec).
Proof.
  intros self named c.
  apply (get_backup_spec_first_match_decides self "app2" "backup" "apps" c
           [Scenario.k8s_relation1] named [Scenario.invalid_relation]).
  - reflexivity.
  - repeat constructor.
  - vm_compute. reflexivity.
Defined.

(** The requirer reads back what a provider sent: when the first relation
    that names the provider carries the databag that the provider filled,
    [get_backup_spec] asked for the provider's application, endpoint and
    model returns the provider's specification. *)
Theorem requirer_reads_what_provider_sent
    (provider : BackupTargetProvider.t) (self : BackupTargetRequier.t)
    (c : Ops.Charm) (skipped : list Ops.Relation) (r : Ops.Relation)
    (rest : list Ops.Relation) (remote : string)
    (bag : gmap string string) :
  BackupTarget.is_spec (BackupTargetProvider._spec provider) ->
  BackupTargetProvider._app_name provider <> "" ->
  BackupTargetProvider._relation_name provider <> "" ->
  BackupTargetProvider._model provider <> "" ->
  Ops.relations c !! BackupTargetRequier._relation_name self
  = Some (skipped ++ r :: rest) ->
  Forall (fun r' => BackupTargetRequier.names (LibraryCall.remote_data r')
                      (BackupTargetProvider._app_name provider)
                      (BackupTargetProvider._relation_name provider)
                      (BackupTargetProvider._model provider) = false)
    skipped ->
  Ops.app r = Some remote ->
  Ops.remote_app_data r
  = Some (Ops.databag_update (BackupTargetProvider.sent_items provider) bag) ->
  BackupTargetRequier.get_backup_spec self
    (BackupTargetProvider._app_name provider)
    (BackupTargetProvider._relation_name provider)
    (BackupTargetProvider._model provider) c
  = LibraryCall.Returned (Some (BackupTargetProvider._spec provider)).
Proof.
  intros Hs Ha He Hm Hc Hskip Happ Hdata.
  unfold BackupTargetRequier.get_backup_spec.
  rewrite Hc, (LibraryFacts.find_backup_spec_skip _ _ _ _ _ Hskip).
  assert (Hr : LibraryCall.remote_data r
               = Ops.databag_update (BackupTargetProvider.sent_items provider)
                   bag).
  { unfold LibraryCall.remote_data. rewrite Happ, Hdata. reflexivity. }
  rewrite LibraryFacts.find_backup_spec_here
    by (rewrite Hr; apply LibraryFacts.names_sent_items; assumption).
  rewrite Hr, LibraryFacts.lookup_sent_items.
  change (decide (BackupTarget.SPEC_FIELD = BackupTarget.SPEC_FIELD))
    with (decide ("spec" = "spec")).
  destruct (decide ("spec" = "spec")) as [_|Hne]; [ | contradiction].
  rewrite (LibraryFacts.validate_dump_json _ Hs). reflexivity.
Qed.

Lemma requirer_reads_witness :
  let provider := TestApp._backup_provider "test-app" "apps" "velero" "24h" in
  let self := {| BackupTargetRequier._relation_name :=
                   Constants.K8S_BACKUP_TARGET_RELATION |} in
  let r := {| Ops.id := 6; Ops.name := Constants.K8S_BACKUP_TARGET_RELATION;
              Ops.app := Some "test-app";
              Ops.remote_app_data :=
                Some (Ops.databag_update
                        (BackupTargetProvider.sent_items provider) ∅);
              Ops.local_app_data := ∅ |} in
  let c := Scenario.state true (Scenario.with_schedule "0 2 * * *") []
             [Scenario.k8s_relation1; r] in
  BackupTargetRequier.get_backup_spec self "test-app" "backup-config" "apps" c
  = LibraryCall.Returned (Some (TestApp.spec "velero" "24h")).
Proof.
  intros provider self r c.
  apply (requirer_reads_what_provider_sent provider self c
           [Scenario.k8s_relation1] r [] "test-app" ∅).
  - exact I.
  - discriminate.
  - discriminate.
  - discriminate.
  - reflexivity.
  - repeat constructor.
  - reflexivity.
  - reflexivity.
Defined.

(** [get_all_backup_specs] returns a list exactly when the endpoint is
    declared and every relation of it has a remote application whose
    specification text (the empty object when the key is missing)
    validates; the list then has one specification per relation, in the
    order of the relations. *)
Theorem get_all_backup_specs_returns_iff
    (self : BackupTargetRequier.t) (c : Ops.Charm)
    (specs : list BackupTarget.BackupTargetSpec) :
  BackupTargetRequier.get_all_backup_specs self c = LibraryCall.Returned specs
  <-> exists rs,
        Ops.relations c !! BackupTargetRequier._relation_name self = Some rs
        /\ Forall2
             (fun r s => exists a data,
                Ops.app r = Some a /\ Ops.remote_app_data r = Some data
                /\ BackupTarget.model_validate_json (LibraryCall.spec_text data)
                   = Py.Ok s)
             rs specs.
Proof.
  unfold BackupTargetRequier.get_all_backup_specs.
  destruct (Ops.relations c !! BackupTargetRequier._relation_name self)
    as [rs|].
  - rewrite LibraryFacts.collect_specs_returned. split.
    + intros H. exists rs. auto.
    + intros (rs' & [= <-] & H). exact H.
  - split; [discriminate | intros (rs & E & _); discriminate].
Qed.

(** A relation without remote application: [get_backup_spec] passes over
    it, with the result it has without that relation, while
    [get_all_backup_specs] returns no list. *)
Theorem relation_without_application_skipped_or_fatal
    (self : BackupTargetRequier.t) (c : Ops.Charm)
    (before : list Ops.Relation) (r : Ops.Relation)
    (after : list Ops.Relation) :
  Ops.relations c !! BackupTargetRequier._relation_name self
  = Some (before ++ r :: after) ->
  Ops.app r = None ->
  (forall app_name endpoint model,
     BackupTargetRequier.get_backup_spec self app_name endpoint model c
     = BackupTargetRequier.find_backup_spec (before ++ after)
         app_name endpoint model)
  /\ (forall specs,
        BackupTargetRequier.get_all_backup_specs self c
        <> LibraryCall.Returned specs).
Proof.
  intros Hc Hr. split.
  - intros a e m. unfold BackupTargetRequier.get_backup_spec. rewrite Hc.
    apply LibraryFacts.find_backup_spec_without.
    apply LibraryFacts.names_without_app. exact Hr.
  - intros specs H. unfold BackupTargetRequier.get_all_backup_specs in H.
    rewrite Hc in H. apply LibraryFacts.collect_specs_returned in H.
    apply Forall2_app_inv_l in H as (s1 & s2 & _ & H2 & _).
    inversion H2 as [|? ? ? ? (a & data & Ha & _) _]; subst. congruence.
Qed.

Lemma relation_without_application_witness :
  let self := {| BackupTargetRequier._relation_name :=
                   Constants.K8S_BACKUP_TARGET_RELATION |} in
  let dying := {| Ops.id := 7; Ops.name := Constants.K8S_BACKUP_TARGET_RELATION;
                  Ops.app := None; Ops.remote_app_data := None;
                  Ops.local_app_data := ∅ |} in
  let c := Scenario.state true (Scenario.with_schedule "0 2 * * *") []
             [Scenario.k8s_relation1; dying; Scenario.k8s_relation2] in
  (forall app_name endpoint model,
     BackupTargetRequier.get_backup_spec self app_name endpoint model c
     = BackupTargetRequier.find_backup_spec
         ([Scenario.k8s_relation1] ++ [Scenario.k8s_relation2])
         app_name endpoint model)
  /\ (forall specs,
        BackupTargetRequier.get_all_backup_specs self c
        <> LibraryCall.Returned specs).
Proof.
  intros self dying c.
  apply (relation_without_application_skipped_or_fatal self c
           [Scenario.k8s_relation1] dying [Scenario.k8s_relation2]);
    reflexivity.
Defined.

(* ===================================================================== *)
(** * The language of [DURATION_REGEX] *)
(* ===================================================================== *)

Module DurationFacts.
Import Re ReFacts BackupTarget Design Observe.

Lemma group_matches u w :
  matches (Opt (Cat (Plus digit) (Lit u))) w
  <-> optional (duration_group u) w.
Proof.
  rewrite matches_opt, matches_cat. unfold optional, duration_group. split.
  - intros [(n & t & -> & Hn & Ht)| ->]; [left | right; reflexivity].
    apply matches_lit in Ht as ->. apply CronFacts.digits_number in Hn.
    exists n. auto.
  - intros [(n & Hn & ->)| ->]; [left | right; reflexivity].
    exists n, [u]. repeat split.
    + apply CronFacts.digits_number. exact Hn.
    + apply matches_lit. reflexivity.
Qed.

Lemma dollar_matches w : matches Dollar w <-> w = [] \/ w = [newline].
Proof.
  unfold Dollar. rewrite matches_opt, matches_lit. tauto.
Qed.

(** A group that is there begins with a digit. *)
Lemma group_head u g :
  optional (duration_group u) g ->
  g = [] \/ exists d rest, is_digit d = true /\ g = d :: rest.
Proof.
  intros [(n & [Hne Hn] & ->)| ->]; [right | left; reflexivity].
  destruct Hn as [|d n Hd Hn]; [congruence | ].
  exists d, (n ++ [u]). auto.
Qed.

Lemma groups_head u1 u2 u3 h m sec :
  optional (duration_group u1) h ->
  optional (duration_group u2) m ->
  optional (duration_group u3) sec ->
  h ++ m ++ sec <> [] ->
  exists d rest, is_digit d = true /\ h ++ m ++ sec = d :: rest.
Proof.
  intros Hh Hm Hs Hne.
  destruct (group_head _ _ Hh) as [-> | (d & rest & Hd & ->)].
  - destruct (group_head _ _ Hm) as [-> | (d & rest & Hd & ->)].
    + destruct (group_head _ _ Hs) as [-> | (d & rest & Hd & ->)].
      * contradiction.
      * exists d, rest. auto.
    + exists d, (rest ++ sec). auto.
  - exists d, (rest ++ m ++ sec). auto.
Qed.

(** The lookahead asks for a digit on the first line of the subject. *)
Lemma lookahead_matches w :
  matches (Cat (Cat (Star (Class not_newline)) digit) (Star (Class any_char)))
    w
  <-> exists u d v,
        w = u ++ d :: v /\ Forall (fun c => not_newline c = true) u
        /\ is_digit d = true.
Proof.
  rewrite matches_cat. split.
  - intros (w1 & v & -> & H1 & _).
    apply matches_cat in H1 as (u & t & -> & Hu & Ht).
    apply matches_star_class in Hu.
    apply matches_class in Ht as (d & -> & Hd).
    exists u, d, v. rewrite <- app_assoc. auto.
  - intros (u & d & v & -> & Hu & Hd).
    exists (u ++ [d]), v. rewrite <- app_assoc. repeat split.
    + apply matches_cat. exists u, [d]. repeat split.
      * apply matches_star_class. exact Hu.
      * apply matches_class. exists d. auto.
    + apply matches_star_class. apply Forall_forall. reflexivity.
Qed.

Lemma duration_matches w :
  matches DURATION_REGEX w
  <-> exists h m sec tail,
        optional (duration_group "h") h
        /\ optional (duration_group "m") m
        /\ optional (duration_group "s") sec
        /\ (tail = [] \/ tail = [newline])
        /\ h ++ m ++ sec <> []
        /\ w = h ++ m ++ sec ++ tail.
Proof.
  unfold DURATION_REGEX, Lookahead. rewrite matches_and, lookahead_matches.
  split.
  - intros [(u & d & v & Hw & Hu & Hd) Hbody].
    apply matches_cat in Hbody as (h & w1 & -> & Hh & Hbody).
    apply matches_cat in Hbody as (m & w2 & -> & Hm & Hbody).
    apply matches_cat in Hbody as (sec & tail & -> & Hs & Htail).
    apply group_matches in Hh, Hm, Hs. apply dollar_matches in Htail.
    exists h, m, sec, tail. repeat split; try assumption.
    intros Hnil.
    apply app_eq_nil in Hnil as [-> Hnil].
    apply app_eq_nil in Hnil as [-> ->].
    rewrite !app_nil_l in Hw.
    destruct Htail as [-> | ->].
    + destruct u; discriminate.
    + destruct u as [|c u].
      * injection Hw as <- _. discriminate.
      * injection Hw as _ Hw. destruct u; discriminate.
  - intros (h & m & sec & tail & Hh & Hm & Hs & Htail & Hne & ->). split.
    + destruct (groups_head _ _ _ _ _ _ Hh Hm Hs Hne)
        as (d & rest & Hd & E).
      exists [], d, (rest ++ tail). repeat split.
      * rewrite !app_assoc. rewrite <- (app_assoc h m sec), E. reflexivity.
      * constructor.
      * exact Hd.
    + apply matches_cat. exists h, (m ++ sec ++ tail). repeat split.
      { apply group_matches. exact Hh. }
      apply matches_cat. exists m, (sec ++ tail). repeat split.
      { apply group_matches. exact Hm. }
      apply matches_cat. exists sec, tail. repeat split.
      { apply group_matches. exact Hs. }
      apply dollar_matches. exact Htail.
Qed.

Lemma re_match_duration s :
  re_match DURATION_REGEX s = true <-> duration_text s.
Proof. rewrite re_match_matches. apply duration_matches. Qed.

End DurationFacts.

(** [re.match(DURATION_REGEX, s)] succeeds exactly on the texts made of an
    hours group, a minutes group and a seconds group in that order, each a
    run of digits before its letter and each optional but not all three
    absent, with at most one line feed after them. *)
Theorem duration_regex_language (s : string) :
  Re.re_match BackupTarget.DURATION_REGEX s = true
  <-> Observe.duration_text s.
Proof.
  rewrite ReFacts.re_match_matches. apply DurationFacts.duration_matches.
Qed.

(** [__post_init__] raises exactly for a ttl that is set, not empty and
    not such a text, and then with [ValueError] and the message that
    carries the ttl. *)
Theorem post_init_raises_iff
    (self : BackupTarget.BackupTargetSpec) (e : Py.exn) :
  BackupTarget.__post_init__ self = Py.Raise e
  <-> exists t,
        BackupTarget.ttl self = Some t /\ t <> ""
        /\ ~ Observe.duration_text t
        /\ e = Py.ValueError (BackupTarget.invalid_ttl_message t).
Proof.
  unfold BackupTarget.__post_init__.
  destruct (BackupTarget.ttl self) as [t|].
  2: { split; [discriminate | intros (t & E & _); discriminate]. }
  unfold Py.truthy.
  destruct (String.eqb t "") eqn:Et; cbn [negb andb].
  - apply String.eqb_eq in Et. split; [discriminate | ].
    intros (t' & [= <-] & Hne & _). contradiction.
  - apply String.eqb_neq in Et.
    destruct (Re.re_match BackupTarget.DURATION_REGEX t) eqn:Hm; cbn [negb].
    + apply DurationFacts.re_match_duration in Hm.
      split; [discriminate | ].
      intros (t' & [= <-] & _ & Hn & _). contradiction.
    + split.
      * intros [= <-]. exists t. repeat split; try assumption.
        intros Hd. apply DurationFacts.re_match_duration in Hd. congruence.
      * intros (t' & [= <-] & _ & _ & ->). reflexivity.
Qed.
